(** * WString: the ESP8266 core's String buffer, embedded shallowly

    Source: cores/esp8266/WString.cpp.  Every function of the section
    [WString] is a translation of the member function its name or its
    comment gives; overloads are told apart by a suffix.  The class body
    (WString.h: the inline/heap union, the accessors, the constants) is not
    part of the translated file; what the functions need from it is either
    a section variable or a definition marked "Modelled from the spec". *)

From Stdlib Require Import ZArith Ascii String Lia.
From stdpp Require Import base list.

Local Open Scope Z_scope.

(** Closed side conditions on concrete values, by evaluation. *)
Ltac wf_solve :=
  repeat split;
  first [ eexists; reflexivity
        | vm_compute; reflexivity
        | vm_compute; discriminate ].

(** ** Machine integers *)

(** [unsigned int] and [size_t] are 32 bits wide on the target. *)
Definition u32 (x : Z) : Z := x mod 2 ^ 32.
(** [uint16_t]. *)
Definition u16 (x : Z) : Z := x mod 2 ^ 16.
(** [int]: conversion of an unsigned value to a signed 32 bit one. *)
Definition s32 (x : Z) : Z := (x + 2 ^ 31) mod 2 ^ 32 - 2 ^ 31.

(** ** Memory regions

    A [const char *] is the list of the bytes found at and after the
    address; the null pointer is [None].  A region ends where the model's
    knowledge of memory ends: a read past it finds nothing. *)

Definition NUL : ascii := Ascii.zero.

(** [strlen]: the bytes before the first terminator. *)
Fixpoint strlen (m : list ascii) : nat :=
  match m with
  | [] => O
  | c :: m' => if Ascii.eqb c NUL then O else S (strlen m')
  end.

(** The bytes a [char *] designates as a C string. *)
Definition cstr (m : list ascii) : list ascii := take (strlen m) m.

(** [overwrite data buf]: [data] laid over the head of [buf]; bytes that
    would land past the end of [buf] are dropped (the storage keeps its
    size). *)
Fixpoint overwrite (data buf : list ascii) : list ascii :=
  match data, buf with
  | [], _ => buf
  | _, [] => []
  | x :: data', _ :: buf' => x :: overwrite data' buf'
  end.

(** [poke off data buf]: [memcpy]/[memmove] of [data] to [buf + off].  The
    source bytes are read before the call, which is the overlap-safe
    behaviour of [memmove]. *)
Fixpoint poke (off : nat) (data buf : list ascii) : list ascii :=
  match off, buf with
  | O, _ => overwrite data buf
  | S _, [] => []
  | S off', b :: buf' => b :: poke off' data buf'
  end.

(** [is_prefix p m]: the first [length p] bytes of [m] are [p]. *)
Fixpoint is_prefix (p m : list ascii) : bool :=
  match p, m with
  | [], _ => true
  | _, [] => false
  | x :: p', y :: m' => Ascii.eqb x y && is_prefix p' m'
  end.

(** [strstr hay needle]: offset of the first occurrence of the C string
    [needle] in the C string [hay]. *)
Fixpoint strstr_from (needle hay : list ascii) : option nat :=
  if is_prefix needle hay then Some O
  else match hay with
       | [] => None
       | _ :: hay' => S <$> strstr_from needle hay'
       end.

Definition strstr (hay needle : list ascii) : option nat :=
  strstr_from (cstr needle) (cstr hay).

(** [strcmp]: difference of the first pair of differing bytes, read as
    [unsigned char]; the end of a region reads as the terminator. *)
Definition uchar (c : ascii) : Z := Z.of_N (N_of_ascii c).

Fixpoint strcmp (a b : list ascii) : Z :=
  match a, b with
  | [], [] => 0
  | [], y :: _ => 0 - uchar y
  | x :: _, [] => uchar x
  | x :: a', y :: b' =>
      if Ascii.eqb x y then (if Ascii.eqb x NUL then 0 else strcmp a' b')
      else uchar x - uchar y
  end.

(** [memchr(set, c, n) != NULL]. *)
Definition memchr (set : list ascii) (c : ascii) (n : Z) : bool :=
  existsb (Ascii.eqb c) (take (Z.to_nat n) set).

(** ** The value *)

(** Modelled from the spec: WString.h is not among the translated files.
    The value has two storage modes, an inline array embedded in the value
    and an exclusively owned heap block, and a discriminant.  The header
    overlays both in a union; here the two views are kept side by side and
    [sso_isSSO] says which one is active.  The inactive view holds stale
    bytes; no theorem below depends on them.  Field widths are the
    header's: lengths and capacities are unbounded integers here, and the
    16 bits [changeBuffer] keeps of a length are written out there. *)
Record String := mkString {
  sso_isSSO : bool;
  sso_buff : list ascii;
  sso_len : Z;
  ptr_buff : option (list ascii);
  ptr_cap : Z;
  ptr_len : Z
}.

(** Pointer to a [String] argument, as seen from a member function: the
    object itself ([&s == this]) or another object. *)
Inductive StringRef :=
| This
| Other (o : String).

(** ** Literals and a concrete target for the worked examples *)

(** The region a string literal occupies: its bytes and the terminator. *)
Definition lit (x : string) : list ascii := list_ascii_of_string x ++ [NUL].

(** The bytes of a string literal. *)
Definition chars (x : string) : list ascii := list_ascii_of_string x.

(** The sizes the worked examples run on: an inline array of 11 bytes and
    capacities of 16 bits.  The theorems hold for every size. *)
Definition esp8266_SSOSIZE : nat := 11.
Definition esp8266_CAPACITY_MAX : Z := 65535.

(** Memory nobody has written yet. *)
Definition garbage : ascii := "?"%char.

(** An allocator that always succeeds; the bytes of a block past the ones
    it keeps are indeterminate. *)
Definition alloc_fresh (old : option (list ascii)) (n : nat) : option (list ascii) :=
  Some (take n (default [] old ++ replicate n garbage)).

(** An allocator that has run out of memory. *)
Definition alloc_none (old : option (list ascii)) (n : nat) : option (list ascii) :=
  None.

(** The indeterminate storage in which a new value is constructed. *)
Definition raw_object : String :=
  mkString false (replicate esp8266_SSOSIZE garbage) 0 None 0 0.

(** A value holding [x] in an inline array of [size] bytes. *)
Definition inline_value (size : nat) (x : string) : String :=
  mkString true (take size (lit x ++ replicate size garbage))
    (Z.of_nat (String.length x)) None 0 0.

(** A value holding [x] in a heap block of [cap + 1] bytes. *)
Definition heap_value (cap : nat) (x : string) : String :=
  mkString false (replicate esp8266_SSOSIZE garbage) 0
    (Some (take (S cap) (lit x ++ replicate (S cap) NUL)))
    (Z.of_nat cap) (Z.of_nat (String.length x)).

Section WString.

(** [sizeof(sso.buff)], the size of the inline array. *)
Variable SSOSIZE : nat.
(** The hard ceiling on the size of a heap block. *)
Variable CAPACITY_MAX : Z.
(** The allocator collaborator: [realloc old n] resizes the block [old]
    (a null block is a fresh allocation) to [n] bytes, or fails. *)
Variable realloc : option (list ascii) -> nat -> option (list ascii).

(** *** Accessors

    The inline accessors of WString.h, which WString.cpp calls throughout;
    each is written from what the spec says of the attribute it reads or
    writes. *)

(** Modelled from the spec: accessor of WString.h, the discriminant of
    the representation. *)
Definition isSSO (s : String) : bool := sso_isSSO s.

(** Modelled from the spec: accessor of WString.h, the length: the
    number of meaningful bytes, terminator excluded, of the active
    representation. *)
Definition len (s : String) : Z :=
  if isSSO s then sso_len s else ptr_len s.

(** Modelled from the spec: accessor of WString.h, the capacity: the
    bytes available for content, the terminator slot excluded; in inline
    mode it is fixed by the array size minus one. *)
Definition capacity (s : String) : Z :=
  if isSSO s then Z.of_nat SSOSIZE - 1 else ptr_cap s.

(** Modelled from the spec: setter of WString.h for the discriminant. *)
Definition setSSO (set : bool) (s : String) : String :=
  mkString set (sso_buff s) (sso_len s) (ptr_buff s) (ptr_cap s) (ptr_len s).

(** Modelled from the spec: setter of WString.h for the length of the
    active representation. *)
Definition setLen (l : Z) (s : String) : String :=
  if isSSO s
  then mkString true (sso_buff s) l (ptr_buff s) (ptr_cap s) (ptr_len s)
  else mkString false (sso_buff s) (sso_len s) (ptr_buff s) (ptr_cap s) l.

(** Modelled from the spec: setter of WString.h for the capacity, which
    only heap mode stores. *)
Definition setCapacity (cap : Z) (s : String) : String :=
  if isSSO s then s
  else mkString false (sso_buff s) (sso_len s) (ptr_buff s) cap (ptr_len s).

(** Modelled from the spec: setter of WString.h for the heap block. *)
Definition setBuffer (buff : list ascii) (s : String) : String :=
  if isSSO s then s
  else mkString false (sso_buff s) (sso_len s) (Some buff) (ptr_cap s) (ptr_len s).

(** Modelled from the spec: accessor of WString.h, the writable pointer
    to the active storage: the inline array or the heap block. *)
Definition wbuffer (s : String) : option (list ascii) :=
  if isSSO s then Some (sso_buff s) else ptr_buff s.

(** Modelled from the spec: accessor of WString.h, the read-only pointer
    to the active storage. *)
Definition buffer (s : String) : option (list ascii) := wbuffer s.

(** The bytes of the active storage (none behind a null pointer). *)
Definition bytes (s : String) : list ascii := default [] (wbuffer s).

(** Modelled from the spec: [init] of WString.h, the reset to the initial
    empty/inline state: inline mode, length zero, an empty C string in
    the inline array. *)
Definition init (s : String) : String :=
  mkString true (poke 0 [NUL] (sso_buff s)) 0 (ptr_buff s) (ptr_cap s) (ptr_len s).

(** *** Access to the active storage *)

(** [wbuffer()[off .. off + |data|) = data]. *)
Definition store (off : Z) (data : list ascii) (s : String) : String :=
  if isSSO s
  then mkString true (poke (Z.to_nat off) data (sso_buff s)) (sso_len s)
                (ptr_buff s) (ptr_cap s) (ptr_len s)
  else mkString false (sso_buff s) (sso_len s)
                (poke (Z.to_nat off) data <$> ptr_buff s) (ptr_cap s) (ptr_len s).

(** The [n] bytes at [buffer() + off]. *)
Definition load (off n : Z) (s : String) : list ascii :=
  take (Z.to_nat n) (drop (Z.to_nat off) (bytes s)).

(** The region [buffer() + off] designates. *)
Definition region (off : Z) (s : String) : list ascii :=
  drop (Z.to_nat off) (bytes s).

(** [buffer()[i]]; a byte outside the storage reads as the terminator. *)
Definition peek (i : Z) (s : String) : ascii :=
  if i <? 0 then NUL else default NUL (bytes s !! Z.to_nat i).

(** What the value holds: the [len()] bytes of the active storage. *)
Definition content (s : String) : list ascii :=
  take (Z.to_nat (len s)) (bytes s).

(** What [c_str()] shows a reader of C strings. *)
Definition c_str (s : String) : list ascii := cstr (bytes s).

(** *** Memory management *)

(** [free] releases a block the model does not track further. *)
Definition invalidate (s : String) : String := init s.

(** [newSize] and [newSize - 1] are [size_t] arithmetic.  For a request
    of [2^32 - 16] or more the rounded size wraps to 0: the ceiling test
    lets it pass, the block has no bytes, and [newSize - 1] is the largest
    [size_t], of which the header's setter keeps what its field holds.
    The copy of the inline array then writes outside the block, which
    this model does not represent ([poke] keeps the size of the block);
    the statements below on the state after a growth bound their request
    below [2^32 - 16]. *)
Definition changeBuffer (s : String) (maxStrLen : Z) : bool * String :=
  if maxStrLen <? u32 (Z.of_nat SSOSIZE - 1) then
    if isSSO s || negb (bool_decide (is_Some (buffer s))) then
      let oldLen := u16 (len s) in
      (true, setLen oldLen (setSSO true s))
    else
      let temp := bytes s in
      let oldLen := u16 (len s) in
      let s1 := setLen oldLen (setSSO true s) in
      (true, store 0 (take (Z.to_nat maxStrLen) temp) s1)
  else
    let newSize := Z.land (u32 (maxStrLen + 16)) (Z.lnot 15) in
    if newSize >? CAPACITY_MAX then (false, s)
    else
      let oldLen := u16 (len s) in
      match realloc (if isSSO s then None else wbuffer s) (Z.to_nat newSize) with
      | Some newbuffer =>
          let oldSize := u32 (capacity s + 1) in
          let nb1 := if isSSO s then poke 0 (take SSOSIZE (sso_buff s)) newbuffer
                     else newbuffer in
          let nb2 := if newSize >? oldSize
                     then poke (Z.to_nat oldSize)
                               (replicate (Z.to_nat (newSize - oldSize)) NUL) nb1
                     else nb1 in
          (true, setBuffer nb2 (setLen oldLen (setCapacity (u32 (newSize - 1))
                                                   (setSSO false s))))
      | None => (false, s)
      end.

Definition reserve (s : String) (size : Z) : bool * String :=
  if bool_decide (is_Some (buffer s)) && (capacity s >=? size) then (true, s)
  else
    let '(ok, s1) := changeBuffer s size in
    if ok then (true, if len s1 =? 0 then store 0 [NUL] s1 else s1)
    else (false, s1).

(** *** Copy and move *)

Definition copy (s : String) (src : list ascii) (length : Z) : String :=
  let '(ok, s1) := reserve s length in
  if negb ok then invalidate s1
  else store 0 (take (Z.to_nat (u32 (length + 1))) src) (setLen length s1).

(** The flash variant differs in the block-copy primitive only. *)
Definition copy_P (s : String) (pstr : list ascii) (length : Z) : String :=
  let '(ok, s1) := reserve s length in
  if negb ok then invalidate s1
  else store 0 (take (Z.to_nat (u32 (length + 1))) pstr) (setLen length s1).

(** The constructor from a C string, on the indeterminate object [raw]. *)
Definition String_cstr (raw : String) (src : option (list ascii)) : String :=
  let s := init raw in
  match src with
  | Some c => copy s c (Z.of_nat (strlen c))
  | None => s
  end.

(** [move]: returns the new [*this] and the new [rhs]. *)
Definition move (s rhs : String) : String * String :=
  (rhs, init rhs).

(** [operator=(const String &)]. *)
Definition assign (s : String) (rhs : StringRef) : String :=
  match rhs with
  | This => s
  | Other r =>
      match buffer r with
      | Some b => copy s b (len r)
      | None => invalidate s
      end
  end.

(** [operator=] from a [const char] pointer. *)
Definition assign_cstr (s : String) (src : option (list ascii)) : String :=
  match src with
  | Some c => copy s c (Z.of_nat (strlen c))
  | None => invalidate s
  end.

(** [operator=] from a flash string pointer. *)
Definition assign_P (s : String) (pstr : option (list ascii)) : String :=
  match pstr with
  | Some p => copy_P s p (Z.of_nat (strlen p))
  | None => invalidate s
  end.

(** *** concat *)

(** [concat(const char *, unsigned int)]. *)
Definition concat (s : String) (src : option (list ascii)) (length : Z)
  : bool * String :=
  let newlen := u32 (len s + length) in
  match src with
  | None => (false, s)
  | Some c =>
      if length =? 0 then (true, s)
      else
        let '(ok, s1) := reserve s newlen in
        if negb ok then (false, s1)
        else
          let s2 := store (len s1) (take (Z.to_nat length) c) s1 in
          let s3 := setLen newlen s2 in
          (true, store newlen [NUL] s3)
  end.

(** [concat(const String &)]. *)
Definition concat_String (s : String) (arg : StringRef) : bool * String :=
  match arg with
  | This =>
      let newlen := u32 (2 * len s) in
      if negb (bool_decide (is_Some (buffer s))) then (false, s)
      else if len s =? 0 then (true, s)
      else
        let '(ok, s1) := reserve s newlen in
        if negb ok then (false, s1)
        else
          let s2 := store (len s1) (load 0 (len s1) s1) s1 in
          let s3 := setLen newlen s2 in
          (true, store newlen [NUL] s3)
  | Other o => concat s (buffer o) (len o)
  end.

(** [concat] of a [const char] pointer. *)
Definition concat_cstr (s : String) (src : option (list ascii)) : bool * String :=
  match src with
  | None => (false, s)
  | Some c => concat s (Some c) (Z.of_nat (strlen c))
  end.

(** [concat] of a flash string pointer. *)
Definition concat_P (s : String) (str : option (list ascii)) : bool * String :=
  match str with
  | None => (false, s)
  | Some p =>
      let length := Z.of_nat (strlen p) in
      if length =? 0 then (true, s)
      else
        let newlen := u32 (len s + length) in
        let '(ok, s1) := reserve s newlen in
        if negb ok then (false, s1)
        else
          let s2 := store (len s1) (take (Z.to_nat (length + 1)) p) s1 in
          (true, setLen newlen s2)
  end.

(** *** Insert *)

Definition insert (s : String) (position : Z) (other : list ascii)
  (other_length : Z) : String :=
  if position >? len s then s
  else
    let len0 := len s in
    let total := u32 (len0 + other_length) in
    let '(ok, s1) := reserve s total in
    if negb ok then s1
    else
      let left := u32 (len0 - position) in
      let s2 := setLen total s1 in
      let s3 := store (position + other_length) (load position left s2) s2 in
      let s4 := store position (take (Z.to_nat other_length) other) s3 in
      store total [NUL] s4.

(** *** Comparison *)

Definition has_buffer (s : String) : bool := bool_decide (is_Some (buffer s)).

Definition compareTo (s o : String) : Z :=
  if negb (has_buffer s) || negb (has_buffer o) then
    if has_buffer o && (len o >? 0) then 0 - uchar (peek 0 o)
    else if has_buffer s && (len s >? 0) then uchar (peek 0 s)
    else 0
  else strcmp (bytes s) (bytes o).

Definition op_lt (s rhs : String) : bool := compareTo s rhs <? 0.
Definition op_gt (s rhs : String) : bool := compareTo s rhs >? 0.
Definition op_le (s rhs : String) : bool := compareTo s rhs <=? 0.
Definition op_ge (s rhs : String) : bool := compareTo s rhs >=? 0.

(** The loop of [equalsConstantTime]: one iteration for every byte of
    [p1] before its terminator; returns [(equalchars, diffchars)]. *)
Fixpoint equalsConstantTime_loop (p1 p2 : list ascii) (equalchars diffchars : Z)
  : Z * Z :=
  match p1 with
  | [] => (equalchars, diffchars)
  | c1 :: p1' =>
      if Ascii.eqb c1 NUL then (equalchars, diffchars)
      else if Ascii.eqb c1 (hd NUL p2)
           then equalsConstantTime_loop p1' (tl p2) (u32 (equalchars + 1)) diffchars
           else equalsConstantTime_loop p1' (tl p2) equalchars (u32 (diffchars + 1))
  end.

Definition equalsConstantTime (s s2 : String) : Z :=
  if negb (len s =? len s2) then 0
  else if len s =? 0 then 1
  else
    let '(equalchars, diffchars) :=
      equalsConstantTime_loop (bytes s) (bytes s2) 0 0 in
    let equalcond := if equalchars =? len s then 1 else 0 in
    let diffcond := if diffchars =? 0 then 1 else 0 in
    Z.land equalcond diffcond.

(** *** Search *)

(** Scan of the start offsets [p], [p - 1], ..., [0]. *)
Fixpoint strrstr_scan (str find : list ascii) (p : nat) : option nat :=
  if is_prefix find (drop p str) then Some p
  else match p with
       | O => None
       | S p' => strrstr_scan str find p'
       end.

(** Modelled from the spec: the helper [__strrstr_P] is defined outside
    WString.cpp.  It is the "last-match-before-index search" the replace
    loop repeats: the last occurrence of the [findLen] bytes of [find]
    that lies within the first [strLen] bytes of [str]. *)
Definition __strrstr_P (str : list ascii) (strLen : Z) (find : list ascii)
  (findLen : Z) : option nat :=
  if strLen <? findLen then None
  else strrstr_scan str (take (Z.to_nat findLen) find) (Z.to_nat (strLen - findLen)).

Definition _lastIndexOf_P (s : String) (find : option (list ascii))
  (fromIndex findLen : Z) : Z :=
  match find with
  | None => -1
  | Some f =>
      let len0 := len s in
      if len0 =? 0 then -1
      else
        let fromIndex := if fromIndex =? u32 (Z.lnot 0) then len0 else fromIndex in
        match __strrstr_P (bytes s) (u32 (fromIndex + findLen)) f findLen with
        | None => -1
        | Some p => Z.of_nat p
        end
  end.

(** [substring]: [raw] is the indeterminate storage in which the result
    [out] is constructed.  Returns [out] and the source after the call. *)
Definition substring (s raw : String) (left right : Z) : String * String :=
  let left1 := if left >? right then right else left in
  let right1 := if left >? right then left else right in
  let out := init raw in
  if left1 >=? len s then (out, s)
  else
    let right2 := if right1 >? len s then len s else right1 in
    let tempchar := peek right2 s in
    let s1 := store right2 [NUL] s in
    let out1 := assign_cstr out (Some (region left1 s1)) in
    let s2 := store right2 [tempchar] s1 in
    (out1, s2).

(** *** Modification *)

(** The loop [for (p = m; p[0]; p++) p[0] = f(p[0])]. *)
Fixpoint foreach_char (f : ascii -> ascii) (m : list ascii) : list ascii :=
  match m with
  | [] => []
  | c :: m' => if Ascii.eqb c NUL then m else f c :: foreach_char f m'
  end.

(** The active storage rewritten by [f]. *)
Definition rewrite_bytes (f : list ascii -> list ascii) (s : String) : String :=
  if isSSO s
  then mkString true (f (sso_buff s)) (sso_len s) (ptr_buff s) (ptr_cap s) (ptr_len s)
  else mkString false (sso_buff s) (sso_len s) (f <$> ptr_buff s) (ptr_cap s) (ptr_len s).

(** [replace(char, char)]. *)
Definition replace (s : String) (find repl : ascii) : bool * String :=
  if negb (has_buffer s) then (true, s)
  else (true, rewrite_bytes (foreach_char (fun c => if Ascii.eqb c find then repl else c)) s).

(** Equal lengths: every match is overwritten in place, left to right. *)
Fixpoint _replace_equal (fuel : nat) (findStr replaceStr : list ascii)
  (replaceLen readFrom : Z) (s : String) : String :=
  match fuel with
  | O => s
  | S fuel' =>
      match strstr (region readFrom s) findStr with
      | Some k =>
          let foundAt := readFrom + Z.of_nat k in
          let s1 := store foundAt (take (Z.to_nat replaceLen) replaceStr) s in
          _replace_equal fuel' findStr replaceStr replaceLen (foundAt + replaceLen) s1
      | None => s
      end
  end.

(** Shrinking: compaction while scanning; returns [(writeTo, readFrom)]
    and the value when no further match is found. *)
Fixpoint _replace_shrink (fuel : nat) (findStr replaceStr : list ascii)
  (findLen replaceLen diff writeTo readFrom : Z) (s : String) : Z * Z * String :=
  match fuel with
  | O => (writeTo, readFrom, s)
  | S fuel' =>
      match strstr (region readFrom s) findStr with
      | Some k =>
          let foundAt := readFrom + Z.of_nat k in
          let n := u32 (foundAt - readFrom) in
          let s1 := store writeTo (load readFrom n s) s in
          let writeTo1 := writeTo + n in
          let s2 := store writeTo1 (take (Z.to_nat replaceLen) replaceStr) s1 in
          let writeTo2 := writeTo1 + replaceLen in
          let s3 := setLen (u32 (len s2 + diff)) s2 in
          _replace_shrink fuel' findStr replaceStr findLen replaceLen diff
                          writeTo2 (foundAt + findLen) s3
      | None => (writeTo, readFrom, s)
      end
  end.

(** Growing, first pass: the size of the result. *)
Fixpoint _replace_count (fuel : nat) (findStr : list ascii)
  (findLen diff readFrom size : Z) (s : String) : Z :=
  match fuel with
  | O => size
  | S fuel' =>
      match strstr (region readFrom s) findStr with
      | Some k =>
          let foundAt := readFrom + Z.of_nat k in
          _replace_count fuel' findStr findLen diff (foundAt + findLen)
                         (u32 (size + diff)) s
      | None => size
      end
  end.

(** Growing, second pass: the matches from right to left. *)
Fixpoint _replace_grow (fuel : nat) (findStr replaceStr : list ascii)
  (findLen replaceLen diff index : Z) (s : String) : String :=
  match fuel with
  | O => s
  | S fuel' =>
      if index <? 0 then s
      else
        let index1 := _lastIndexOf_P s (Some findStr) index findLen in
        if index1 <? 0 then s
        else
          let readFrom := index1 + findLen in
          let s1 := store (readFrom + diff) (load readFrom (u32 (len s - readFrom)) s) s in
          let newLen := len s1 + diff in
          let s2 := store index1 (take (Z.to_nat replaceLen) replaceStr) s1 in
          let s3 := setLen newLen s2 in
          let s4 := store newLen [NUL] s3 in
          _replace_grow fuel' findStr replaceStr findLen replaceLen diff (index1 - 1) s4
  end.

(** [_replace].  Every loop advances its cursor by at least one byte per
    iteration ([findLen > 0]) and stays inside the storage, so one unit of
    fuel per byte of storage, plus one, is never used up. *)
Definition _replace (s : String) (findStr : option (list ascii)) (findLen : Z)
  (replaceStr : list ascii) (replaceLen : Z) : bool * String :=
  match findStr with
  | None => (false, s)
  | Some f =>
      if (len s =? 0) || (findLen =? 0) then (false, s)
      else
        let fuel := S (length (bytes s)) in
        let diff := s32 (u32 (replaceLen - findLen)) in
        if diff =? 0 then
          (true, _replace_equal fuel f replaceStr replaceLen 0 s)
        else if diff <? 0 then
          let '(writeTo, readFrom, s1) :=
            _replace_shrink fuel f replaceStr findLen replaceLen diff 0 0 s in
          let n := Z.of_nat (strlen (region readFrom s1)) + 1 in
          (true, store writeTo (load readFrom n s1) s1)
        else
          let size := _replace_count fuel f findLen diff 0 (len s) s in
          if size =? len s then (false, s)
          else
            let '(ok, s1) := if size >? capacity s then changeBuffer s size
                             else (true, s) in
            if negb ok then (false, s1)
            else
              let index := s32 (u32 (len s1 - 1)) in
              (true, _replace_grow (S (length (bytes s1))) f replaceStr
                                   findLen replaceLen diff index s1)
  end.

Definition remove (s : String) (index count : Z) : String :=
  if index >=? len s then s
  else if count <=? 0 then s
  else
    let count := if count >? len s - index then len s - index else count in
    let newlen := len s - count in
    let s1 := setLen newlen s in
    let s2 := store index (load (index + count) (newlen - index) s1) s1 in
    store newlen [NUL] s2.

(** The collaborator's classification and case mapping, "C" locale. *)
Definition isspace (c : ascii) : bool :=
  let n := uchar c in (n =? 32) || ((9 <=? n) && (n <=? 13)).

Definition tolower (c : ascii) : ascii :=
  let n := uchar c in
  if (65 <=? n) && (n <=? 90) then ascii_of_N (Z.to_N (n + 32)) else c.

Definition toupper (c : ascii) : ascii :=
  let n := uchar c in
  if (97 <=? n) && (n <=? 122) then ascii_of_N (Z.to_N (n - 32)) else c.

Definition toLowerCase (s : String) : String :=
  if negb (has_buffer s) then s else rewrite_bytes (foreach_char tolower) s.

Definition toUpperCase (s : String) : String :=
  if negb (has_buffer s) then s else rewrite_bytes (foreach_char toupper) s.

(** Modelled from the spec: the enumeration [TrimType] is declared in
    WString.h.  Trimming is leading, trailing, or both; [_trim] tests the
    value against the [LEFT] and [RIGHT] bits. *)
Inductive TrimType := LEFT | RIGHT | BOTH.

Definition TrimType_bits (t : TrimType) : Z :=
  match t with LEFT => 1 | RIGHT => 2 | BOTH => 3 end.

Definition has_bit (type bit : TrimType) : bool :=
  negb (Z.land (TrimType_bits type) (TrimType_bits bit) =? 0).

(** [while (isspace( *begin)) begin++]. *)
Fixpoint skip_space (m : list ascii) : nat :=
  match m with
  | [] => O
  | c :: m' => if isspace c then S (skip_space m') else O
  end.

(** [while (isspace( *end) && end >= begin) end--]. *)
Fixpoint back_space (fuel : nat) (begin end_ : Z) (s : String) : Z :=
  match fuel with
  | O => end_
  | S fuel' =>
      if isspace (peek end_ s) && (end_ >=? begin)
      then back_space fuel' begin (end_ - 1) s
      else end_
  end.

(** [_trim(TrimType)]: whitespace. *)
Definition _trim (s : String) (type : TrimType) : String :=
  let len0 := len s in
  if len0 =? 0 then s
  else
    let begin := if has_bit type LEFT then Z.of_nat (skip_space (bytes s)) else 0 in
    let end0 := len0 - 1 in
    let end_ := if has_bit type RIGHT
                then back_space (S (Z.to_nat len0)) begin end0 s else end0 in
    let newlen := u32 (end_ + 1 - begin) in
    let s1 := if begin >? 0 then store 0 (load begin newlen s) s else s in
    store newlen [NUL] (setLen newlen s1).

(** [while (len && memchr_P(characters, buffer()[len - 1], charLen)) len--]. *)
Fixpoint trim_right_scan (fuel : nat) (characters : list ascii) (charLen len0 : Z)
  (s : String) : Z :=
  match fuel with
  | O => len0
  | S fuel' =>
      if negb (len0 =? 0) && memchr characters (peek (len0 - 1) s) charLen
      then trim_right_scan fuel' characters charLen (len0 - 1) s
      else len0
  end.

(** [while (memchr_P(characters, buffer()[remove], charLen)) remove++]:
    the number of leading bytes of [m] found in the set.  The scan has no
    bound of its own; the model follows it to the end of the storage. *)
Fixpoint trim_left_scan (characters : list ascii) (charLen : Z) (m : list ascii)
  : nat :=
  match m with
  | [] => O
  | c :: m' =>
      if memchr characters c charLen
      then S (trim_left_scan characters charLen m') else O
  end.

(** [_trim(TrimType, PGM_P, size_t)]: bytes of a character set. *)
Definition _trim_chars (s : String) (type : TrimType)
  (characters : option (list ascii)) (charLen : Z) : String :=
  let len0 := len s in
  match characters with
  | None => s
  | Some chars =>
      if (len0 =? 0) || (charLen =? 0) then s
      else
        let charLen := u32 (charLen + 1) in
        let '(len1, s1) :=
          if has_bit type RIGHT
          then let l := trim_right_scan (S (Z.to_nat len0)) chars charLen len0 s in
               (l, setLen l s)
          else (len0, s) in
        if has_bit type LEFT
        then remove s1 0 (Z.of_nat (trim_left_scan chars charLen (bytes s1)))
        else store len1 [NUL] s1
  end.

(** ** Well-formed values

    A well-formed value has a buffer, holds [len()] bytes none of which is
    the terminator, has the terminator right after them, and its storage
    has [capacity() + 1] bytes.  A heap block is never smaller than the
    inline array ([changeBuffer] only allocates past the inline
    threshold), and capacities fit the 16 bits [changeBuffer] keeps of a
    length. *)
Definition wf (s : String) : Prop :=
  is_Some (buffer s) /\
  0 <= len s <= capacity s /\
  capacity s < 65536 /\
  1 <= Z.of_nat SSOSIZE <= capacity s + 1 /\
  length (bytes s) = Z.to_nat (capacity s + 1) /\
  strlen (bytes s) = Z.to_nat (len s).

(** The invariant every mutating operation is to re-establish: the length
    is within the capacity and the byte at offset [len()] is the
    terminator. *)
Definition terminated (s : String) : Prop :=
  0 <= len s <= capacity s /\ bytes s !! Z.to_nat (len s) = Some NUL.

(** The empty state a value is invalidated to: inline mode, length zero,
    and an empty C string for every reader. *)
Definition empty_state (s : String) : Prop :=
  isSSO s = true /\ len s = 0 /\ c_str s = [] /\ content s = [].

(** The allocation step of an operation that needs room for [n] bytes
    fails: [reserve] reports failure. *)
Definition alloc_failed (s : String) (n : Z) : Prop :=
  fst (reserve s n) = false.

(** The order the comparison is specified by: byte-wise lexicographic,
    bytes read as [unsigned char], a proper prefix before its extensions. *)
Fixpoint lex_compare (a b : list ascii) : comparison :=
  match a, b with
  | [], [] => Eq
  | [], _ :: _ => Lt
  | _ :: _, [] => Gt
  | x :: a', y :: b' =>
      match uchar x ?= uchar y with
      | Eq => lex_compare a' b'
      | c => c
      end
  end.

(** The positions at which two byte strings agree, and those at which
    they differ. *)
Fixpoint matches (a b : list ascii) : nat :=
  match a, b with
  | x :: a', y :: b' => ((if Ascii.eqb x y then 1 else 0) + matches a' b')%nat
  | _, _ => O
  end.

Fixpoint mismatches (a b : list ascii) : nat :=
  match a, b with
  | x :: a', y :: b' => ((if Ascii.eqb x y then 0 else 1) + mismatches a' b')%nat
  | _, _ => O
  end.

(** ** Further member functions *)

(** [strchr]: offset of the first occurrence of [ch] in the C string at
    [m], whose terminator is part of it; the end of a region reads as the
    terminator. *)
Fixpoint strchr (m : list ascii) (ch : ascii) : option nat :=
  match m with
  | [] => if Ascii.eqb NUL ch then Some O else None
  | c :: m' =>
      if Ascii.eqb c ch then Some O
      else if Ascii.eqb c NUL then None
      else S <$> strchr m' ch
  end.

(** [strncpy(dst, src, n)]: the [n] bytes it writes, the C string at [src]
    cut to [n] bytes and padded with terminators. *)
Definition strncpy (src : list ascii) (n : Z) : list ascii :=
  let c := take (Z.to_nat n) (cstr src) in
  c ++ replicate (Z.to_nat n - length c) NUL.

(** [setCharAt]. *)
Definition setCharAt (s : String) (loc : Z) (c : ascii) : String :=
  if loc <? len s then store loc [c] s else s.

(** [operator[]] as a read; the writable overload hands out the same byte,
    or a dummy byte set to zero when the index is out of range. *)
Definition op_index (s : String) (index : Z) : ascii :=
  if (index >=? len s) || negb (has_buffer s) then NUL else peek index s.

(** [getBytes]: [buf] is the caller's buffer, returned as the call leaves
    it. *)
Definition getBytes (s : String) (buf : option (list ascii)) (bufsize index : Z)
  : option (list ascii) :=
  match buf with
  | None => None
  | Some b =>
      if bufsize =? 0 then Some b
      else if index >=? len s then Some (poke 0 [NUL] b)
      else
        let n := u32 (bufsize - 1) in
        let n1 := if n >? u32 (len s - index) then u32 (len s - index) else n in
        let b1 := poke 0 (strncpy (region index s) n1) b in
        Some (poke (Z.to_nat n1) [NUL] b1)
  end.

(** [indexOf(char, unsigned int)]. *)
Definition indexOf_char (s : String) (ch : ascii) (fromIndex : Z) : Z :=
  if fromIndex >=? len s then -1
  else
    match strchr (region fromIndex s) ch with
    | None => -1
    | Some k => fromIndex + Z.of_nat k
    end.

(** [indexOf(const String &, unsigned int)]; [s2.buffer()] goes to
    [strstr] as it is, without a test for null. *)
Definition indexOf_from (s s2 : String) (fromIndex : Z) : Z :=
  if fromIndex >=? len s then -1
  else
    match strstr (region fromIndex s) (bytes s2) with
    | None => -1
    | Some k => fromIndex + Z.of_nat k
    end.

(** [concat(char)]: the addend is the one byte at [&c]. *)
Definition concat_char (s : String) (c : ascii) : bool * String :=
  concat s (Some [c]) 1.

(** [insert(size_t, const String &)]; [c_str()] and [length()] of
    WString.h hand out [buffer()] and [len()]. *)
Definition insert_String (s : String) (position : Z) (other : String) : String :=
  insert s position (bytes other) (len other).

(** The copy constructor, on the indeterminate object [raw]. *)
Definition String_copy (raw value : String) : String :=
  assign (init raw) (Other value).

(** Modelled from the spec: [operator+=] of WString.h, which appends its
    operand with the [concat] overload of the operand's type and returns
    the value, whatever [concat] reports. *)
Definition append_String (s other : String) : String :=
  snd (concat_String s (Other other)).

(** Modelled from the spec: [operator+=] of WString.h for a [char]. *)
Definition append_char (s : String) (c : ascii) : String :=
  snd (concat_char s c).

(** Modelled from the spec: [operator+=] of WString.h for a C string. *)
Definition append_cstr (s : String) (src : option (list ascii)) : String :=
  snd (concat_cstr s src).

(** [operator +(const String &lhs, String &&rhs)], on the indeterminate
    object [raw] for the result: returns the result and what is left of
    [rhs]. *)
Definition op_plus (raw lhs rhs : String) : String * String :=
  let res := init raw in
  let total := u32 (len lhs + len rhs) in
  if capacity rhs >? total then
    let rhs1 := insert_String rhs 0 lhs in
    move res rhs1
  else
    let res1 := snd (reserve res total) in
    let res2 := append_String res1 lhs in
    let res3 := append_String res2 rhs in
    (res3, invalidate rhs).

(** [operator +(String &&lhs, String &&rhs)]: returns the result and what
    is left of [lhs] and of [rhs]. *)
Definition op_plus_rvalues (raw lhs rhs : String) : String * String * String :=
  let res := init raw in
  let total := u32 (len lhs + len rhs) in
  if (total >? capacity lhs) && (total <? capacity rhs) then
    let rhs1 := insert_String rhs 0 lhs in
    let '(res1, rhs2) := move res rhs1 in
    (res1, lhs, rhs2)
  else
    let lhs1 := append_String lhs rhs in
    let rhs1 := invalidate rhs in
    let '(res1, lhs2) := move res lhs1 in
    (res1, lhs2, rhs1).

(** [operator +(char lhs, const String &rhs)]. *)
Definition op_plus_char (raw : String) (lhs : ascii) (rhs : String) : String :=
  let res := init raw in
  let res1 := snd (reserve res (u32 (len rhs + 1))) in
  let res2 := append_char res1 lhs in
  append_String res2 rhs.

(** [operator +] of a [const char] pointer [lhs], which the code does
    not test for null, and a [const String &rhs]. *)
Definition op_plus_cstr (raw : String) (lhs : list ascii) (rhs : String) : String :=
  let res := init raw in
  let res1 := snd (reserve res (u32 (Z.of_nat (strlen lhs) + len rhs))) in
  let res2 := append_cstr res1 (Some lhs) in
  append_String res2 rhs.

(** *** Numeric constructors

    The renderings come from the C library.  [sprintf] with a decimal
    conversion is written out, because the scratch arrays are sized for
    it; [itoa] and [ltoa], which serve the other bases, are parameters
    of the constructors that call them. *)

(** The decimal digits of [n], the most significant first, before [acc]. *)
Fixpoint udigits (fuel : nat) (n : Z) (acc : list ascii) : list ascii :=
  match fuel with
  | O => acc
  | S fuel' =>
      let d := ascii_of_N (Z.to_N (48 + n mod 10)) in
      if n <? 10 then d :: acc else udigits fuel' (n / 10) (d :: acc)
  end.

(** What [sprintf] writes before the terminator for the conversions [u],
    [lu] and [llu]; twenty digits hold every 64 bit value. *)
Definition sprintf_u (v : Z) : list ascii := udigits 20 v [].

(** The same for the conversions [d], [ld] and [lld]. *)
Definition sprintf_d (v : Z) : list ascii :=
  if v <? 0 then "-"%char :: sprintf_u (- v) else sprintf_u v.

(** A conversion into a scratch array [char buf[size]]: the text and its
    terminator land at the start of the array.  A text that does not fit
    is written past the end of the array, which is undefined: [None]. *)
Definition into_scratch (size : nat) (text : list ascii) : option (list ascii) :=
  if (length text + 1 <=? size)%nat
  then Some (poke 0 (text ++ [NUL]) (replicate size garbage))
  else None.

(** [std::numeric_limits<T>::digits10] and [sizeof(T)] on the target,
    where [int] and [long] have 32 bits and [long long] has 64. *)
Definition int_digits10 : nat := 9.
Definition long_digits10 : nat := 9.
Definition longlong_digits10 : nat := 18.
Definition ulonglong_digits10 : nat := 19.
Definition sizeof_int : nat := 4.
Definition sizeof_long : nat := 4.

(** [String(int value, unsigned char base)], given what [itoa] writes. *)
Definition String_int (itoa : Z -> Z -> list ascii) (raw : String)
  (value base : Z) : option String :=
  let s := init raw in
  if base =? 10 then
    match into_scratch (int_digits10 + 2) (sprintf_d value) with
    | Some buf => Some (assign_cstr s (Some buf))
    | None => None
    end
  else
    match into_scratch (2 + 8 * sizeof_int) (itoa value base) with
    | Some buf => Some (assign_cstr s (Some buf))
    | None => None
    end.

(** [String(long value, unsigned char base)], given what [ltoa] writes. *)
Definition String_long (ltoa : Z -> Z -> list ascii) (raw : String)
  (value base : Z) : option String :=
  let s := init raw in
  if base =? 10 then
    match into_scratch (long_digits10 + 2) (sprintf_d value) with
    | Some buf => Some (assign_cstr s (Some buf))
    | None => None
    end
  else
    match into_scratch (2 + 8 * sizeof_long) (ltoa value base) with
    | Some buf => Some (assign_cstr s (Some buf))
    | None => None
    end.

(** [String(long long value)]. *)
Definition String_longlong (raw : String) (value : Z) : option String :=
  let s := init raw in
  match into_scratch (longlong_digits10 + 2) (sprintf_d value) with
  | Some buf => Some (assign_cstr s (Some buf))
  | None => None
  end.

(** [String(unsigned long long value)]. *)
Definition String_ulonglong (raw : String) (value : Z) : option String :=
  let s := init raw in
  match into_scratch (ulonglong_digits10 + 2) (sprintf_u value) with
  | Some buf => Some (assign_cstr s (Some buf))
  | None => None
  end.

(** ** What the operations are specified by *)

(** The list without its leading bytes that satisfy [P]. *)
Fixpoint lstrip (P : ascii -> bool) (l : list ascii) : list ascii :=
  match l with
  | [] => []
  | x :: l' => if P x then lstrip P l' else l
  end.

(** The list without its trailing bytes that satisfy [P]. *)
Definition rstrip (P : ascii -> bool) (l : list ascii) : list ascii :=
  rev (lstrip P (rev l)).

(** What a trim of the given type leaves. *)
Definition strip (type : TrimType) (P : ascii -> bool) (l : list ascii) : list ascii :=
  let l1 := if has_bit type RIGHT then rstrip P l else l in
  if has_bit type LEFT then lstrip P l1 else l1.

(** Replacement, left to right, of the occurrences of [f] in [l] that do
    not overlap an earlier one, by [r]; one unit of fuel per occurrence. *)
Fixpoint replace_all (fuel : nat) (f r l : list ascii) : list ascii :=
  match fuel with
  | O => l
  | S fuel' =>
      match strstr_from f l with
      | Some k => take k l ++ r ++ replace_all fuel' f r (drop (k + length f) l)
      | None => l
      end
  end.

(** The bytes of [needle] are found in [hay] from offset [j] on. *)
Definition occurs_at (needle hay : list ascii) (j : nat) : Prop :=
  take (length needle) (drop j hay) = needle.

(** ** Properties of the memory primitives *)

Lemma length_overwrite data buf : length (overwrite data buf) = length buf.
Proof.
  revert buf. induction data as [|x data IH]; intros [|b buf]; simpl; auto.
Qed.

Lemma length_poke off data buf : length (poke off data buf) = length buf.
Proof.
  revert buf. induction off as [|off IH]; intros buf; simpl.
  - apply length_overwrite.
  - destruct buf; simpl; auto.
Qed.

Lemma overwrite_app data buf :
  (length data <= length buf)%nat ->
  overwrite data buf = data ++ drop (length data) buf.
Proof.
  revert buf. induction data as [|x data IH]; intros buf Hle; simpl.
  - destruct buf; reflexivity.
  - destruct buf as [|b buf]; simpl in *; [lia|].
    f_equal. apply IH. lia.
Qed.

Lemma poke_spec off data buf :
  (off + length data <= length buf)%nat ->
  poke off data buf = take off buf ++ data ++ drop (off + length data) buf.
Proof.
  revert buf. induction off as [|off IH]; intros buf Hle; simpl.
  - apply overwrite_app. lia.
  - destruct buf as [|b buf]; simpl in *; [lia|].
    f_equal. apply IH. lia.
Qed.

Lemma poke_lookup_id i x buf : buf !! i = Some x -> poke i [x] buf = buf.
Proof.
  revert buf. induction i as [|i IH]; intros [|b buf] H; simpl in *;
    try discriminate.
  - destruct buf; congruence.
  - f_equal. auto.
Qed.

Lemma poke_poke i x y buf : poke i [x] (poke i [y] buf) = poke i [x] buf.
Proof.
  revert buf. induction i as [|i IH]; intros [|b buf]; simpl; auto.
  rewrite IH. reflexivity.
Qed.

Lemma strlen_le m : (strlen m <= length m)%nat.
Proof.
  induction m as [|c m IH]; simpl; [lia|].
  destruct (Ascii.eqb c NUL); lia.
Qed.

Lemma strlen_lookup m : (strlen m < length m)%nat -> m !! strlen m = Some NUL.
Proof.
  induction m as [|c m IH]; simpl; [lia|].
  destruct (Ascii.eqb_spec c NUL) as [->|Hc]; intros H; simpl; auto.
  apply IH. lia.
Qed.

Lemma cstr_no_NUL m : Forall (fun c => c <> NUL) (cstr m).
Proof.
  unfold cstr. induction m as [|c m IH]; simpl; [constructor|].
  destruct (Ascii.eqb_spec c NUL) as [->|Hc]; simpl; constructor; auto.
Qed.

Lemma strlen_app_NUL c r :
  Forall (fun x => x <> NUL) c -> strlen (c ++ NUL :: r) = length c.
Proof.
  induction 1 as [|x c Hx _ IH]; simpl; [reflexivity|].
  destruct (Ascii.eqb_spec x NUL); [contradiction|]. f_equal. exact IH.
Qed.

Lemma strlen_split m :
  (strlen m < length m)%nat -> m = cstr m ++ NUL :: drop (S (strlen m)) m.
Proof.
  intros H. unfold cstr.
  rewrite <- (take_drop (strlen m) m) at 1. f_equal.
  apply drop_S, strlen_lookup, H.
Qed.

(** ** Accessors and the active storage *)

Lemma u16_small x : 0 <= x < 65536 -> u16 x = x.
Proof. intros H. unfold u16. apply Z.mod_small. exact H. Qed.

Lemma u32_small x : 0 <= x < 4294967296 -> u32 x = x.
Proof. intros H. unfold u32. apply Z.mod_small. exact H. Qed.

(** [(x + 16) & ~0xf] rounds down to a multiple of 16. *)
Lemma land_lnot_15 x : Z.land x (Z.lnot 15) = 16 * (x / 16).
Proof.
  rewrite <- Z.ldiff_land. change 15 with (Z.ones 4).
  rewrite Z.ldiff_ones_r by lia.
  rewrite Z.shiftl_mul_pow2, Z.shiftr_div_pow2 by lia.
  change (2 ^ 4) with 16. lia.
Qed.

Lemma bytes_store off data s :
  bytes (store off data s) = poke (Z.to_nat off) data (bytes s).
Proof.
  unfold bytes, store, wbuffer, isSSO.
  destruct s as [[] sb sl [pb|] pc pl]; simpl; try reflexivity.
  destruct (Z.to_nat off), data; reflexivity.
Qed.

Lemma len_store off data s : len (store off data s) = len s.
Proof. unfold len, store, isSSO. destruct s as [[] ? ? ? ? ?]; reflexivity. Qed.

Lemma capacity_store off data s : capacity (store off data s) = capacity s.
Proof. unfold capacity, store, isSSO. destruct s as [[] ? ? ? ? ?]; reflexivity. Qed.

Lemma bytes_setLen l s : bytes (setLen l s) = bytes s.
Proof. unfold bytes, wbuffer, setLen, isSSO. destruct s as [[] ? ? ? ? ?]; reflexivity. Qed.

Lemma len_setLen l s : len (setLen l s) = l.
Proof. unfold len, setLen, isSSO. destruct s as [[] ? ? ? ? ?]; reflexivity. Qed.

Lemma capacity_setLen l s : capacity (setLen l s) = capacity s.
Proof. unfold capacity, setLen, isSSO. destruct s as [[] ? ? ? ? ?]; reflexivity. Qed.

Lemma store_id i x s :
  bytes s !! Z.to_nat i = Some x -> store i [x] s = s.
Proof.
  unfold bytes, wbuffer, store, isSSO.
  destruct s as [[] sb sl [pb|] pc pl]; simpl; intros H;
    try (rewrite poke_lookup_id by assumption); reflexivity.
Qed.

Lemma store_store i x y s : store i [x] (store i [y] s) = store i [x] s.
Proof.
  unfold store, isSSO.
  destruct s as [[] sb sl [pb|] pc pl]; simpl; try rewrite poke_poke; reflexivity.
Qed.

Lemma wf_length s : wf s -> Z.of_nat (length (bytes s)) = capacity s + 1.
Proof. intros (_ & ? & _ & _ & H & _). rewrite H. lia. Qed.

Lemma wf_content_length s : wf s -> length (content s) = Z.to_nat (len s).
Proof.
  intros Hwf. pose proof (wf_length s Hwf) as Hlen.
  destruct Hwf as (_ & ? & _). unfold content. rewrite length_take. lia.
Qed.

Lemma wf_content_cstr s : wf s -> c_str s = content s.
Proof.
  intros (_ & _ & _ & _ & _ & H). unfold c_str, content, cstr. rewrite H. reflexivity.
Qed.

Lemma wf_terminator s : wf s -> bytes s !! Z.to_nat (len s) = Some NUL.
Proof.
  intros Hwf. pose proof (wf_length s Hwf) as Hlen.
  destruct Hwf as (_ & ? & _ & _ & _ & H). rewrite <- H.
  apply strlen_lookup. lia.
Qed.

Lemma wf_split s :
  wf s -> bytes s = content s ++ NUL :: drop (S (Z.to_nat (len s))) (bytes s).
Proof.
  intros Hwf. pose proof (wf_length s Hwf) as Hlen.
  destruct Hwf as (_ & ? & _ & _ & _ & H).
  unfold content. rewrite <- H. apply strlen_split. lia.
Qed.

Lemma wf_content_no_NUL s : wf s -> Forall (fun c => c <> NUL) (content s).
Proof. intros Hwf. rewrite <- wf_content_cstr by assumption. apply cstr_no_NUL. Qed.

(** ** Growth

    The allocator collaborator's contract: a block that is returned has
    the requested size, and resizing keeps the existing bytes up to the
    lesser of the old and the new size. *)
Hypothesis realloc_length :
  forall old n b, realloc old n = Some b -> length b = n.
Hypothesis realloc_keeps :
  forall old n b, realloc (Some old) n = Some b ->
    take (Nat.min (length old) n) b = take (Nat.min (length old) n) old.

Lemma poke_grow old nb k :
  take (length old) nb = old -> length nb = (length old + k)%nat ->
  poke (length old) (replicate k NUL) nb = old ++ replicate k NUL.
Proof.
  intros Htake Hlen.
  rewrite poke_spec by (rewrite length_replicate; lia).
  rewrite Htake, length_replicate, drop_ge by lia.
  rewrite app_nil_r. reflexivity.
Qed.

Lemma heap_state b l c s :
  let t := setBuffer b (setLen l (setCapacity c (setSSO false s))) in
  bytes t = b /\ len t = l /\ capacity t = c /\ buffer t = Some b.
Proof. destruct s as [[] ? ? ? ? ?]; repeat split; reflexivity. Qed.

Lemma changeBuffer_grow s n s' :
  wf s -> capacity s < n -> n + 16 < 4294967296 ->
  changeBuffer s n = (true, s') ->
  exists k, bytes s' = bytes s ++ replicate k NUL /\
            len s' = len s /\ n <= capacity s' /\
            length (bytes s') = Z.to_nat (capacity s' + 1) /\
            is_Some (buffer s').
Proof.
  intros Hwf Hcap Hn. pose proof (wf_length s Hwf) as Hlen.
  destruct Hwf as (Hbuf & Hl & Hc16 & Hsso & Hlen' & Hstr).
  unfold changeBuffer.
  rewrite (u32_small (Z.of_nat SSOSIZE - 1)) by lia.
  destruct (Z.ltb_spec n (Z.of_nat SSOSIZE - 1)); [lia|].
  rewrite (u32_small (n + 16)) by lia. rewrite land_lnot_15.
  set (newSize := 16 * ((n + 16) / 16)).
  assert (HnS : n + 1 <= newSize <= n + 16)
    by (subst newSize; Z.div_mod_to_equations; lia).
  destruct (newSize >? CAPACITY_MAX); [discriminate|].
  rewrite (u16_small (len s)) by lia.
  rewrite (u32_small (capacity s + 1)) by lia.
  rewrite (u32_small (newSize - 1)) by lia.
  destruct (Z.gtb_spec newSize (capacity s + 1)); [|lia].
  destruct (realloc _ _) as [nb|] eqn:Hre; [|discriminate].
  pose proof (realloc_length _ _ _ Hre) as Hnb.
  intros [= <-].
  set (k := Z.to_nat (newSize - (capacity s + 1))).
  assert (Hcapnat : Z.to_nat (capacity s + 1) = length (bytes s)) by lia.
  rewrite Hcapnat.
  remember (if isSSO s then overwrite (take SSOSIZE (sso_buff s)) nb else nb)
    as X eqn:HeqX.
  assert (HX : take (length (bytes s)) X = bytes s /\
               length X = (length (bytes s) + k)%nat).
  { subst X. unfold bytes, wbuffer, capacity, isSSO in *.
    destruct s as [[] sb sl pb pc pl]; simpl in *.
    - assert (Hsb : length sb = SSOSIZE) by lia.
      rewrite <- Hsb, (take_ge sb) by lia.
      rewrite overwrite_app by lia. split.
      + apply take_app_length.
      + rewrite length_app, length_drop. lia.
    - destruct pb as [old|]; [|destruct Hbuf; discriminate]. simpl in *.
      pose proof (realloc_keeps _ _ _ Hre) as Hk.
      rewrite Nat.min_l in Hk by lia.
      rewrite Hk, (take_ge old) by lia. split; [reflexivity|lia]. }
  destruct HX as [HX1 HX2].
  rewrite (poke_grow _ _ _ HX1 HX2).
  destruct (heap_state (bytes s ++ replicate k NUL) (len s) (newSize - 1) s)
    as (-> & -> & -> & ->).
  exists k. repeat split; eauto; try lia.
  rewrite length_app, length_replicate. lia.
Qed.

Lemma changeBuffer_fail s n s' : changeBuffer s n = (false, s') -> s' = s.
Proof.
  unfold changeBuffer.
  repeat match goal with
         | |- context [if ?b then _ else _] => destruct b
         | |- context [match ?o with Some _ => _ | None => _ end] => destruct o
         end; intros [= <-]; reflexivity.
Qed.

Lemma reserve_fail s n s' : reserve s n = (false, s') -> s' = s.
Proof.
  unfold reserve.
  destruct (bool_decide _ && _); [discriminate|].
  destruct (changeBuffer s n) as [[] s1] eqn:Hcb; [discriminate|].
  intros [= <-]. eapply changeBuffer_fail, Hcb.
Qed.

Lemma alloc_failed_reserve s n : alloc_failed s n -> reserve s n = (false, s).
Proof.
  unfold alloc_failed. destruct (reserve s n) as [ok s1] eqn:Hr. simpl.
  intros ->. f_equal. eapply reserve_fail, Hr.
Qed.

Lemma reserve_ok s n s' :
  wf s -> 0 <= n -> n + 16 < 4294967296 ->
  reserve s n = (true, s') ->
  exists k, bytes s' = bytes s ++ replicate k NUL /\
            len s' = len s /\ n <= capacity s' /\
            length (bytes s') = Z.to_nat (capacity s' + 1) /\
            is_Some (buffer s').
Proof.
  intros Hwf Hn0 Hn. unfold reserve.
  pose proof Hwf as (Hbuf & Hl & Hc16 & Hsso & Hlen & Hstr).
  rewrite bool_decide_eq_true_2 by assumption. simpl.
  destruct (Z.geb_spec (capacity s) n) as [Hge|Hlt].
  - intros [= <-]. exists O. rewrite app_nil_r. repeat split; auto; lia.
  - destruct (changeBuffer s n) as [[] s1] eqn:Hcb; [|discriminate].
    destruct (changeBuffer_grow _ _ _ Hwf Hlt Hn Hcb) as (k & Hb & Hlen1 & Hrest).
    intros [= <-].
    assert (Hs1 : (if len s1 =? 0 then store 0 [NUL] s1 else s1) = s1).
    { destruct (Z.eqb_spec (len s1) 0) as [Hz|]; [|reflexivity].
      apply store_id. rewrite Hb.
      pose proof (wf_terminator s Hwf) as Ht.
      rewrite <- Hlen1, Hz in Ht.
      rewrite lookup_app_l; [exact Ht|].
      apply lookup_lt_is_Some. eauto. }
    rewrite Hs1. exists k. auto.
Qed.

Lemma empty_state_init s : empty_state (init s).
Proof.
  unfold empty_state, init, isSSO, len, c_str, content, bytes, wbuffer, cstr.
  simpl. repeat split; try reflexivity.
  destruct (sso_buff s); reflexivity.
Qed.

(** ** Allocation failure *)

(** C2: when the allocation step fails during a copy or an assignment
    (from an ordinary or a flash source, from a String, a C string or a
    flash string) the destination is invalidated to the empty state; when
    it fails during an append the destination is unchanged, content,
    length and capacity, and the operation returns false. *)
Theorem C2_allocation_failure (s o : String) (src : list ascii) (n : Z) :
  (alloc_failed s n ->
     empty_state (copy s src n) /\ empty_state (copy_P s src n)) /\
  (alloc_failed s (len o) -> empty_state (assign s (Other o))) /\
  (alloc_failed s (Z.of_nat (strlen src)) ->
     empty_state (assign_cstr s (Some src)) /\
     empty_state (assign_P s (Some src))) /\
  (n <> 0 -> alloc_failed s (u32 (len s + n)) ->
     concat s (Some src) n = (false, s)) /\
  (len o <> 0 -> alloc_failed s (u32 (len s + len o)) ->
     concat_String s (Other o) = (false, s)) /\
  (len s <> 0 -> alloc_failed s (u32 (2 * len s)) ->
     concat_String s This = (false, s)) /\
  (strlen src <> O -> alloc_failed s (u32 (len s + Z.of_nat (strlen src))) ->
     concat_cstr s (Some src) = (false, s) /\
     concat_P s (Some src) = (false, s)).
Proof.
  assert (Hcopy : forall m c, alloc_failed s m ->
            empty_state (copy s c m) /\ empty_state (copy_P s c m)).
  { intros m c H. unfold copy, copy_P.
    rewrite (alloc_failed_reserve _ _ H). simpl.
    split; apply empty_state_init. }
  assert (Hcat : forall m c, m <> 0 -> alloc_failed s (u32 (len s + m)) ->
            concat s (Some c) m = (false, s)).
  { intros m c Hm H. unfold concat.
    destruct (Z.eqb_spec m 0); [contradiction|].
    rewrite (alloc_failed_reserve _ _ H). reflexivity. }
  split. { apply Hcopy. }
  split. { intros H. unfold assign. destruct (buffer o).
           - apply Hcopy, H.
           - apply empty_state_init. }
  split. { apply Hcopy. }
  split. { apply Hcat. }
  split. { intros Ho H. unfold concat_String.
           destruct (buffer o) as [b|] eqn:Hb; [|reflexivity].
           apply Hcat; assumption. }
  split. { intros Hs H. unfold concat_String.
           destruct (negb _); [reflexivity|].
           destruct (Z.eqb_spec (len s) 0); [contradiction|].
           rewrite (alloc_failed_reserve _ _ H). reflexivity. }
  intros Hsrc H. split.
  - unfold concat_cstr. apply Hcat; [lia|assumption].
  - unfold concat_P.
    destruct (Z.eqb_spec (Z.of_nat (strlen src)) 0); [lia|].
    rewrite (alloc_failed_reserve _ _ H). reflexivity.
Qed.

(** ** Concatenation *)

(** C4: appending a zero-length addend returns true and leaves the value
    as it was (content, length, capacity; nothing is reserved), whatever
    the value, an invalidated or moved-from one included: [concat(cstr, 0)],
    [concat] of an empty String, of an empty C or flash string, and of an
    empty value to itself. *)
Theorem C4_concat_zero_length (s o t : String) (src : list ascii) :
  concat s (Some src) 0 = (true, s) /\
  (is_Some (buffer o) -> len o = 0 -> concat_String s (Other o) = (true, s)) /\
  (is_Some (buffer s) -> len s = 0 -> concat_String s This = (true, s)) /\
  (strlen src = O ->
     concat_cstr s (Some src) = (true, s) /\ concat_P s (Some src) = (true, s)) /\
  concat_String (invalidate s) This = (true, invalidate s) /\
  concat_String (snd (move t s)) This = (true, snd (move t s)) /\
  concat_String s (Other (invalidate o)) = (true, s).
Proof.
  assert (Hself : forall v, is_Some (buffer v) -> len v = 0 ->
            concat_String v This = (true, v)).
  { intros v Hb Hl. unfold concat_String.
    rewrite bool_decide_eq_true_2 by assumption. simpl.
    rewrite Hl. reflexivity. }
  assert (Hinit : forall v, is_Some (buffer (init v)) /\ len (init v) = 0).
  { intros v. split; [eexists|]; reflexivity. }
  split. { reflexivity. }
  split. { intros [b Hb] Hl. unfold concat_String. rewrite Hb, Hl. reflexivity. }
  split. { apply Hself. }
  split. { intros H. unfold concat_cstr, concat_P, concat. rewrite H.
           split; reflexivity. }
  split. { apply Hself; apply Hinit. }
  split. { apply Hself; apply Hinit. }
  unfold concat_String, invalidate.
  destruct (Hinit o) as [[b Hb] Hl]. rewrite Hb, Hl. reflexivity.
Qed.

(** Appending [data] at offset [off] and terminating the result. *)
Lemma poke_concat off data buf :
  (off + length data + 1 <= length buf)%nat ->
  poke (off + length data) [NUL] (poke off data buf)
  = (take off buf ++ data) ++ NUL :: drop (off + length data + 1) buf.
Proof.
  intros H.
  rewrite (poke_spec off data) by lia.
  rewrite app_assoc.
  assert (HP : length (take off buf ++ data) = (off + length data)%nat)
    by (rewrite length_app, length_take; lia).
  rewrite <- HP at 1.
  rewrite poke_spec by (rewrite !length_app, length_drop; simpl; lia).
  rewrite take_app_length, drop_app_add, drop_drop. simpl.
  reflexivity.
Qed.


Lemma cstr_app_NUL c r : Forall (fun x => x <> NUL) c -> cstr (c ++ NUL :: r) = c.
Proof.
  intros H. unfold cstr. rewrite strlen_app_NUL by assumption.
  apply take_app_length.
Qed.

(** C5: appending a well-formed value to itself, when the room for the
    doubled length is there or can be made (whether or not the growth step
    moves the storage), returns true and leaves the value holding its
    former content twice, terminated, with the length doubled. *)
Theorem C5_self_concat (s : String) :
  wf s ->
  fst (reserve s (2 * len s)) = true ->
  exists s', concat_String s This = (true, s') /\
             content s' = content s ++ content s /\
             c_str s' = content s ++ content s /\
             len s' = 2 * len s.
Proof.
  intros Hwf Hres. pose proof Hwf as (Hbuf & Hl & Hc16 & Hsso & Hlen & Hstr).
  unfold concat_String. rewrite bool_decide_eq_true_2 by assumption. simpl.
  destruct (Z.eqb_spec (len s) 0) as [Hz|Hnz].
  - exists s. rewrite wf_content_cstr by assumption.
    unfold content. rewrite Hz. simpl. repeat split; reflexivity.
  - rewrite (u32_small (2 * len s)) by lia.
    destruct (reserve s (2 * len s)) as [ok s1] eqn:Hr. simpl in Hres. subst ok.
    assert (Hn0 : 0 <= 2 * len s) by lia.
    assert (Hn1 : 2 * len s + 16 < 4294967296) by lia.
    destruct (reserve_ok _ _ _ Hwf Hn0 Hn1 Hr)
      as (k & Hb & Hlen1 & Hcap1 & Hlength1 & _).
    simpl. eexists. split; [reflexivity|].
    pose proof (wf_content_length s Hwf) as HC.
    pose proof (wf_content_no_NUL s Hwf) as HN.
    assert (Hload : load 0 (len s1) s1 = content s).
    { unfold load, content. rewrite Hlen1, Hb. simpl.
      apply take_app_le. lia. }
    assert (Hbytes : bytes (store (2 * len s) [NUL]
                (setLen (2 * len s) (store (len s1) (load 0 (len s1) s1) s1)))
              = (content s ++ content s) ++
                NUL :: drop (Z.to_nat (len s) + length (content s) + 1) (bytes s1)).
    { rewrite bytes_store, bytes_setLen, bytes_store, Hload.
      replace (Z.to_nat (2 * len s))
        with (Z.to_nat (len s1) + length (content s))%nat by lia.
      rewrite poke_concat by lia.
      rewrite Hlen1. do 2 f_equal.
      unfold content. rewrite Hb. apply take_app_le. lia. }
    rewrite len_store, len_setLen.
    unfold c_str, content at 1. rewrite len_store, len_setLen, Hbytes.
    rewrite cstr_app_NUL by (apply Forall_app; auto).
    repeat split; try reflexivity.
    apply take_app_length'. rewrite length_app. lia.
Qed.

(** ** Copy and substring *)

Lemma wf_init raw :
  length (sso_buff raw) = SSOSIZE -> 1 <= Z.of_nat SSOSIZE <= 65536 ->
  wf (init raw).
Proof.
  intros Hlen Hsso.
  unfold wf, init, buffer, wbuffer, len, capacity, bytes, isSSO. simpl.
  repeat split; eauto; try lia;
    destruct (sso_buff raw); simpl in *; try lia; reflexivity.
Qed.

(** A successful [copy] of the C string at [c]. *)
Lemma copy_ok o c :
  wf o -> (strlen c < length c)%nat -> Z.of_nat (strlen c) + 16 < 4294967296 ->
  fst (reserve o (Z.of_nat (strlen c))) = true ->
  content (copy o c (Z.of_nat (strlen c))) = cstr c /\
  c_str (copy o c (Z.of_nat (strlen c))) = cstr c /\
  len (copy o c (Z.of_nat (strlen c))) = Z.of_nat (strlen c).
Proof.
  intros Hwf Hc Hn Hres. unfold copy.
  destruct (reserve o _) as [ok o1] eqn:Hr. simpl in Hres. subst ok. simpl.
  assert (Hn0 : 0 <= Z.of_nat (strlen c)) by lia.
  destruct (reserve_ok _ _ _ Hwf Hn0 Hn Hr) as (k & Hb & Hlen1 & Hcap1 & Hlength1 & _).
  rewrite (u32_small (Z.of_nat (strlen c) + 1)) by lia.
  assert (Htake : take (Z.to_nat (Z.of_nat (strlen c) + 1)) c = cstr c ++ [NUL]).
  { replace (Z.to_nat (Z.of_nat (strlen c) + 1)) with (S (strlen c)) by lia.
    apply take_S_r, strlen_lookup, Hc. }
  assert (Hbytes : bytes (store 0 (take (Z.to_nat (Z.of_nat (strlen c) + 1)) c)
                                (setLen (Z.of_nat (strlen c)) o1))
                   = cstr c ++ NUL :: drop (S (strlen c)) (bytes o1)).
  { rewrite bytes_store, bytes_setLen, Htake. simpl.
    assert (Hl : length (cstr c) = strlen c)
      by (unfold cstr; rewrite length_take; lia).
    rewrite overwrite_app by (rewrite length_app; simpl; lia).
    rewrite <- app_assoc, length_app. simpl.
    do 3 f_equal. lia. }
  unfold content, c_str. rewrite len_store, len_setLen, Hbytes.
  split; [|split; [|reflexivity]].
  - apply take_app_length'. unfold cstr. rewrite length_take. lia.
  - apply cstr_app_NUL, cstr_no_NUL.
Qed.


(** The two paths of [substring], bounds normalised. *)
Lemma substring_unfold s raw left right :
  wf s -> 0 <= left -> 0 <= right ->
  let lo := Z.min left right in
  let hi := Z.min (Z.max left right) (len s) in
  substring s raw left right =
    if lo >=? len s then (init raw, s)
    else (assign_cstr (init raw) (Some (region lo (store hi [NUL] s))), s).
Proof.
  intros Hwf Hl0 Hr0 lo hi. unfold substring.
  replace (if left >? right then right else left) with lo
    by (subst lo; destruct (Z.gtb_spec left right); lia).
  replace (if left >? right then left else right) with (Z.max left right)
    by (destruct (Z.gtb_spec left right); lia).
  destruct (Z.geb_spec lo (len s)) as [Hge|Hlt]; [reflexivity|].
  replace (if Z.max left right >? len s then len s else Z.max left right)
    with hi by (subst hi; destruct (Z.gtb_spec (Z.max left right) (len s)); lia).
  f_equal. rewrite store_store. apply store_id. unfold peek.
  pose proof (wf_length s Hwf) as Hlen. destruct Hwf as (_ & Hl & _).
  destruct (Z.ltb_spec hi 0); [lia|].
  destruct (bytes s !! Z.to_nat hi) as [x|] eqn:Hx; [reflexivity|].
  apply lookup_ge_None in Hx. lia.
Qed.

(** The region [substring] copies from: the bytes of [[lo, hi)] followed
    by the temporary terminator. *)
Lemma substring_region s lo hi :
  wf s -> 0 <= lo <= hi -> hi <= len s ->
  exists R, region lo (store hi [NUL] s)
            = take (Z.to_nat (hi - lo)) (drop (Z.to_nat lo) (content s)) ++ NUL :: R.
Proof.
  intros Hwf Hlo Hhi. pose proof (wf_length s Hwf) as Hlen.
  destruct Hwf as (_ & Hl & _).
  unfold region. rewrite bytes_store.
  rewrite poke_spec by (simpl; lia). simpl.
  rewrite drop_app_le by (rewrite length_take; lia).
  eexists. f_equal. unfold content.
  rewrite take_drop_commute, take_take.
  do 2 f_equal. lia.
Qed.


(** ** Comparison *)

Lemma uchar_NUL : uchar NUL = 0.
Proof. reflexivity. Qed.

Lemma uchar_inj x y : uchar x = uchar y -> x = y.
Proof.
  unfold uchar. intros H. apply N2Z.inj in H.
  rewrite <- (ascii_N_embedding x), <- (ascii_N_embedding y). congruence.
Qed.

Lemma uchar_pos x : x <> NUL -> 0 < uchar x.
Proof.
  intros Hx. assert (0 <= uchar x) by (unfold uchar; lia).
  assert (uchar x <> 0) by (intros H0; apply Hx, uchar_inj; rewrite H0; reflexivity).
  lia.
Qed.

Lemma strcmp_lex a b :
  (strlen a < length a)%nat -> (strlen b < length b)%nat ->
  (strcmp a b ?= 0) = lex_compare (cstr a) (cstr b).
Proof.
  unfold cstr. revert b. induction a as [|x a IH]; intros [|y b]; simpl;
    try lia.
  destruct (Ascii.eqb_spec x y) as [->|Hxy].
  - destruct (Ascii.eqb_spec y NUL) as [->|Hy]; intros Ha Hb; simpl.
    + reflexivity.
    + rewrite Z.compare_refl. apply IH; lia.
  - assert (Hne : uchar x <> uchar y) by (intros H; apply Hxy, uchar_inj, H).
    rewrite <- Z.compare_sub. intros Ha Hb.
    destruct (Ascii.eqb_spec x NUL) as [->|Hx];
      destruct (Ascii.eqb_spec y NUL) as [->|Hy]; simpl.
    + contradiction.
    + pose proof (uchar_pos y Hy). destruct (uchar y); try lia; reflexivity.
    + pose proof (uchar_pos x Hx). destruct (uchar x); try lia; reflexivity.
    + destruct (uchar x ?= uchar y) eqn:Hc; try reflexivity.
      apply Z.compare_eq in Hc. contradiction.
Qed.

Lemma wf_strlen_lt s : wf s -> (strlen (bytes s) < length (bytes s))%nat.
Proof.
  intros Hwf. pose proof (wf_length s Hwf).
  destruct Hwf as (_ & ? & _ & _ & _ & Hs). lia.
Qed.

Lemma wf_has_buffer s : wf s -> has_buffer s = true.
Proof. intros (H & _). apply bool_decide_eq_true_2, H. Qed.

Lemma null_has_buffer s : buffer s = None -> has_buffer s = false.
Proof.
  intros H. apply bool_decide_eq_false_2. rewrite H. intros [x Hx]. discriminate.
Qed.

Lemma null_content s : buffer s = None -> content s = [].
Proof.
  unfold content, bytes, buffer. intros ->. simpl. apply take_nil.
Qed.

(** The first byte of a non-empty well-formed value. *)
Lemma wf_first s :
  wf s -> 0 < len s ->
  exists x r, content s = x :: r /\ peek 0 s = x /\ 0 < uchar x.
Proof.
  intros Hwf Hpos.
  pose proof (wf_content_no_NUL s Hwf) as HN.
  pose proof (wf_content_length s Hwf) as HL.
  unfold content in *. unfold peek. simpl.
  destruct (bytes s) as [|x r] eqn:Hb.
  - rewrite take_nil in HL. simpl in HL. lia.
  - destruct (Z.to_nat (len s)) as [|n] eqn:Hn; [lia|]. simpl in *.
    inversion HN; subst. exists x, (take n r). repeat split.
    apply uchar_pos. assumption.
Qed.

Lemma wf_empty s : wf s -> len s <= 0 -> content s = [].
Proof.
  intros (_ & Hl & _) Hz. unfold content.
  replace (len s) with 0 by lia. reflexivity.
Qed.

Lemma compareTo_lex a b :
  wf a \/ buffer a = None -> wf b \/ buffer b = None ->
  (compareTo a b ?= 0) = lex_compare (content a) (content b).
Proof.
  intros Ha Hb. unfold compareTo.
  destruct Ha as [Ha|Ha], Hb as [Hb|Hb];
    rewrite ?(wf_has_buffer _ Ha), ?(wf_has_buffer _ Hb),
            ?(null_has_buffer _ Ha), ?(null_has_buffer _ Hb),
            ?(null_content _ Ha), ?(null_content _ Hb); simpl.
  - rewrite <- !wf_content_cstr by assumption.
    apply strcmp_lex; apply wf_strlen_lt; assumption.
  - destruct (Z.gtb_spec (len a) 0) as [Hpos|Hz].
    + destruct (wf_first a Ha) as (x & r & -> & -> & Hx); [lia|]. simpl.
      apply Z.compare_gt_iff. lia.
    + rewrite (wf_empty a Ha Hz). reflexivity.
  - destruct (Z.gtb_spec (len b) 0) as [Hpos|Hz].
    + destruct (wf_first b Hb) as (x & r & -> & -> & Hx); [lia|]. simpl.
      apply Z.compare_lt_iff. lia.
    + rewrite (wf_empty b Hb Hz). reflexivity.
  - reflexivity.
Qed.


(** ** Constant-time equality *)

Lemma matches_mismatches a b :
  length a = length b -> (matches a b + mismatches a b = length a)%nat.
Proof.
  revert b. induction a as [|x a IH]; intros [|y b] H; simpl in *; try lia.
  specialize (IH b ltac:(lia)). destruct (Ascii.eqb x y); lia.
Qed.

Lemma mismatches_zero a b :
  length a = length b -> (mismatches a b = O <-> a = b).
Proof.
  revert b. induction a as [|x a IH]; intros [|y b] H; simpl in *;
    try discriminate; [tauto|].
  specialize (IH b ltac:(lia)).
  destruct (Ascii.eqb_spec x y) as [->|Hxy]; simpl.
  - rewrite IH. split; congruence.
  - split; [lia|congruence].
Qed.

(** The loop makes one iteration for each byte of the first string and
    counts it in exactly one of the two counters. *)
Lemma equalsConstantTime_loop_spec c1 c2 r1 r2 e d :
  Forall (fun x => x <> NUL) c1 -> length c1 = length c2 ->
  0 <= e -> 0 <= d ->
  e + Z.of_nat (length c1) < 4294967296 ->
  d + Z.of_nat (length c1) < 4294967296 ->
  equalsConstantTime_loop (c1 ++ NUL :: r1) (c2 ++ r2) e d
  = (e + Z.of_nat (matches c1 c2), d + Z.of_nat (mismatches c1 c2)).
Proof.
  intros HN. revert c2 e d.
  induction HN as [|x c1 Hx _ IH]; intros [|y c2] e d Hlen He Hd Hbe Hbd;
    simpl in *; try discriminate.
  - f_equal; lia.
  - destruct (Ascii.eqb_spec x NUL); [contradiction|].
    destruct (Ascii.eqb_spec x y) as [->|Hxy].
    + rewrite IH by (rewrite ?u32_small; lia). rewrite u32_small by lia.
      f_equal; lia.
    + rewrite IH by (rewrite ?u32_small; lia). rewrite u32_small by lia.
      f_equal; lia.
Qed.

(** On values whose content holds no zero byte [equalsConstantTime]
    returns 1 exactly when the lengths are equal and every content byte
    matches, and 0 otherwise.  Past the length check its loop ends with
    the number of matching positions in one counter and the number of
    mismatching ones in the other, which together are the length, and the
    result is the bitwise AND of the two final conditions. *)
Lemma equalsConstantTime_C_strings (a b : String) :
  wf a -> wf b ->
  (equalsConstantTime a b = 1 <-> len a = len b /\ content a = content b) /\
  (equalsConstantTime a b = 0 <-> ~ (len a = len b /\ content a = content b)) /\
  (len a = len b ->
   equalsConstantTime_loop (bytes a) (bytes b) 0 0
   = (Z.of_nat (matches (content a) (content b)),
      Z.of_nat (mismatches (content a) (content b))) /\
   Z.of_nat (matches (content a) (content b))
   + Z.of_nat (mismatches (content a) (content b)) = len a /\
   (len a <> 0 ->
    equalsConstantTime a b
    = Z.land (if Z.of_nat (matches (content a) (content b)) =? len a then 1 else 0)
             (if Z.of_nat (mismatches (content a) (content b)) =? 0 then 1 else 0))).
Proof.
  intros Ha Hb.
  pose proof (wf_content_length a Ha) as HLa.
  pose proof (wf_content_length b Hb) as HLb.
  pose proof (wf_content_no_NUL a Ha) as HNa.
  pose proof Ha as (_ & Hla & Hca & _).
  pose proof Hb as (_ & Hlb & Hcb & _).
  assert (Hloop : len a = len b ->
            equalsConstantTime_loop (bytes a) (bytes b) 0 0
            = (Z.of_nat (matches (content a) (content b)),
               Z.of_nat (mismatches (content a) (content b)))).
  { intros Hlen. rewrite (wf_split a Ha) at 1. rewrite (wf_split b Hb) at 1.
    rewrite equalsConstantTime_loop_spec by (auto; lia). reflexivity. }
  assert (Hsum : len a = len b ->
            Z.of_nat (matches (content a) (content b))
            + Z.of_nat (mismatches (content a) (content b)) = len a).
  { intros Hlen.
    pose proof (matches_mismatches (content a) (content b) ltac:(lia)). lia. }
  assert (Hval : len a = len b -> len a <> 0 ->
            equalsConstantTime a b
            = Z.land (if Z.of_nat (matches (content a) (content b)) =? len a then 1 else 0)
                     (if Z.of_nat (mismatches (content a) (content b)) =? 0 then 1 else 0)).
  { intros Hlen Hnz. unfold equalsConstantTime.
    rewrite (proj2 (Z.eqb_eq _ _) Hlen). simpl.
    destruct (Z.eqb_spec (len a) 0); [contradiction|].
    rewrite (Hloop Hlen). reflexivity. }
  set (P := len a = len b /\ content a = content b).
  assert (Hyes : P -> equalsConstantTime a b = 1).
  { intros [Hlen Heq].
    destruct (Z.eq_dec (len a) 0) as [Hz|Hnz].
    - unfold equalsConstantTime. rewrite <- Hlen, Hz. reflexivity.
    - rewrite (Hval Hlen Hnz).
      pose proof (Hsum Hlen) as Hs.
      apply (mismatches_zero (content a) (content b)) in Heq; [|lia].
      rewrite Heq in *.
      destruct (Z.eqb_spec (Z.of_nat (matches (content a) (content b))) (len a));
        [reflexivity|lia]. }
  assert (Hno : ~ P -> equalsConstantTime a b = 0).
  { intros HnP.
    destruct (Z.eq_dec (len a) (len b)) as [Hlen|Hlen].
    - assert (Hne : content a <> content b) by (intros Heq; apply HnP; split; auto).
      destruct (Z.eq_dec (len a) 0) as [Hz|Hnz].
      { exfalso. apply Hne. rewrite !wf_empty by (auto; lia). reflexivity. }
      rewrite (Hval Hlen Hnz).
      pose proof (mismatches_zero (content a) (content b) ltac:(lia)) as Hm.
      assert (mismatches (content a) (content b) <> O) by tauto.
      destruct (Z.eqb_spec (Z.of_nat (mismatches (content a) (content b))) 0);
        [lia|].
      destruct (Z.of_nat (matches (content a) (content b)) =? len a);
        reflexivity.
    - unfold equalsConstantTime.
      destruct (Z.eqb_spec (len a) (len b)); [contradiction|]. reflexivity. }
  assert (Hdec : P \/ ~ P).
  { unfold P. destruct (Z.eq_dec (len a) (len b));
      destruct (List.list_eq_dec ascii_dec (content a) (content b)); tauto. }
  split; [|split].
  - split; [|exact Hyes]. intros H1. destruct Hdec as [|HnP]; [assumption|].
    rewrite (Hno HnP) in H1. discriminate.
  - split; [|exact Hno]. intros H0 HP. rewrite (Hyes HP) in H0. discriminate.
  - intros Hlen. auto.
Qed.

(** ** The growing replace on "banana" *)

(** First pass: three matches of "a", each adding one byte. *)
Lemma banana_count s R :
  bytes s = chars "banana" ++ NUL :: R ->
  _replace_count (S (length (bytes s))) (lit "a") 1 1 0 6 s = 9.
Proof.
  intros Hb. rewrite Hb.
  destruct s as [[] sb sl [pb|] pc pl];
    unfold bytes, wbuffer, isSSO in Hb; simpl in Hb; try discriminate;
    subst; vm_compute; reflexivity.
Qed.

(** Second pass, on storage with room for three more bytes: the matches at
    5, 3 and 1 are rewritten in this order. *)
Lemma banana_grow s r1 r2 r3 R :
  bytes s = chars "banana" ++ NUL :: r1 :: r2 :: r3 :: R -> len s = 6 ->
  bytes (_replace_grow (S (length (bytes s))) (lit "a") (lit "aa") 1 2 1 5 s)
  = chars "baanaanaa" ++ NUL :: R /\
  len (_replace_grow (S (length (bytes s))) (lit "a") (lit "aa") 1 2 1 5 s) = 9.
Proof.
  intros Hb Hl. rewrite Hb.
  destruct s as [[] sb sl [pb|] pc pl];
    unfold bytes, wbuffer, len, isSSO in Hb, Hl; simpl in Hb, Hl;
    try discriminate; subst; vm_compute; split; reflexivity.
Qed.

(** C6: the general replace of "a" by "aa" in a well-formed value holding
    "banana".  The first pass finds the final size 9, and the second pass
    starts from the last match, at 5; when the capacity is at least 9, or
    the one growth step to 9 succeeds, the operation returns true and the
    value holds "baanaanaa"; when the growth step fails the operation
    returns false and the value is untouched. *)
Theorem C6_replace_growing (s : String) :
  wf s -> content s = chars "banana" ->
  _replace_count (S (length (bytes s))) (lit "a") 1 1 0 (len s) s = 9 /\
  _lastIndexOf_P s (Some (lit "a")) (len s - 1) 1 = 5 /\
  if (9 <=? capacity s) || fst (changeBuffer s 9)
  then exists s', _replace s (Some (lit "a")) 1 (lit "aa") 2 = (true, s') /\
                  content s' = chars "baanaanaa" /\
                  c_str s' = chars "baanaanaa" /\
                  len s' = 9
  else _replace s (Some (lit "a")) 1 (lit "aa") 2 = (false, s).
Proof.
  intros Hwf Hc.
  pose proof (wf_content_length s Hwf) as HL. rewrite Hc in HL. simpl in HL.
  pose proof Hwf as (_ & Hl & Hc16 & _).
  assert (Hlen : len s = 6) by lia.
  pose proof (wf_split s Hwf) as Hb. rewrite Hc, Hlen in Hb.
  set (R := drop (S (Z.to_nat 6)) (bytes s)) in Hb.
  pose proof (wf_length s Hwf) as Hsize.
  assert (HR : Z.of_nat (length R) = capacity s - 6).
  { rewrite Hb, length_app in Hsize. simpl in Hsize. lia. }
  pose proof (banana_count s R Hb) as Hcount.
  rewrite Hlen. split; [exact Hcount|].
  split. { unfold _lastIndexOf_P. rewrite Hlen, Hb. reflexivity. }
  assert (Hfin : forall s1 T,
            bytes s1 = chars "banana" ++ NUL :: T -> len s1 = 6 ->
            (3 <= length T)%nat ->
            forall s', s' = _replace_grow (S (length (bytes s1))) (lit "a")
                                          (lit "aa") 1 2 1 5 s1 ->
            content s' = chars "baanaanaa" /\ c_str s' = chars "baanaanaa" /\
            len s' = 9).
  { intros s1 T Hb1 Hl1 HT s' ->.
    destruct T as [|r1 [|r2 [|r3 T]]]; simpl in HT; try lia.
    destruct (banana_grow s1 r1 r2 r3 T Hb1 Hl1) as [Hb' Hl'].
    unfold content, c_str. rewrite Hl', Hb'. repeat split. }
  unfold _replace. rewrite Hlen. simpl ((6 =? 0) || (1 =? 0)). cbv iota.
  change (s32 (u32 (2 - 1))) with 1. simpl (1 =? 0). simpl (1 <? 0). cbv iota.
  rewrite Hcount. simpl (9 =? 6). cbv iota.
  destruct (Z.gtb_spec 9 (capacity s)) as [Hsmall|Hbig].
  - destruct (Z.leb_spec 9 (capacity s)); [lia|]. cbn [orb].
    destruct (changeBuffer s 9) as [[] s1] eqn:Hcb; cbn [fst negb].
    + destruct (changeBuffer_grow _ _ _ Hwf Hsmall ltac:(lia) Hcb)
        as (k & Hb1 & Hl1 & Hcap1 & Hsize1 & _).
      rewrite Hl1, Hlen. change (s32 (u32 (6 - 1))) with 5.
      eexists. split; [reflexivity|].
      rewrite Hb, <- app_assoc in Hb1. simpl in Hb1.
      apply (Hfin s1 (R ++ replicate k NUL) Hb1); [lia| |reflexivity].
      assert (Hsz : Z.of_nat (length (bytes s1)) = capacity s1 + 1) by lia.
      rewrite Hb1 in Hsz. simpl in Hsz. lia.
    + f_equal. eapply changeBuffer_fail, Hcb.
  - destruct (Z.leb_spec 9 (capacity s)); [|lia]. cbn [orb fst negb].
    rewrite Hlen. change (s32 (u32 (6 - 1))) with 5.
    eexists. split; [reflexivity|].
    apply (Hfin s R Hb Hlen); [lia|reflexivity].
Qed.

(** ** A replace that finds nothing *)

Lemma overwrite_take n buf : overwrite (take n buf) buf = buf.
Proof.
  revert buf. induction n as [|n IH]; intros [|b buf]; simpl; auto.
  rewrite IH. reflexivity.
Qed.

Lemma store_load_0 n s : store 0 (load 0 n s) s = s.
Proof.
  unfold store, load, bytes, wbuffer, isSSO.
  destruct s as [[] sb sl [pb|] pc pl]; simpl; rewrite ?overwrite_take;
    reflexivity.
Qed.

(** When the pattern does not occur the value is left as it was by all
    three branches, but only the growing branch reports it: the result is
    true unless [replaceLen > findLen]. *)
Lemma _replace_no_match s f findLen repl replaceLen :
  len s <> 0 -> findLen <> 0 -> strstr (bytes s) f = None ->
  _replace s (Some f) findLen repl replaceLen
  = (negb (0 <? s32 (u32 (replaceLen - findLen))), s).
Proof.
  intros Hl Hf Hnone. unfold _replace.
  destruct (Z.eqb_spec (len s) 0); [contradiction|].
  destruct (Z.eqb_spec findLen 0); [contradiction|]. cbn [orb].
  assert (Hreg : region 0 s = bytes s) by reflexivity.
  set (diff := s32 (u32 (replaceLen - findLen))).
  destruct (Z.eqb_spec diff 0) as [Hz|Hnz].
  - cbn [_replace_equal]. rewrite Hreg, Hnone.
    destruct (Z.ltb_spec 0 diff); [lia|]. reflexivity.
  - destruct (Z.ltb_spec diff 0) as [Hneg|Hpos].
    + cbn [_replace_shrink]. rewrite Hreg, Hnone.
      rewrite store_load_0.
      destruct (Z.ltb_spec 0 diff); [lia|]. reflexivity.
    + cbn [_replace_count]. rewrite Hreg, Hnone, Z.eqb_refl.
      destruct (Z.ltb_spec 0 diff); [|lia]. reflexivity.
Qed.

(** ** The leading scan of the character-set trim *)

(** The scan is not stopped by the terminator when the terminator is among
    the bytes it looks for: it counts every byte of a content drawn from
    the set, then the terminator. *)
Lemma trim_left_scan_passes_terminator s set n :
  wf s -> Forall (fun c => memchr set c n = true) (content s) ->
  memchr set NUL n = true ->
  len s < Z.of_nat (trim_left_scan set n (bytes s)).
Proof.
  intros Hwf Hall HNUL.
  pose proof (wf_split s Hwf) as Hb.
  pose proof (wf_content_length s Hwf) as HL.
  destruct Hwf as (_ & Hl & _). rewrite Hb.
  assert (Hscan : forall c r, Forall (fun x => memchr set x n = true) c ->
            (length c < trim_left_scan set n (c ++ NUL :: r))%nat).
  { induction 1 as [|x c Hx _ IH]; simpl.
    - rewrite HNUL. lia.
    - rewrite Hx. lia. }
  specialize (Hscan _ (drop (S (Z.to_nat (len s))) (bytes s)) Hall). lia.
Qed.

(** ** The invariant, operation by operation *)

Lemma wf_terminated s : wf s -> terminated s.
Proof.
  intros Hwf. split; [apply Hwf|apply wf_terminator, Hwf].
Qed.

(** [reserve] fails exactly when the rounded size is past the ceiling or
    the allocator returns null. *)
Lemma alloc_failed_iff s n :
  wf s -> capacity s < n -> n + 16 < 4294967296 ->
  (alloc_failed s n <->
   Z.land (n + 16) (Z.lnot 15) > CAPACITY_MAX \/
   realloc (if isSSO s then None else wbuffer s)
           (Z.to_nat (Z.land (n + 16) (Z.lnot 15))) = None).
Proof.
  intros Hwf Hcap Hn. pose proof Hwf as (Hbuf & Hl & Hc16 & Hsso & _).
  unfold alloc_failed, reserve.
  rewrite bool_decide_eq_true_2 by assumption.
  destruct (Z.geb_spec (capacity s) n); [lia|]. cbn [andb].
  unfold changeBuffer.
  rewrite (u32_small (Z.of_nat SSOSIZE - 1)) by lia.
  destruct (Z.ltb_spec n (Z.of_nat SSOSIZE - 1)); [lia|].
  rewrite (u32_small (n + 16)) by lia.
  destruct (Z.gtb_spec (Z.land (n + 16) (Z.lnot 15)) CAPACITY_MAX) as [Hgt|Hle].
  - cbn [fst]. split; [left; lia|reflexivity].
  - destruct (realloc _ _) as [nb|]; cbn [fst].
    + split; [discriminate|]. intros [?|?]; [lia|discriminate].
    + split; [right; reflexivity|reflexivity].
Qed.

(** [remove]: the bytes of [[index, index + count)] are taken out, the
    count clamped to the tail, and the result is terminated. *)
Lemma remove_spec s index count :
  wf s -> 0 <= index -> 0 <= count ->
  terminated (remove s index count) /\
  content (remove s index count)
  = take (Z.to_nat index) (content s) ++ drop (Z.to_nat (index + count)) (content s).
Proof.
  intros Hwf Hi Hc. pose proof (wf_length s Hwf) as Hsize.
  pose proof (wf_content_length s Hwf) as HC.
  pose proof (wf_terminated s Hwf) as Hterm.
  pose proof Hwf as (_ & Hl & _).
  unfold remove.
  destruct (Z.geb_spec index (len s)) as [Hge|Hlt].
  { split; [exact Hterm|].
    rewrite take_ge, drop_ge, app_nil_r by lia. reflexivity. }
  destruct (Z.leb_spec count 0) as [Hz|Hpos].
  { split; [exact Hterm|].
    replace (index + count) with index by lia.
    rewrite take_drop. reflexivity. }
  set (count' := if count >? len s - index then len s - index else count).
  assert (Hc' : 0 < count' <= len s - index /\ count' <= count)
    by (subst count'; destruct (Z.gtb_spec count (len s - index)); lia).
  set (newlen := len s - count').
  set (D := load (index + count') (newlen - index) (setLen newlen s)).
  assert (HD : D = drop (Z.to_nat (index + count')) (content s)).
  { subst D. unfold load, content. rewrite bytes_setLen.
    rewrite take_drop_commute. do 2 f_equal. lia. }
  assert (HlenD : length D = Z.to_nat (newlen - index)).
  { rewrite HD, length_drop. lia. }
  assert (Hbytes : bytes (store newlen [NUL] (store index D (setLen newlen s)))
                   = (take (Z.to_nat index) (bytes s) ++ D) ++
                     NUL :: drop (Z.to_nat index + length D + 1) (bytes s)).
  { rewrite !bytes_store, bytes_setLen.
    replace (Z.to_nat newlen) with (Z.to_nat index + length D)%nat by lia.
    apply poke_concat. lia. }
  assert (Hlen : length (take (Z.to_nat index) (bytes s) ++ D) = Z.to_nat newlen).
  { rewrite length_app, length_take. lia. }
  unfold terminated, content at 1.
  rewrite len_store, len_store, len_setLen, capacity_store, capacity_store,
    capacity_setLen, Hbytes.
  split; [split; [lia|]|].
  - rewrite <- Hlen. apply list_lookup_middle. reflexivity.
  - rewrite take_app_length' by (symmetry; exact Hlen). rewrite HD. f_equal.
    + unfold content. rewrite take_take. f_equal. lia.
    + destruct (Z.gtb_spec count (len s - index)) as [Hclamp|Hfit].
      * rewrite !drop_ge by lia. reflexivity.
      * subst count'. destruct (Z.gtb_spec count (len s - index)); [lia|].
        reflexivity.
Qed.

(** A successful [concat] of [n > 0] bytes. *)
Lemma concat_spec s c n s' :
  wf s -> 0 < n -> len s + n + 16 < 4294967296 -> (Z.to_nat n <= length c)%nat ->
  concat s (Some c) n = (true, s') ->
  terminated s' /\ content s' = content s ++ take (Z.to_nat n) c.
Proof.
  intros Hwf Hn Hbound Hc. pose proof Hwf as (_ & Hl & _).
  pose proof (wf_length s Hwf) as Hsize.
  unfold concat. destruct (Z.eqb_spec n 0); [lia|].
  rewrite (u32_small (len s + n)) by lia.
  destruct (reserve s (len s + n)) as [[] s1] eqn:Hr; cbn [negb]; [|discriminate].
  assert (Hn0 : 0 <= len s + n) by lia.
  destruct (reserve_ok _ _ _ Hwf Hn0 Hbound Hr) as (k & Hb & Hlen1 & Hcap1 & Hsize1 & _).
  intros [= <-].
  set (A := take (Z.to_nat n) c).
  assert (HA : length A = Z.to_nat n) by (subst A; rewrite length_take; lia).
  assert (Hbytes : bytes (store (len s + n) [NUL]
                            (setLen (len s + n) (store (len s1) A s1)))
                   = (take (Z.to_nat (len s)) (bytes s1) ++ A) ++
                     NUL :: drop (Z.to_nat (len s) + length A + 1) (bytes s1)).
  { rewrite bytes_store, bytes_setLen, bytes_store, Hlen1.
    replace (Z.to_nat (len s + n)) with (Z.to_nat (len s) + length A)%nat by lia.
    apply poke_concat. lia. }
  assert (Hpre : take (Z.to_nat (len s)) (bytes s1) = content s).
  { unfold content. rewrite Hb. apply take_app_le. lia. }
  assert (Hlen : length (content s ++ A) = Z.to_nat (len s + n)).
  { rewrite length_app, HA, (wf_content_length s Hwf). lia. }
  unfold terminated, content at 1.
  rewrite len_store, len_setLen, capacity_store, capacity_setLen,
    capacity_store, Hbytes, Hpre.
  split; [split; [lia|]|].
  - rewrite <- Hlen. apply list_lookup_middle. reflexivity.
  - apply take_app_length'. symmetry. exact Hlen.
Qed.

Lemma foreach_char_spec f m :
  foreach_char f m = map f (cstr m) ++ drop (strlen m) m.
Proof.
  unfold cstr. induction m as [|c m IH]; simpl; [reflexivity|].
  destruct (Ascii.eqb c NUL); simpl; [reflexivity|].
  rewrite IH. reflexivity.
Qed.

Lemma bytes_rewrite_bytes f s :
  is_Some (buffer s) -> bytes (rewrite_bytes f s) = f (bytes s).
Proof.
  unfold bytes, buffer, wbuffer, rewrite_bytes, isSSO.
  destruct s as [[] sb sl [pb|] pc pl]; simpl; intros [x Hx];
    reflexivity || discriminate.
Qed.

(** The in-place, byte-by-byte rewrites ([replace(char, char)] and the
    case conversions) map the content and keep the terminator. *)
Lemma foreach_char_terminated f s :
  wf s ->
  terminated (rewrite_bytes (foreach_char f) s) /\
  content (rewrite_bytes (foreach_char f) s) = map f (content s).
Proof.
  intros Hwf. pose proof Hwf as (Hbuf & Hl & _ & _ & _ & Hstr).
  pose proof (wf_terminated s Hwf) as [_ Hterm].
  pose proof (wf_content_length s Hwf) as HC.
  assert (Hlen : len (rewrite_bytes (foreach_char f) s) = len s)
    by (unfold len, rewrite_bytes, isSSO; destruct s as [[] ? ? ? ? ?]; reflexivity).
  assert (Hcap : capacity (rewrite_bytes (foreach_char f) s) = capacity s)
    by (unfold capacity, rewrite_bytes, isSSO; destruct s as [[] ? ? ? ? ?]; reflexivity).
  unfold terminated, content at 1.
  rewrite Hlen, Hcap, bytes_rewrite_bytes, foreach_char_spec by assumption.
  unfold cstr. rewrite Hstr. fold (content s).
  assert (Hm : length (map f (content s)) = Z.to_nat (len s))
    by (rewrite length_map; exact HC).
  split; [split; [lia|]|].
  - rewrite lookup_app_r by lia. rewrite Hm, Nat.sub_diag, lookup_drop.
    rewrite Nat.add_0_r. exact Hterm.
  - apply take_app_length'. symmetry. exact Hm.
Qed.

Lemma replace_spec s find repl :
  wf s ->
  fst (replace s find repl) = true /\
  terminated (snd (replace s find repl)) /\
  content (snd (replace s find repl))
  = map (fun c => if Ascii.eqb c find then repl else c) (content s).
Proof.
  intros Hwf. unfold replace. rewrite (wf_has_buffer s Hwf). cbn [negb fst snd].
  split; [reflexivity|]. apply foreach_char_terminated, Hwf.
Qed.

Lemma toLowerCase_spec s :
  wf s ->
  terminated (toLowerCase s) /\ content (toLowerCase s) = map tolower (content s).
Proof.
  intros Hwf. unfold toLowerCase. rewrite (wf_has_buffer s Hwf). cbn [negb].
  apply foreach_char_terminated, Hwf.
Qed.

Lemma toUpperCase_spec s :
  wf s ->
  terminated (toUpperCase s) /\ content (toUpperCase s) = map toupper (content s).
Proof.
  intros Hwf. unfold toUpperCase. rewrite (wf_has_buffer s Hwf). cbn [negb].
  apply foreach_char_terminated, Hwf.
Qed.

(** ** Keeping values well-formed *)

Lemma buffer_store_Some off data s :
  is_Some (buffer s) -> is_Some (buffer (store off data s)).
Proof.
  unfold buffer, wbuffer, store, isSSO.
  destruct s as [[] sb sl [pb|] pc pl]; simpl; intros [x Hx]; eauto; discriminate.
Qed.

Lemma isSSO_store off data s : isSSO (store off data s) = isSSO s.
Proof. unfold store, isSSO. destruct s as [[] ? ? ? ? ?]; reflexivity. Qed.

Lemma isSSO_setLen l s : isSSO (setLen l s) = isSSO s.
Proof. unfold setLen, isSSO. destruct s as [[] ? ? ? ? ?]; reflexivity. Qed.

Create Rewrite HintDb frame.
#[local] Hint Rewrite capacity_store capacity_setLen bytes_store bytes_setLen
  length_poke isSSO_store isSSO_setLen len_store len_setLen : frame.

Lemma buffer_setLen_Some l s : is_Some (buffer s) -> is_Some (buffer (setLen l s)).
Proof.
  unfold buffer, wbuffer, setLen, isSSO.
  destruct s as [[] sb sl [pb|] pc pl]; simpl; intros [x Hx]; eauto.
Qed.

(** A value with a buffer whose storage holds [C], the terminator and
    [R], in this order, and whose length is that of [C], is well-formed. *)
Lemma wf_shape s C R :
  is_Some (buffer s) -> bytes s = C ++ NUL :: R ->
  len s = Z.of_nat (length C) -> Forall (fun c => c <> NUL) C ->
  capacity s = Z.of_nat (length C + length R) ->
  capacity s < 65536 -> 1 <= Z.of_nat SSOSIZE <= capacity s + 1 ->
  wf s /\ content s = C.
Proof.
  intros Hbuf Hb Hl HC Hcap H16 Hsso.
  assert (Hc : content s = C).
  { unfold content. rewrite Hb, Hl, Nat2Z.id. apply take_app_length. }
  split; [|exact Hc].
  repeat split; try assumption; try lia.
  - rewrite Hb, length_app. simpl. lia.
  - rewrite Hb, strlen_app_NUL by assumption. lia.
Qed.

Lemma wf_buffer s : wf s -> is_Some (buffer s).
Proof. intros H. apply H. Qed.

Lemma wf_bounds s :
  wf s -> 0 <= len s <= capacity s /\ capacity s < 65536 /\
          1 <= Z.of_nat SSOSIZE <= capacity s + 1.
Proof. intros (_ & ? & ? & ? & _). auto. Qed.

(** The storage of a well-formed value: content, terminator, slack. *)
Lemma wf_storage s :
  wf s ->
  exists R, bytes s = content s ++ NUL :: R /\
            Z.of_nat (length (content s)) = len s /\
            Z.of_nat (length R) = capacity s - len s.
Proof.
  intros Hwf. pose proof (wf_split s Hwf) as Hb.
  pose proof (wf_content_length s Hwf) as HC.
  pose proof (wf_length s Hwf) as Hsize.
  pose proof (wf_bounds s Hwf) as (Hl & _).
  eexists. split; [exact Hb|]. split; [lia|].
  rewrite Hb, length_app in Hsize. simpl in Hsize. lia.
Qed.

Lemma changeBuffer_capacity s n s' :
  wf s -> capacity s < n -> n + 16 < 4294967296 ->
  changeBuffer s n = (true, s') ->
  capacity s' + 1 = 16 * ((n + 16) / 16) /\ capacity s' + 1 <= CAPACITY_MAX /\
  isSSO s' = false.
Proof.
  intros Hwf Hcap Hn. pose proof (wf_bounds s Hwf) as (Hl & Hc16 & Hsso).
  unfold changeBuffer.
  rewrite (u32_small (Z.of_nat SSOSIZE - 1)) by lia.
  destruct (Z.ltb_spec n (Z.of_nat SSOSIZE - 1)); [lia|].
  rewrite (u32_small (n + 16)) by lia. rewrite land_lnot_15.
  rewrite (u32_small (16 * ((n + 16) / 16) - 1))
    by (Z.div_mod_to_equations; lia).
  destruct (Z.gtb_spec (16 * ((n + 16) / 16)) CAPACITY_MAX); [discriminate|].
  destruct (realloc _ _) as [nb|]; [|discriminate].
  intros [= <-].
  match goal with
  | |- context [setBuffer ?b (setLen ?l (setCapacity ?c (setSSO false s)))] =>
      destruct (heap_state b l c s) as (_ & _ & Hc & _)
  end.
  rewrite Hc. repeat split; lia.
Qed.

(** A successful [reserve]: the value stays well-formed and holds what it
    held; either nothing changed, or the storage is a heap block whose
    size is the request rounded up to the next multiple of 16. *)
Lemma reserve_wf s n s' :
  wf s -> 0 <= n -> n + 16 < 4294967296 -> CAPACITY_MAX <= 65536 ->
  reserve s n = (true, s') ->
  wf s' /\ content s' = content s /\ len s' = len s /\ n <= capacity s' /\
  (s' = s \/
   capacity s < n /\ capacity s' + 1 = 16 * ((n + 16) / 16) /\ isSSO s' = false).
Proof.
  intros Hwf Hn0 Hn Hmax Hr.
  destruct (reserve_ok _ _ _ Hwf Hn0 Hn Hr) as (k & Hb & Hlen & Hcap & Hsize & Hbuf).
  pose proof (wf_bounds s Hwf) as (Hl & Hc16 & Hsso).
  destruct (wf_storage s Hwf) as (R & HbR & HC & HR).
  assert (Hcase : s' = s \/
            capacity s < n /\ capacity s' + 1 = 16 * ((n + 16) / 16) /\
            capacity s' + 1 <= CAPACITY_MAX /\ isSSO s' = false).
  { revert Hr. unfold reserve.
    rewrite bool_decide_eq_true_2 by (apply wf_buffer, Hwf). cbn [andb].
    destruct (Z.geb_spec (capacity s) n) as [Hge|Hlt].
    - intros [= <-]. left. reflexivity.
    - destruct (changeBuffer s n) as [[] s1] eqn:Hcb; [|discriminate].
      destruct (changeBuffer_capacity _ _ _ Hwf Hlt Hn Hcb) as (Hc1 & Hc2 & Hc3).
      intros [= <-]. right.
      destruct (Z.eqb (len s1) 0);
        rewrite ?capacity_store, ?isSSO_store; auto. }
  assert (Hwf' : wf s' /\ content s' = content s).
  { destruct Hcase as [->|(Hlt & Hc1 & Hc2 & _)]; [auto|].
    apply (wf_shape s' (content s) (R ++ replicate k NUL)); try assumption; try lia.
    - rewrite Hb, HbR, <- app_assoc. reflexivity.
    - apply wf_content_no_NUL, Hwf.
    - rewrite Hb, HbR, !length_app in Hsize. simpl in Hsize.
      rewrite length_app. lia. }
  destruct Hwf' as [Hwf' Hc'].
  split; [exact Hwf'|]. split; [exact Hc'|]. split; [exact Hlen|].
  split; [exact Hcap|].
  destruct Hcase as [?|(? & ? & ? & ?)]; auto.
Qed.

Lemma wf_intro s :
  is_Some (buffer s) -> terminated s -> capacity s < 65536 ->
  1 <= Z.of_nat SSOSIZE <= capacity s + 1 ->
  length (bytes s) = Z.to_nat (capacity s + 1) ->
  Forall (fun c => c <> NUL) (content s) -> wf s.
Proof.
  intros Hbuf [Hl Ht] Hc Hsso Hsize HC.
  assert (Hb : bytes s = content s ++ NUL :: drop (S (Z.to_nat (len s))) (bytes s)).
  { unfold content. symmetry. apply take_drop_middle. exact Ht. }
  assert (Hlen : length (content s) = Z.to_nat (len s)).
  { unfold content. rewrite length_take. lia. }
  repeat split; try assumption; try lia.
  rewrite Hb, strlen_app_NUL by assumption. exact Hlen.
Qed.

(** ** Reserving room *)

(** X1: for a request below [2^32 - 16] and a ceiling of at most 65536, a
    successful [reserve] of a well-formed value keeps it well-formed with
    the same content and makes the capacity at least the request.  A
    request within the capacity changes nothing (the storage never
    shrinks); a larger one moves the value to a heap block of exactly the
    request rounded up to the next multiple of 16, terminator included,
    with no further head-room, and a value on the heap stays on the
    heap. *)
Theorem reserve_rounds_up (s : String) (n : Z) :
  wf s -> 0 <= n -> n + 16 < 4294967296 -> CAPACITY_MAX <= 65536 ->
  fst (reserve s n) = true ->
  wf (snd (reserve s n)) /\
  content (snd (reserve s n)) = content s /\
  n <= capacity (snd (reserve s n)) /\
  (n <= capacity s -> snd (reserve s n) = s) /\
  (capacity s < n ->
     isSSO (snd (reserve s n)) = false /\
     capacity (snd (reserve s n)) = 16 * (n / 16) + 15 /\
     capacity (snd (reserve s n)) < CAPACITY_MAX) /\
  (isSSO s = false -> isSSO (snd (reserve s n)) = false).
Proof.
  intros Hwf Hn0 Hn Hmax Hok.
  destruct (reserve s n) as [ok s'] eqn:Hr. cbn [fst snd] in *. subst ok.
  destruct (reserve_wf _ _ _ Hwf Hn0 Hn Hmax Hr) as (Hwf' & Hc & Hl & Hcap & Hcase).
  split; [exact Hwf'|]. split; [exact Hc|]. split; [exact Hcap|].
  split.
  { intros Hle. destruct Hcase as [?|(? & _)]; [assumption|lia]. }
  split.
  { intros Hlt. destruct Hcase as [->|(_ & Hc1 & Hsso)]; [lia|].
    split; [exact Hsso|].
    revert Hr. unfold reserve. rewrite bool_decide_eq_true_2 by apply Hwf.
    destruct (Z.geb_spec (capacity s) n); [lia|]. cbn [andb].
    destruct (changeBuffer s n) as [[] s1] eqn:Hcb; [|discriminate].
    destruct (changeBuffer_capacity _ _ _ Hwf Hlt Hn Hcb) as (Hd1 & Hd2 & _).
    intros _. revert Hc1 Hd1 Hd2. 
    replace ((n + 16) / 16) with (n / 16 + 1)
      by (rewrite <- (Z.div_add n 1 16) by lia; f_equal; lia).
    intros Hc1 Hd1 Hd2.
    assert (capacity s1 = capacity s').
    { lia. }
    lia. }
  intros Hsso. destruct Hcase as [->|(_ & _ & ?)]; assumption.
Qed.

(** The rounded size of a request of [2^32 - 16] or more: the sum wraps
    and nothing is left of it. *)
Lemma newSize_wraps n :
  4294967296 <= n + 16 -> n < 4294967296 ->
  Z.land (u32 (n + 16)) (Z.lnot 15) = 0.
Proof.
  intros Hlo Hhi. rewrite land_lnot_15.
  assert (Hu : u32 (n + 16) = n + 16 - 4294967296).
  { unfold u32. change (2 ^ 32) with 4294967296.
    symmetry. apply (Z.mod_unique_pos _ _ 1); lia. }
  rewrite Hu. rewrite Z.div_small by lia. reflexivity.
Qed.

(** A request of [2^32 - 16] or more passes the ceiling test, and the
    allocator, asked for a block of no bytes, decides. *)
Lemma reserve_wraps s n :
  wf s -> 4294967296 <= n + 16 -> n < 4294967296 ->
  (fst (reserve s n) = false <->
   0 > CAPACITY_MAX \/
   realloc (if isSSO s then None else wbuffer s) 0 = None).
Proof.
  intros Hwf Hlo Hhi. pose proof Hwf as (Hbuf & Hl & Hc16 & Hsso & _).
  unfold reserve.
  rewrite bool_decide_eq_true_2 by assumption.
  destruct (Z.geb_spec (capacity s) n); [lia|]. cbn [andb].
  unfold changeBuffer.
  rewrite (u32_small (Z.of_nat SSOSIZE - 1)) by lia.
  destruct (Z.ltb_spec n (Z.of_nat SSOSIZE - 1)); [lia|].
  rewrite (newSize_wraps n Hlo Hhi).
  change (Z.to_nat 0) with O.
  destruct (Z.gtb_spec 0 CAPACITY_MAX) as [Hgt|Hle].
  - cbn [fst]. split; [left; lia|reflexivity].
  - destruct (realloc _ O) as [nb|]; cbn [fst].
    + split; [discriminate|]. intros [?|?]; [lia|discriminate].
    + split; [right; reflexivity|reflexivity].
Qed.

(** X2: a [reserve] beyond the capacity, for a request below [2^32 - 16],
    fails exactly when the request rounded up to the next multiple of 16
    (terminator included) is past the capacity ceiling or the allocator
    returns null; so every request from the ceiling up to [2^32 - 16]
    fails whatever the allocator does, and a failed [reserve] leaves the
    value as it was.  From [2^32 - 16] on the rounded size wraps to 0:
    the ceiling test does not reject the request, and [reserve] fails
    exactly when the allocator returns null for a block of no bytes. *)
Theorem reserve_fails_iff (s : String) (n : Z) :
  wf s -> capacity s < n -> n < 4294967296 ->
  (n + 16 < 4294967296 ->
     (fst (reserve s n) = false <->
        16 * (n / 16) + 16 > CAPACITY_MAX \/
        realloc (if isSSO s then None else wbuffer s)
                (Z.to_nat (16 * (n / 16) + 16)) = None) /\
     (CAPACITY_MAX <= n -> fst (reserve s n) = false) /\
     (fst (reserve s n) = false -> snd (reserve s n) = s)) /\
  (4294967296 <= n + 16 -> 0 <= CAPACITY_MAX ->
     (fst (reserve s n) = false <->
        realloc (if isSSO s then None else wbuffer s) 0 = None)).
Proof.
  intros Hwf Hcap Hhi. split.
  - intros Hn.
    assert (Hr : Z.land (n + 16) (Z.lnot 15) = 16 * (n / 16) + 16).
    { rewrite land_lnot_15.
      replace ((n + 16) / 16) with (n / 16 + 1)
        by (rewrite <- (Z.div_add n 1 16) by lia; f_equal; lia).
      lia. }
    pose proof (alloc_failed_iff s n Hwf Hcap Hn) as Hiff.
    unfold alloc_failed in Hiff. rewrite Hr in Hiff.
    split; [exact Hiff|]. split.
    + intros Hmax. apply Hiff. left.
      pose proof (Z.mod_pos_bound n 16 ltac:(lia)).
      pose proof (Z.div_mod n 16 ltac:(lia)). lia.
    + intros Hf. destruct (reserve s n) as [ok s'] eqn:Hres.
      cbn [fst snd] in *. subst ok. eapply reserve_fail. exact Hres.
  - intros Hlo Hmax. destruct (reserve_wraps s n Hwf Hlo Hhi) as [Hfail Hnull].
    split; [|auto]. intros Hf. destruct (Hfail Hf) as [?|?]; [lia|assumption].
Qed.

(** ** Removing, appending, inserting *)

Lemma remove_frame s index count :
  capacity (remove s index count) = capacity s /\
  length (bytes (remove s index count)) = length (bytes s) /\
  isSSO (remove s index count) = isSSO s /\
  (is_Some (buffer s) -> is_Some (buffer (remove s index count))).
Proof.
  unfold remove.
  destruct (index >=? len s); [auto|]. destruct (count <=? 0); [auto|].
  autorewrite with frame.
  repeat split. auto using buffer_store_Some, buffer_setLen_Some.
Qed.

Lemma remove_wf s index count :
  wf s -> 0 <= index -> 0 <= count ->
  wf (remove s index count) /\
  content (remove s index count)
  = take (Z.to_nat index) (content s) ++ drop (Z.to_nat (index + count)) (content s).
Proof.
  intros Hwf Hi Hc.
  destruct (remove_spec s index count Hwf Hi Hc) as [Ht Hcont].
  destruct (remove_frame s index count) as (Hcap & Hsize & _ & Hbuf).
  pose proof (wf_bounds s Hwf) as (_ & Hc16 & Hsso).
  split; [|exact Hcont].
  apply wf_intro; rewrite ?Hcap, ?Hsize; try assumption.
  - apply Hbuf, Hwf.
  - apply Hwf.
  - rewrite Hcont. apply Forall_app. split.
    + apply Forall_take, wf_content_no_NUL, Hwf.
    + apply Forall_drop, wf_content_no_NUL, Hwf.
Qed.

(** X3: [remove] takes the bytes of [[index, index + count)] out of a
    well-formed value, the count clamped to what follows [index], and
    leaves a well-formed value; a range reaching the end truncates at
    [index], an index at or past the end changes nothing, and the storage
    is never given back: capacity and representation stay as they were. *)
Theorem remove_splices (s : String) (index count : Z) :
  wf s -> 0 <= index -> 0 <= count ->
  wf (remove s index count) /\
  content (remove s index count)
  = take (Z.to_nat index) (content s) ++ drop (Z.to_nat (index + count)) (content s) /\
  (len s <= index + count ->
     content (remove s index count) = take (Z.to_nat index) (content s)) /\
  (len s <= index -> remove s index count = s) /\
  capacity (remove s index count) = capacity s /\
  isSSO (remove s index count) = isSSO s.
Proof.
  intros Hwf Hi Hc.
  destruct (remove_wf s index count Hwf Hi Hc) as [Hwf' Hcont].
  destruct (remove_frame s index count) as (Hcap & _ & Hsso & _).
  pose proof (wf_content_length s Hwf) as HC.
  split; [exact Hwf'|]. split; [exact Hcont|].
  split.
  { intros Hend. rewrite Hcont, drop_ge, app_nil_r by lia. reflexivity. }
  split.
  { intros Hend. unfold remove.
    destruct (Z.geb_spec index (len s)); [reflexivity|lia]. }
  split; assumption.
Qed.

Lemma concat_frame s c n s' :
  n <> 0 -> concat s (Some c) n = (true, s') ->
  exists s1, reserve s (u32 (len s + n)) = (true, s1) /\
             capacity s' = capacity s1 /\
             length (bytes s') = length (bytes s1) /\
             isSSO s' = isSSO s1 /\
             (is_Some (buffer s1) -> is_Some (buffer s')).
Proof.
  intros Hn. unfold concat. destruct (Z.eqb_spec n 0); [contradiction|].
  destruct (reserve s (u32 (len s + n))) as [[] s1]; cbn [negb]; [|discriminate].
  intros [= <-]. exists s1.
  autorewrite with frame.
  repeat split. auto using buffer_store_Some, buffer_setLen_Some.
Qed.

Lemma concat_wf s c n s' :
  wf s -> 0 < n -> len s + n + 16 < 4294967296 -> (Z.to_nat n <= length c)%nat ->
  Forall (fun x => x <> NUL) (take (Z.to_nat n) c) -> CAPACITY_MAX <= 65536 ->
  concat s (Some c) n = (true, s') ->
  wf s' /\ content s' = content s ++ take (Z.to_nat n) c.
Proof.
  intros Hwf Hn Hbound Hc HD Hmax Hcat.
  pose proof (wf_bounds s Hwf) as (Hl & _).
  destruct (concat_spec _ _ _ _ Hwf Hn Hbound Hc Hcat) as [Ht Hcont].
  destruct (concat_frame s c n s' ltac:(lia) Hcat) as (s1 & Hr & Hcap & Hsize & _ & Hbuf).
  rewrite (u32_small (len s + n)) in Hr by lia.
  assert (Hn0 : 0 <= len s + n) by lia.
  destruct (reserve_wf _ _ _ Hwf Hn0 Hbound Hmax Hr) as (Hwf1 & _).
  pose proof (wf_bounds s1 Hwf1) as (_ & Hc16 & Hsso).
  split; [|exact Hcont].
  apply wf_intro; rewrite ?Hcap, ?Hsize; try assumption.
  - apply Hbuf, Hwf1.
  - apply Hwf1.
  - rewrite Hcont. apply Forall_app. split; [apply wf_content_no_NUL, Hwf|exact HD].
Qed.

Lemma cstr_take c n : (n <= strlen c)%nat -> Forall (fun x => x <> NUL) (take n c).
Proof.
  intros H. replace (take n c) with (take n (cstr c)).
  - apply Forall_take, cstr_no_NUL.
  - unfold cstr. rewrite take_take. f_equal. lia.
Qed.

(** Appending a C string, of any length. *)
Lemma concat_cstr_wf s c s' :
  wf s -> len s + Z.of_nat (strlen c) + 16 < 4294967296 -> CAPACITY_MAX <= 65536 ->
  concat_cstr s (Some c) = (true, s') ->
  wf s' /\ content s' = content s ++ cstr c.
Proof.
  intros Hwf Hbound Hmax. unfold concat_cstr.
  destruct (Nat.eq_dec (strlen c) 0%nat) as [Hz|Hnz].
  - unfold concat. rewrite Hz. cbn [Z.of_nat Z.eqb]. intros [= <-].
    unfold cstr. rewrite Hz, take_0, app_nil_r. auto.
  - intros Hcat. pose proof (strlen_le c).
    destruct (concat_wf s c (Z.of_nat (strlen c)) s') as [Hwf' Hcont];
      try assumption; try lia.
    + rewrite Nat2Z.id. apply cstr_take. lia.
    + rewrite Nat2Z.id in Hcont. auto.
Qed.

(** X4: a successful [concat] of a terminated C string to a well-formed
    value leaves a well-formed value holding the former content followed
    by the bytes of the C string; the length grows by the length of the
    C string, and a single byte is appended as a C string of length
    one. *)
Theorem concat_appends (s : String) (c : list ascii) (x : ascii) :
  wf s -> len s + Z.of_nat (strlen c) + 16 < 4294967296 -> CAPACITY_MAX <= 65536 ->
  ((strlen c < length c)%nat -> fst (concat_cstr s (Some c)) = true ->
     wf (snd (concat_cstr s (Some c))) /\
     content (snd (concat_cstr s (Some c))) = content s ++ cstr c /\
     len (snd (concat_cstr s (Some c))) = len s + Z.of_nat (strlen c)) /\
  (x <> NUL -> fst (concat_char s x) = true ->
     wf (snd (concat_char s x)) /\
     content (snd (concat_char s x)) = content s ++ [x]).
Proof.
  intros Hwf Hbound Hmax. pose proof (wf_bounds s Hwf) as (Hl & Hc16 & _).
  split.
  - intros _ Hok. destruct (concat_cstr s (Some c)) as [ok s'] eqn:Hcat.
    cbn [fst snd] in *. subst ok.
    destruct (concat_cstr_wf _ _ _ Hwf Hbound Hmax Hcat) as [Hwf' Hcont].
    split; [exact Hwf'|]. split; [exact Hcont|].
    pose proof (wf_content_length s' Hwf') as H1.
    pose proof (wf_content_length s Hwf) as H2.
    pose proof (wf_bounds s' Hwf') as (Hl' & _).
    rewrite Hcont, length_app, H2 in H1. unfold cstr in H1.
    rewrite length_take in H1. pose proof (strlen_le c). lia.
  - intros Hx Hok. unfold concat_char in *.
    destruct (concat s (Some [x]) 1) as [ok s'] eqn:Hcat.
    cbn [fst snd] in *. subst ok.
    apply (concat_wf s [x] 1 s'); try assumption; try lia.
    + simpl. lia.
    + repeat constructor. exact Hx.
Qed.

Lemma poke_app_skip A X k D : poke (length A + k) D (A ++ X) = A ++ poke k D X.
Proof. induction A as [|a A IH]; simpl; [reflexivity|]. rewrite IH. reflexivity. Qed.

(** The three writes of [insert]: the tail moved up, the new bytes, the
    terminator. *)
Lemma insert_bytes C1 T R D :
  (length D <= length R)%nat ->
  poke (length C1 + length D + length T) [NUL]
    (poke (length C1) D
       (poke (length C1 + length D) T (C1 ++ T ++ NUL :: R)))
  = (C1 ++ D ++ T) ++ NUL :: drop (length D) R.
Proof.
  intros HR.
  rewrite poke_app_skip.
  rewrite <- (Nat.add_0_r (length C1)) at 2. rewrite poke_app_skip.
  rewrite <- Nat.add_assoc, poke_app_skip. rewrite <- app_assoc. f_equal.
  set (X := T ++ NUL :: R).
  assert (HX : (length D + length T + 1 <= length X)%nat).
  { subst X. rewrite length_app. simpl. lia. }
  rewrite (poke_spec (length D) T X) by lia.
  change (poke 0 D ?b) with (overwrite D b).
  rewrite overwrite_app by (rewrite length_app, length_take; lia).
  rewrite drop_app_length' by (rewrite length_take; lia).
  rewrite app_assoc.
  assert (HDT : length (D ++ T) = (length D + length T)%nat) by apply length_app.
  rewrite <- HDT, <- (Nat.add_0_r (length (D ++ T))) at 1.
  rewrite poke_app_skip. f_equal.
  change (poke 0 ?d ?b) with (overwrite d b).
  rewrite overwrite_app by (rewrite length_drop; simpl; lia).
  simpl. f_equal. rewrite drop_drop. subst X.
  replace (length D + length T + 1)%nat with (length (T ++ [NUL]) + length D)%nat
    by (rewrite length_app; simpl; lia).
  rewrite (cons_middle NUL T R), app_assoc, <- drop_drop, drop_app_length.
  reflexivity.
Qed.

Lemma insert_frame s position other n :
  fst (reserve s (u32 (len s + n))) = true -> position <= len s ->
  exists s1, reserve s (u32 (len s + n)) = (true, s1) /\
             capacity (insert s position other n) = capacity s1 /\
             length (bytes (insert s position other n)) = length (bytes s1) /\
             isSSO (insert s position other n) = isSSO s1 /\
             (is_Some (buffer s1) -> is_Some (buffer (insert s position other n))).
Proof.
  intros Hok Hpos. unfold insert.
  destruct (Z.gtb_spec position (len s)); [lia|].
  destruct (reserve s (u32 (len s + n))) as [ok s1]. cbn [fst] in Hok. subst ok.
  cbn [negb]. exists s1. autorewrite with frame.
  repeat split. auto using buffer_store_Some, buffer_setLen_Some.
Qed.

Lemma insert_wf s position other n :
  wf s -> 0 <= position <= len s -> 0 <= n -> len s + n + 16 < 4294967296 ->
  (Z.to_nat n <= length other)%nat ->
  Forall (fun x => x <> NUL) (take (Z.to_nat n) other) -> CAPACITY_MAX <= 65536 ->
  fst (reserve s (len s + n)) = true ->
  wf (insert s position other n) /\
  content (insert s position other n)
  = take (Z.to_nat position) (content s) ++ take (Z.to_nat n) other
    ++ drop (Z.to_nat position) (content s).
Proof.
  intros Hwf Hpos Hn Hbound Hother HD Hmax Hok.
  pose proof (wf_bounds s Hwf) as (Hl & _).
  assert (Hu : u32 (len s + n) = len s + n) by (apply u32_small; lia).
  destruct (insert_frame s position other n) as (s1 & Hr & Hcap & Hsize & _ & Hbuf);
    [rewrite Hu; exact Hok|lia|].
  rewrite Hu in Hr.
  assert (Hn0 : 0 <= len s + n) by lia.
  destruct (reserve_wf _ _ _ Hwf Hn0 Hbound Hmax Hr) as (Hwf1 & Hc1 & Hl1 & Hcap1 & _).
  pose proof (wf_bounds s1 Hwf1) as (_ & Hc16 & Hsso).
  destruct (wf_storage s1 Hwf1) as (R & HbR & HC & HR).
  rewrite Hc1, Hl1 in *.
  set (C1 := take (Z.to_nat position) (content s)).
  set (T := drop (Z.to_nat position) (content s)).
  set (D := take (Z.to_nat n) other).
  assert (HlC1 : length C1 = Z.to_nat position) by (subst C1; rewrite length_take; lia).
  assert (HlT : length T = Z.to_nat (len s - position)) by (subst T; rewrite length_drop; lia).
  assert (HlD : length D = Z.to_nat n) by (subst D; rewrite length_take; lia).
  assert (HB : bytes s1 = C1 ++ T ++ NUL :: R).
  { rewrite HbR. subst C1 T. rewrite app_assoc, take_drop. reflexivity. }
  assert (Hbytes : bytes (insert s position other n)
                   = (C1 ++ D ++ T) ++ NUL :: drop (length D) R).
  { unfold insert. destruct (Z.gtb_spec position (len s)); [lia|].
    rewrite Hu, Hr. cbn [negb]. rewrite (u32_small (len s - position)) by lia.
    autorewrite with frame.
    assert (HT : load position (len s - position) (setLen (len s + n) s1) = T).
    { unfold load. rewrite bytes_setLen, HB.
      replace (Z.to_nat position) with (length C1) by lia.
      rewrite drop_app_length. apply take_app_length'. lia. }
    rewrite HT. fold D. rewrite HB.
    replace (Z.to_nat (len s + n)) with (length C1 + length D + length T)%nat by lia.
    replace (Z.to_nat (position + n)) with (length C1 + length D)%nat by lia.
    replace (Z.to_nat position) with (length C1) by lia.
    apply insert_bytes. lia. }
  assert (Hlen : len (insert s position other n) = len s + n).
  { unfold insert. destruct (Z.gtb_spec position (len s)); [lia|].
    rewrite Hu, Hr. cbn [negb]. autorewrite with frame. reflexivity. }
  assert (HlCDT : length (C1 ++ D ++ T) = Z.to_nat (len s + n)).
  { rewrite !length_app. lia. }
  assert (Hcont : content (insert s position other n) = C1 ++ D ++ T).
  { unfold content. rewrite Hbytes, Hlen. apply take_app_length'. symmetry. exact HlCDT. }
  split; [|exact Hcont].
  apply wf_intro; rewrite ?Hcap, ?Hsize; try assumption.
  - apply Hbuf, Hwf1.
  - split; rewrite ?Hcap, Hlen; [lia|].
    rewrite Hbytes, <- HlCDT. apply list_lookup_middle. reflexivity.
  - apply Hwf1.
  - rewrite Hcont. pose proof (wf_content_no_NUL s Hwf).
    subst C1 T. repeat (apply Forall_app; split);
      auto using Forall_take, Forall_drop.
Qed.

(** X5: [insert] puts the first [n] bytes of [other] before the byte at
    [position] of a well-formed value, keeping what precedes and what
    follows, and leaves a well-formed value that is [n] bytes longer;
    inserting at the end appends.  A position past the end, or a
    reservation that fails, leaves the value as it was. *)
Theorem insert_splices (s : String) (position : Z) (other : list ascii) (n : Z) :
  wf s -> 0 <= position -> 0 <= n -> len s + n + 16 < 4294967296 ->
  (Z.to_nat n <= length other)%nat ->
  Forall (fun x => x <> NUL) (take (Z.to_nat n) other) -> CAPACITY_MAX <= 65536 ->
  (position <= len s -> fst (reserve s (len s + n)) = true ->
     wf (insert s position other n) /\
     content (insert s position other n)
     = take (Z.to_nat position) (content s) ++ take (Z.to_nat n) other
       ++ drop (Z.to_nat position) (content s) /\
     len (insert s position other n) = len s + n) /\
  (fst (reserve s (len s + n)) = true ->
     content (insert s (len s) other n) = content s ++ take (Z.to_nat n) other) /\
  (len s < position -> insert s position other n = s) /\
  (fst (reserve s (len s + n)) = false -> insert s position other n = s).
Proof.
  intros Hwf Hpos Hn Hbound Hother HD Hmax.
  pose proof (wf_bounds s Hwf) as (Hl & _).
  pose proof (wf_content_length s Hwf) as HC.
  assert (Hu : u32 (len s + n) = len s + n) by (apply u32_small; lia).
  split.
  { intros Hin Hok.
    destruct (insert_wf s position other n) as [Hwf' Hcont]; try assumption; try lia.
    split; [exact Hwf'|]. split; [exact Hcont|].
    pose proof (wf_content_length _ Hwf') as H1.
    pose proof (wf_bounds _ Hwf') as (Hl' & _).
    rewrite Hcont, !length_app, !length_take, length_drop in H1. lia. }
  split.
  { intros Hok.
    destruct (insert_wf s (len s) other n) as [_ Hcont]; try assumption; try lia.
    rewrite Hcont, take_ge, drop_ge, app_nil_r by lia. reflexivity. }
  split.
  { intros Hout. unfold insert.
    destruct (Z.gtb_spec position (len s)); [reflexivity|lia]. }
  intros Hfail. unfold insert.
  destruct (Z.gtb_spec position (len s)); [reflexivity|].
  rewrite Hu. destruct (reserve s (len s + n)) as [ok s1] eqn:Hr.
  cbn [fst] in Hfail. subst ok. cbn [negb]. eapply reserve_fail, Hr.
Qed.

(** X6: removing what was just inserted gives the content back:
    [insert] of [n] bytes at [position] followed by [remove] of [n]
    bytes at [position] leaves a well-formed value with the content the
    value had before. *)
Theorem insert_then_remove (s : String) (position : Z) (other : list ascii) (n : Z) :
  wf s -> 0 <= position <= len s -> 0 <= n -> len s + n + 16 < 4294967296 ->
  (Z.to_nat n <= length other)%nat ->
  Forall (fun x => x <> NUL) (take (Z.to_nat n) other) -> CAPACITY_MAX <= 65536 ->
  fst (reserve s (len s + n)) = true ->
  wf (remove (insert s position other n) position n) /\
  content (remove (insert s position other n) position n) = content s.
Proof.
  intros Hwf Hpos Hn Hbound Hother HD Hmax Hok.
  destruct (insert_wf s position other n) as [Hwf' Hcont]; try assumption.
  destruct (remove_wf (insert s position other n) position n) as [Hwf2 Hcont2];
    try assumption; try lia.
  split; [exact Hwf2|].
  pose proof (wf_content_length s Hwf) as HC.
  pose proof (wf_bounds s Hwf) as (Hl & _).
  rewrite Hcont2, Hcont.
  set (C1 := take (Z.to_nat position) (content s)).
  set (T := drop (Z.to_nat position) (content s)).
  set (D := take (Z.to_nat n) other).
  assert (HlC1 : length C1 = Z.to_nat position) by (subst C1; rewrite length_take; lia).
  assert (HlD : length D = Z.to_nat n) by (subst D; rewrite length_take; lia).
  rewrite take_app_length' by lia.
  replace (Z.to_nat (position + n)) with (length C1 + length D)%nat by lia.
  rewrite <- drop_drop, drop_app_length, drop_app_length.
  subst C1 T. apply take_drop.
Qed.

(** ** Rewriting in place *)

Lemma length_foreach_char f m : length (foreach_char f m) = length m.
Proof.
  induction m as [|c m IH]; simpl; [reflexivity|].
  destruct (Ascii.eqb c NUL); simpl; auto.
Qed.

Lemma rewrite_bytes_frame f s :
  capacity (rewrite_bytes (foreach_char f) s) = capacity s /\
  len (rewrite_bytes (foreach_char f) s) = len s /\
  isSSO (rewrite_bytes (foreach_char f) s) = isSSO s /\
  length (bytes (rewrite_bytes (foreach_char f) s)) = length (bytes s) /\
  (is_Some (buffer s) -> is_Some (buffer (rewrite_bytes (foreach_char f) s))).
Proof.
  unfold capacity, len, isSSO, bytes, buffer, wbuffer, rewrite_bytes.
  destruct s as [[] sb sl [pb|] pc pl]; simpl;
    rewrite ?length_foreach_char; repeat split; eauto.
Qed.

Lemma foreach_char_wf f s :
  wf s -> (forall c, c <> NUL -> f c <> NUL) ->
  wf (rewrite_bytes (foreach_char f) s) /\
  content (rewrite_bytes (foreach_char f) s) = map f (content s).
Proof.
  intros Hwf Hf.
  destruct (foreach_char_terminated f s Hwf) as [Ht Hcont].
  destruct (rewrite_bytes_frame f s) as (Hcap & _ & _ & Hsize & Hbuf).
  pose proof (wf_bounds s Hwf) as (_ & Hc16 & Hsso).
  split; [|exact Hcont].
  apply wf_intro; rewrite ?Hcap, ?Hsize; try assumption.
  - apply Hbuf, Hwf.
  - apply Hwf.
  - rewrite Hcont. apply List.Forall_map.
    eapply Forall_impl; [apply wf_content_no_NUL, Hwf|]. exact Hf.
Qed.

(** X7: [replace(find, repl)] on a well-formed value returns true and
    substitutes [repl] for every byte equal to [find], leaving the other
    bytes, the length and the capacity as they were; with a replacement
    other than the terminator the value stays well-formed, and no byte
    equal to [find] is left when the two differ. *)
Theorem replace_char_maps (s : String) (find repl : ascii) :
  wf s -> repl <> NUL ->
  fst (replace s find repl) = true /\
  wf (snd (replace s find repl)) /\
  content (snd (replace s find repl))
  = map (fun c => if Ascii.eqb c find then repl else c) (content s) /\
  len (snd (replace s find repl)) = len s /\
  capacity (snd (replace s find repl)) = capacity s /\
  (find <> repl -> Forall (fun c => c <> find) (content (snd (replace s find repl)))).
Proof.
  intros Hwf Hrepl. unfold replace. rewrite (wf_has_buffer s Hwf). cbn [negb fst snd].
  set (f := fun c => if Ascii.eqb c find then repl else c).
  destruct (foreach_char_wf f s Hwf) as [Hwf' Hcont].
  { intros c Hc. subst f. cbn beta. destruct (Ascii.eqb c find); assumption. }
  destruct (rewrite_bytes_frame f s) as (Hcap & Hlen & _).
  split; [reflexivity|]. split; [exact Hwf'|]. split; [exact Hcont|].
  split; [exact Hlen|]. split; [exact Hcap|].
  intros Hne. rewrite Hcont. apply List.Forall_map, Forall_true.
  intros c. subst f. cbn beta. destruct (Ascii.eqb_spec c find); congruence.
Qed.

Lemma tolower_not_NUL c : c <> NUL -> tolower c <> NUL.
Proof.
  destruct c as [[] [] [] [] [] [] [] []]; intros H;
    solve [vm_compute; discriminate | exfalso; apply H; reflexivity].
Qed.

Lemma toupper_not_NUL c : c <> NUL -> toupper c <> NUL.
Proof.
  destruct c as [[] [] [] [] [] [] [] []]; intros H;
    solve [vm_compute; discriminate | exfalso; apply H; reflexivity].
Qed.

Lemma tolower_tolower c : tolower (tolower c) = tolower c.
Proof. destruct c as [[] [] [] [] [] [] [] []]; reflexivity. Qed.

Lemma toupper_toupper c : toupper (toupper c) = toupper c.
Proof. destruct c as [[] [] [] [] [] [] [] []]; reflexivity. Qed.

Lemma tolower_toupper c : tolower (toupper c) = tolower c.
Proof. destruct c as [[] [] [] [] [] [] [] []]; reflexivity. Qed.

Lemma toupper_tolower c : toupper (tolower c) = toupper c.
Proof. destruct c as [[] [] [] [] [] [] [] []]; reflexivity. Qed.

Lemma toLowerCase_wf s :
  wf s -> wf (toLowerCase s) /\ content (toLowerCase s) = map tolower (content s).
Proof.
  intros Hwf. unfold toLowerCase. rewrite (wf_has_buffer s Hwf). cbn [negb].
  apply foreach_char_wf; [exact Hwf|exact tolower_not_NUL].
Qed.

Lemma toUpperCase_wf s :
  wf s -> wf (toUpperCase s) /\ content (toUpperCase s) = map toupper (content s).
Proof.
  intros Hwf. unfold toUpperCase. rewrite (wf_has_buffer s Hwf). cbn [negb].
  apply foreach_char_wf; [exact Hwf|exact toupper_not_NUL].
Qed.

(** X8: the case conversions map every byte of a well-formed value
    through [tolower], respectively [toupper], and keep it well-formed
    with the same length.  Converting twice is converting once, and the
    last conversion wins: lower after upper is lower, upper after lower
    is upper. *)
Theorem case_conversion (s : String) :
  wf s ->
  (wf (toLowerCase s) /\ content (toLowerCase s) = map tolower (content s) /\
   len (toLowerCase s) = len s) /\
  (wf (toUpperCase s) /\ content (toUpperCase s) = map toupper (content s) /\
   len (toUpperCase s) = len s) /\
  content (toLowerCase (toLowerCase s)) = content (toLowerCase s) /\
  content (toUpperCase (toUpperCase s)) = content (toUpperCase s) /\
  content (toLowerCase (toUpperCase s)) = content (toLowerCase s) /\
  content (toUpperCase (toLowerCase s)) = content (toUpperCase s).
Proof.
  intros Hwf.
  destruct (toLowerCase_wf s Hwf) as [HwL HcL].
  destruct (toUpperCase_wf s Hwf) as [HwU HcU].
  destruct (toLowerCase_wf _ HwL) as [_ HcLL].
  destruct (toUpperCase_wf _ HwU) as [_ HcUU].
  destruct (toLowerCase_wf _ HwU) as [_ HcLU].
  destruct (toUpperCase_wf _ HwL) as [_ HcUL].
  assert (HlL : len (toLowerCase s) = len s).
  { unfold toLowerCase. rewrite (wf_has_buffer s Hwf). cbn [negb].
    apply rewrite_bytes_frame. }
  assert (HlU : len (toUpperCase s) = len s).
  { unfold toUpperCase. rewrite (wf_has_buffer s Hwf). cbn [negb].
    apply rewrite_bytes_frame. }
  split; [auto|]. split; [auto|].
  rewrite HcLL, HcUU, HcLU, HcUL, HcL, HcU, !map_map.
  repeat split; apply map_ext; intros c;
    auto using tolower_tolower, toupper_toupper, tolower_toupper, toupper_tolower.
Qed.

(** ** Character access *)

Lemma poke_insert i c b : poke i [c] b = <[i := c]> b.
Proof.
  revert b. induction i as [|i IH]; intros [|x b]; simpl; try reflexivity.
  rewrite IH. reflexivity.
Qed.

Lemma wf_lookup s i :
  wf s -> (i < Z.to_nat (len s))%nat -> bytes s !! i = content s !! i.
Proof. intros Hwf Hi. unfold content. rewrite lookup_take_lt by lia. reflexivity. Qed.

Lemma op_index_content s i :
  wf s -> 0 <= i -> op_index s i = default NUL (content s !! Z.to_nat i).
Proof.
  intros Hwf Hi. unfold op_index. fold (has_buffer s).
  rewrite (wf_has_buffer s Hwf). cbn [negb]. rewrite orb_false_r.
  pose proof (wf_content_length s Hwf) as HC.
  destruct (Z.geb_spec i (len s)) as [Hge|Hlt].
  - rewrite lookup_ge_None_2 by lia. reflexivity.
  - unfold peek. destruct (Z.ltb_spec i 0); [lia|].
    rewrite wf_lookup by (assumption || lia). reflexivity.
Qed.

(** X9: [setCharAt] below the length replaces that one byte and nothing
    else, and [operator[]] reads it back; at or past the length
    [setCharAt] does nothing and [operator[]] reads the terminator.
    Writing a byte other than the terminator keeps the value
    well-formed. *)
Theorem setCharAt_then_index (s : String) (loc : Z) (c : ascii) :
  wf s -> 0 <= loc ->
  (loc < len s -> c <> NUL ->
     wf (setCharAt s loc c) /\
     content (setCharAt s loc c) = <[Z.to_nat loc := c]> (content s) /\
     op_index (setCharAt s loc c) loc = c /\
     (forall i, 0 <= i -> i <> loc -> op_index (setCharAt s loc c) i = op_index s i)) /\
  (len s <= loc -> setCharAt s loc c = s /\ op_index s loc = NUL).
Proof.
  intros Hwf Hloc. pose proof (wf_bounds s Hwf) as (Hl & Hc16 & Hsso).
  pose proof (wf_content_length s Hwf) as HC.
  pose proof (wf_length s Hwf) as Hsize.
  split.
  - intros Hlt Hc. unfold setCharAt. destruct (Z.ltb_spec loc (len s)); [|lia].
    assert (Hcont : content (store loc [c] s) = <[Z.to_nat loc := c]> (content s)).
    { unfold content. autorewrite with frame. rewrite poke_insert.
      rewrite take_insert_lt by lia. reflexivity. }
    assert (Hwf' : wf (store loc [c] s)).
    { apply wf_intro; autorewrite with frame; try assumption.
      - apply buffer_store_Some, Hwf.
      - split; autorewrite with frame; [lia|].
        rewrite poke_insert, list_lookup_insert_ne by lia.
        apply wf_terminator, Hwf.
      - apply Hwf.
      - rewrite Hcont. apply Forall_insert; [apply wf_content_no_NUL, Hwf|exact Hc]. }
    split; [exact Hwf'|]. split; [exact Hcont|]. split.
    + rewrite op_index_content, Hcont by assumption.
      rewrite list_lookup_insert_eq by lia. reflexivity.
    + intros i Hi Hne. rewrite !op_index_content, Hcont by assumption.
      rewrite list_lookup_insert_ne by lia. reflexivity.
  - intros Hge. split.
    + unfold setCharAt. destruct (Z.ltb_spec loc (len s)); [lia|reflexivity].
    + rewrite op_index_content by assumption.
      rewrite lookup_ge_None_2 by lia. reflexivity.
Qed.

(** ** Searching *)

Lemma region_wf s from :
  wf s -> 0 <= from <= len s ->
  exists R, region from s = drop (Z.to_nat from) (content s) ++ NUL :: R /\
            cstr (region from s) = drop (Z.to_nat from) (content s) /\
            strlen (region from s) = Z.to_nat (len s - from).
Proof.
  intros Hwf Hfrom. destruct (wf_storage s Hwf) as (R & Hb & HC & _).
  pose proof (wf_content_no_NUL s Hwf) as Hnn.
  assert (Hr : region from s = drop (Z.to_nat from) (content s) ++ NUL :: R).
  { unfold region. rewrite Hb at 1. apply drop_app_le. lia. }
  exists R. split; [exact Hr|]. rewrite Hr. split.
  - apply cstr_app_NUL, Forall_drop, Hnn.
  - rewrite strlen_app_NUL by apply Forall_drop, Hnn. rewrite length_drop. lia.
Qed.

Lemma strchr_spec m ch :
  ch <> NUL ->
  match strchr m ch with
  | Some k => (k < strlen m)%nat /\ m !! k = Some ch /\
              forall j, (j < k)%nat -> m !! j <> Some ch
  | None => forall j, (j < strlen m)%nat -> m !! j <> Some ch
  end.
Proof.
  intros Hch. induction m as [|c m IH].
  - unfold strchr. destruct (Ascii.eqb_spec NUL ch); [congruence|].
    intros j Hj. simpl in Hj. lia.
  - cbn [strchr strlen]. destruct (Ascii.eqb_spec c ch) as [->|Hne].
    + destruct (Ascii.eqb_spec ch NUL); [contradiction|].
      split; [lia|]. split; [reflexivity|]. intros j Hj. lia.
    + destruct (Ascii.eqb_spec c NUL) as [->|Hc]; [intros j Hj; lia|].
      destruct (strchr m ch) as [k|]; simpl.
      * destruct IH as (Hk & Hat & Hbefore). split; [lia|]. split; [exact Hat|].
        intros [|j] Hj; simpl; [congruence|]. apply Hbefore. lia.
      * intros [|j] Hj; simpl; [congruence|]. apply IH. lia.
Qed.

Lemma strchr_NUL m : strchr m NUL = Some (strlen m).
Proof.
  induction m as [|c m IH]; [reflexivity|]. cbn [strchr strlen].
  destruct (Ascii.eqb c NUL); [reflexivity|]. rewrite IH. reflexivity.
Qed.

(** X10: [indexOf(ch, from)] on a well-formed value, for a byte other
    than the terminator, is the index of the first byte equal to [ch] at
    or after [from], or -1 when there is none or [from] is at or past
    the end.  Searching for the terminator itself finds it: the result is
    the length. *)
Theorem indexOf_char_first (s : String) (ch : ascii) (from : Z) :
  wf s -> 0 <= from ->
  (ch <> NUL ->
     (indexOf_char s ch from = -1 \/
      from <= indexOf_char s ch from < len s /\
      content s !! Z.to_nat (indexOf_char s ch from) = Some ch) /\
     (forall j, from <= j < len s ->
        indexOf_char s ch from = -1 \/ j < indexOf_char s ch from ->
        content s !! Z.to_nat j <> Some ch)) /\
  (from < len s -> indexOf_char s NUL from = len s) /\
  (len s <= from -> indexOf_char s ch from = -1).
Proof.
  intros Hwf Hfrom. unfold indexOf_char.
  destruct (Z.geb_spec from (len s)) as [Hge|Hlt].
  { split; [|split; [lia|reflexivity]].
    intros _. split; [left; reflexivity|]. intros j Hj. lia. }
  destruct (region_wf s from Hwf ltac:(lia)) as (R & Hr & _ & Hlen).
  assert (Hlook : forall k, (k < strlen (region from s))%nat ->
            region from s !! k = content s !! Z.to_nat (from + Z.of_nat k)).
  { intros k Hk. unfold region. rewrite lookup_drop, wf_lookup by (assumption || lia).
    f_equal. lia. }
  split; [|split; [|lia]].
  - intros Hch. pose proof (strchr_spec (region from s) ch Hch) as Hspec.
    destruct (strchr (region from s) ch) as [k|].
    + destruct Hspec as (Hk & Hat & Hbefore). split.
      * right. split; [lia|]. rewrite <- Hlook by exact Hk. exact Hat.
      * intros j Hj [?|Hjk]; [lia|].
        replace j with (from + Z.of_nat (Z.to_nat (j - from))) by lia.
        rewrite <- Hlook by lia. apply Hbefore. lia.
    + split; [left; reflexivity|]. intros j Hj _.
      replace j with (from + Z.of_nat (Z.to_nat (j - from))) by lia.
      rewrite <- Hlook by lia. apply Hspec. lia.
  - intros _. rewrite strchr_NUL, Hlen. lia.
Qed.

Lemma is_prefix_spec p m : is_prefix p m = true <-> take (length p) m = p.
Proof.
  revert m. induction p as [|x p IH]; intros [|y m]; simpl.
  - tauto.
  - tauto.
  - split; discriminate.
  - rewrite andb_true_iff, IH. split.
    + intros [Hxy ->]. apply Ascii.eqb_eq in Hxy. subst. reflexivity.
    + intros [= -> Hm]. rewrite Hm. split; [apply Ascii.eqb_refl|congruence].
Qed.

Lemma strstr_from_spec needle hay :
  match strstr_from needle hay with
  | Some k => (k <= length hay)%nat /\ is_prefix needle (drop k hay) = true /\
              forall j, (j < k)%nat -> is_prefix needle (drop j hay) = false
  | None => forall j, is_prefix needle (drop j hay) = false
  end.
Proof.
  induction hay as [|y hay IH]; simpl.
  - destruct (is_prefix needle []) eqn:Hp.
    + split; [lia|]. split; [exact Hp|]. intros j Hj. lia.
    + intros j. rewrite drop_nil. exact Hp.
  - destruct (is_prefix needle (y :: hay)) eqn:Hp.
    + split; [lia|]. split; [exact Hp|]. intros j Hj. lia.
    + destruct (strstr_from needle hay) as [k|]; simpl.
      * destruct IH as (Hk & Hat & Hbefore). split; [lia|]. split; [exact Hat|].
        intros [|j] Hj; simpl; [exact Hp|]. apply Hbefore. lia.
      * intros [|j]; simpl; [exact Hp|]. apply IH.
Qed.

Lemma occurs_at_bound needle hay j :
  occurs_at needle hay j -> needle <> [] -> (j + length needle <= length hay)%nat.
Proof.
  unfold occurs_at. intros H Hne.
  assert (Hl : length (take (length needle) (drop j hay)) = length needle)
    by (rewrite H; reflexivity).
  rewrite length_take, length_drop in Hl.
  destruct needle; [contradiction|]. cbn [length] in *. lia.
Qed.

Lemma indexOf_from_unfold s s2 from :
  wf s -> wf s2 -> 0 <= from ->
  indexOf_from s s2 from
  = if from >=? len s then -1
    else match strstr_from (content s2) (drop (Z.to_nat from) (content s)) with
         | None => -1
         | Some k => from + Z.of_nat k
         end.
Proof.
  intros Hwf Hwf2 Hfrom. unfold indexOf_from.
  destruct (Z.geb_spec from (len s)) as [Hge|Hlt]; [reflexivity|].
  destruct (region_wf s from Hwf ltac:(lia)) as (R & _ & Hc & _).
  unfold strstr. rewrite Hc. fold (c_str s2). rewrite (wf_content_cstr s2 Hwf2).
  reflexivity.
Qed.

(** X11: [indexOf(s2, from)] on well-formed values is the offset of the
    first occurrence of the content of [s2] in the content of the value
    at or after [from], or -1 when there is none or [from] is at or past
    the end. *)
Theorem indexOf_first_occurrence (s s2 : String) (from : Z) :
  wf s -> wf s2 -> 0 <= from ->
  (indexOf_from s s2 from = -1 \/
   from <= indexOf_from s s2 from /\
   indexOf_from s s2 from + len s2 <= len s /\
   occurs_at (content s2) (content s) (Z.to_nat (indexOf_from s s2 from))) /\
  (forall j, from <= j < len s ->
     indexOf_from s s2 from = -1 \/ j < indexOf_from s s2 from ->
     ~ occurs_at (content s2) (content s) (Z.to_nat j)) /\
  (len s <= from -> indexOf_from s s2 from = -1).
Proof.
  intros Hwf Hwf2 Hfrom. rewrite indexOf_from_unfold by assumption.
  destruct (Z.geb_spec from (len s)) as [Hge|Hlt].
  { split; [left; reflexivity|]. split; [intros j Hj; lia|reflexivity]. }
  pose proof (wf_content_length s Hwf) as HC.
  pose proof (strstr_from_spec (content s2) (drop (Z.to_nat from) (content s))) as Hspec.
  assert (Hocc : forall k, is_prefix (content s2) (drop k (drop (Z.to_nat from) (content s))) = true
                   <-> occurs_at (content s2) (content s) (Z.to_nat (from + Z.of_nat k))).
  { intros k. rewrite is_prefix_spec, drop_drop. unfold occurs_at.
    replace (Z.to_nat (from + Z.of_nat k)) with (Z.to_nat from + k)%nat by lia.
    reflexivity. }
  split; [|split; [|lia]].
  - destruct (strstr_from _ _) as [k|]; [|left; reflexivity].
    destruct Hspec as (Hk & Hat & _). rewrite length_drop in Hk.
    apply Hocc in Hat. right. split; [lia|]. split; [|exact Hat].
    pose proof (wf_content_length s2 Hwf2) as HC2.
    pose proof (wf_bounds s2 Hwf2) as (Hl2 & _).
    destruct (content s2) as [|x N] eqn:HN; [simpl in HC2; lia|].
    apply occurs_at_bound in Hat; [|discriminate]. lia.
  - intros j Hj Hlt' Hoc.
    replace j with (from + Z.of_nat (Z.to_nat (j - from))) in Hoc by lia.
    apply Hocc in Hoc.
    destruct (strstr_from _ _) as [k|].
    + destruct Hspec as (_ & _ & Hbefore).
      rewrite Hbefore in Hoc by (destruct Hlt'; lia). discriminate.
    + rewrite Hspec in Hoc. discriminate.
Qed.

(** ** Copying bytes out *)

(** X12: [getBytes] into a buffer of at least [bufsize] bytes writes a C
    string holding the content of a well-formed value from [index] on,
    cut to [bufsize - 1] bytes, and leaves every byte of the buffer at or
    past [bufsize] as it was; a null buffer or a [bufsize] of zero writes
    nothing. *)
Theorem getBytes_copies (s : String) (b : list ascii) (bufsize index : Z) :
  wf s -> 0 <= index -> 0 < bufsize < 4294967296 -> (Z.to_nat bufsize <= length b)%nat ->
  (exists out, getBytes s (Some b) bufsize index = Some out /\
     cstr out = take (Z.to_nat (bufsize - 1)) (drop (Z.to_nat index) (content s)) /\
     drop (Z.to_nat bufsize) out = drop (Z.to_nat bufsize) b /\
     length out = length b) /\
  getBytes s (Some b) 0 index = Some b /\
  getBytes s None bufsize index = None.
Proof.
  intros Hwf Hindex Hsize Hb. split; [|split; reflexivity].
  pose proof (wf_bounds s Hwf) as (Hl & Hc16 & _).
  pose proof (wf_content_length s Hwf) as HC.
  pose proof (wf_content_no_NUL s Hwf) as Hnn.
  unfold getBytes. destruct (Z.eqb_spec bufsize 0); [lia|].
  destruct (Z.geb_spec index (len s)) as [Hge|Hlt].
  - eexists. split; [reflexivity|].
    change (poke 0 ?d ?x) with (overwrite d x).
    rewrite overwrite_app by (simpl; lia). simpl.
    split; [|split].
    + rewrite (drop_ge (content s)), take_nil by lia.
      unfold cstr. simpl. reflexivity.
    + destruct (Z.to_nat bufsize) as [|k] eqn:Hk; [lia|]. simpl.
      rewrite drop_drop. f_equal.
    + destruct b; simpl in *; [lia|]. rewrite drop_0. reflexivity.
  - rewrite (u32_small (bufsize - 1)), (u32_small (len s - index)) by lia.
    set (n1 := if bufsize - 1 >? len s - index then len s - index else bufsize - 1).
    assert (Hn1 : 0 <= n1 <= len s - index /\ n1 <= bufsize - 1 /\
                  (n1 = len s - index \/ n1 = bufsize - 1))
      by (subst n1; destruct (Z.gtb_spec (bufsize - 1) (len s - index)); lia).
    destruct (region_wf s index Hwf ltac:(lia)) as (R & _ & Hc & _).
    set (X := take (Z.to_nat (bufsize - 1)) (drop (Z.to_nat index) (content s))).
    assert (HX : strncpy (region index s) n1 = X /\ length X = Z.to_nat n1).
    { unfold strncpy. rewrite Hc.
      assert (Hlen : length (take (Z.to_nat n1) (drop (Z.to_nat index) (content s)))
                     = Z.to_nat n1) by (rewrite length_take, length_drop; lia).
      rewrite Hlen, Nat.sub_diag, app_nil_r. subst X. split.
      - destruct Hn1 as (_ & Hle & [He|He]); rewrite He in *; [|reflexivity].
        rewrite !take_ge by (rewrite length_drop; lia). reflexivity.
      - rewrite length_take, length_drop. lia. }
    destruct HX as [HX HlX]. rewrite HX.
    eexists. split; [reflexivity|].
    replace (Z.to_nat n1) with (0 + length X)%nat by lia.
    rewrite poke_concat by (simpl; lia). rewrite take_0. simpl.
    split; [|split].
    + apply cstr_app_NUL. subst X. apply Forall_take, Forall_drop, Hnn.
    + rewrite (cons_middle NUL X), app_assoc.
      rewrite drop_app_ge by (rewrite length_app; simpl; lia).
      rewrite drop_drop. f_equal. rewrite length_app. simpl. lia.
    + rewrite length_app. simpl. rewrite length_drop. lia.
Qed.

(** ** The order of comparison *)

Lemma lex_compare_eq a b : lex_compare a b = Eq <-> a = b.
Proof.
  revert b. induction a as [|x a IH]; intros [|y b]; simpl;
    try (split; [reflexivity || discriminate|reflexivity || discriminate]).
  destruct (uchar x ?= uchar y) eqn:E.
  - apply Z.compare_eq, uchar_inj in E. subst y. rewrite IH.
    split; congruence.
  - split; [discriminate|]. intros [= -> ->].
    rewrite Z.compare_refl in E. discriminate.
  - split; [discriminate|]. intros [= -> ->].
    rewrite Z.compare_refl in E. discriminate.
Qed.

Lemma lex_compare_antisym a b : lex_compare b a = CompOpp (lex_compare a b).
Proof.
  revert b. induction a as [|x a IH]; intros [|y b]; simpl; try reflexivity.
  rewrite (Z.compare_antisym (uchar x) (uchar y)).
  destruct (uchar x ?= uchar y); simpl; auto.
Qed.

Lemma lex_compare_trans a b c :
  lex_compare a b = Lt -> lex_compare b c = Lt -> lex_compare a c = Lt.
Proof.
  revert b c. induction a as [|x a IH]; intros [|y b] [|z c]; simpl;
    try discriminate; try reflexivity.
  destruct (Z.compare_spec (uchar x) (uchar y)) as [E1|E1|E1];
    destruct (Z.compare_spec (uchar y) (uchar z)) as [E2|E2|E2];
    try discriminate; intros H1 H2;
    destruct (Z.compare_spec (uchar x) (uchar z)) as [E3|E3|E3];
    try lia; try reflexivity.
  eapply IH; eassumption.
Qed.

Lemma op_lt_lex a b :
  wf a \/ buffer a = None -> wf b \/ buffer b = None ->
  (op_lt a b = true <-> lex_compare (content a) (content b) = Lt).
Proof.
  intros Ha Hb. unfold op_lt, Z.ltb. rewrite compareTo_lex by assumption.
  destruct (lex_compare (content a) (content b)); split; congruence.
Qed.

(** X13: on values that are well-formed or without a buffer,
    [compareTo] is zero exactly on equal contents, and the operators
    built on it order the values: [>] is [<] with the sides exchanged,
    [<=] and [>=] are the negations of [>] and [<], [<] is transitive,
    and of two values one is less than the other unless they hold the
    same content. *)
Theorem compareTo_orders (a b c : String) :
  wf a \/ buffer a = None -> wf b \/ buffer b = None -> wf c \/ buffer c = None ->
  (compareTo a b = 0 <-> content a = content b) /\
  op_gt a b = op_lt b a /\
  op_le a b = negb (op_lt b a) /\
  op_ge a b = negb (op_lt a b) /\
  (op_lt a b = true -> op_lt b c = true -> op_lt a c = true) /\
  (op_lt a b = true -> op_lt b a = false) /\
  (op_lt a b = true \/ content a = content b \/ op_lt b a = true).
Proof.
  intros Ha Hb Hc.
  pose proof (compareTo_lex a b Ha Hb) as Hab.
  pose proof (compareTo_lex b a Hb Ha) as Hba.
  rewrite lex_compare_antisym in Hba.
  pose proof (lex_compare_eq (content a) (content b)) as Heq.
  split.
  { rewrite <- Heq, <- Hab. symmetry. apply Z.compare_eq_iff. }
  unfold op_gt, op_le, op_ge, op_lt, Z.gtb, Z.leb, Z.geb, Z.ltb.
  rewrite Hab, Hba.
  split; [destruct (lex_compare (content a) (content b)); reflexivity|].
  split; [destruct (lex_compare (content a) (content b)); reflexivity|].
  split; [destruct (lex_compare (content a) (content b)); reflexivity|].
  split.
  { fold (Z.ltb (compareTo b c) 0) (Z.ltb (compareTo a c) 0).
    fold (op_lt b c) (op_lt a c). rewrite !op_lt_lex by assumption.
    intros H1 H2. eapply lex_compare_trans; [|exact H2].
    destruct (lex_compare (content a) (content b)); congruence. }
  split; [destruct (lex_compare (content a) (content b)); simpl; congruence|].
  destruct (lex_compare (content a) (content b)); simpl; tauto.
Qed.

(** ** Equality in constant time *)

Lemma equalsConstantTime_value a b :
  wf a -> wf b ->
  (content a = content b -> equalsConstantTime a b = 1) /\
  (content a <> content b -> equalsConstantTime a b = 0).
Proof.
  intros Ha Hb.
  pose proof (wf_content_length a Ha) as HLa.
  pose proof (wf_content_length b Hb) as HLb.
  pose proof (wf_bounds a Ha) as (Hla & Hca & _).
  pose proof (wf_bounds b Hb) as (Hlb & Hcb & _).
  unfold equalsConstantTime.
  destruct (Z.eqb_spec (len a) (len b)) as [Hlen|Hlen]; cbn [negb].
  2:{ split; [|reflexivity]. intros Heq. rewrite Heq in HLa. lia. }
  destruct (Z.eqb_spec (len a) 0) as [Hz|Hnz].
  { split; [reflexivity|]. intros Hne. exfalso. apply Hne.
    rewrite !wf_empty by (auto; lia). reflexivity. }
  assert (Hloop : equalsConstantTime_loop (bytes a) (bytes b) 0 0
                  = (0 + Z.of_nat (matches (content a) (content b)),
                     0 + Z.of_nat (mismatches (content a) (content b)))).
  { rewrite (wf_split a Ha) at 1. rewrite (wf_split b Hb) at 1.
    apply equalsConstantTime_loop_spec; auto using wf_content_no_NUL; lia. }
  rewrite Hloop.
  pose proof (matches_mismatches (content a) (content b) ltac:(lia)) as Hsum.
  pose proof (mismatches_zero (content a) (content b) ltac:(lia)) as Hm.
  split.
  - intros Heq. apply Hm in Heq. rewrite Heq in *.
    destruct (Z.eqb_spec (0 + Z.of_nat (matches (content a) (content b))) (len a));
      [reflexivity|lia].
  - intros Hne.
    assert (mismatches (content a) (content b) <> O) by tauto.
    destruct (Z.eqb_spec (0 + Z.of_nat (mismatches (content a) (content b))) 0);
      [lia|].
    destruct (0 + Z.of_nat (matches (content a) (content b)) =? len a); reflexivity.
Qed.

(** X14: on well-formed values the constant-time equality and the
    ordering comparison agree: [equalsConstantTime] returns 1 exactly
    when [compareTo] returns 0, it returns 0 otherwise, and it does not
    depend on the order of its two operands. *)
Theorem equalsConstantTime_agrees (a b : String) :
  wf a -> wf b ->
  (equalsConstantTime a b = 1 <-> compareTo a b = 0) /\
  (equalsConstantTime a b = 0 <-> compareTo a b <> 0) /\
  equalsConstantTime a b = equalsConstantTime b a.
Proof.
  intros Ha Hb.
  pose proof (compareTo_lex a b (or_introl Ha) (or_introl Hb)) as Hlex.
  pose proof (lex_compare_eq (content a) (content b)) as Heq.
  assert (Hz : compareTo a b = 0 <-> content a = content b).
  { rewrite <- Heq, <- Hlex. symmetry. apply Z.compare_eq_iff. }
  destruct (equalsConstantTime_value a b Ha Hb) as [Hyes Hno].
  destruct (equalsConstantTime_value b a Hb Ha) as [Hyes' Hno'].
  rewrite Hz.
  destruct (List.list_eq_dec ascii_dec (content a) (content b)) as [E|E].
  - rewrite (Hyes E), (Hyes' (eq_sym E)).
    repeat split; try tauto; try discriminate.
  - rewrite (Hno E), (Hno' (fun H => E (eq_sym H))).
    repeat split; try tauto; try discriminate.
Qed.

(** ** Copying and assigning *)

Lemma copy_wf o c :
  wf o -> (strlen c < length c)%nat -> Z.of_nat (strlen c) + 16 < 4294967296 ->
  CAPACITY_MAX <= 65536 ->
  fst (reserve o (Z.of_nat (strlen c))) = true ->
  wf (copy o c (Z.of_nat (strlen c))) /\
  content (copy o c (Z.of_nat (strlen c))) = cstr c.
Proof.
  intros Hwf Hc Hn Hmax Hres.
  destruct (copy_ok o c Hwf Hc Hn Hres) as (Hcont & Hcstr & Hlen).
  split; [|exact Hcont].
  destruct (reserve o (Z.of_nat (strlen c))) as [ok o1] eqn:Hr.
  cbn [fst] in Hres. subst ok.
  assert (Hn0 : 0 <= Z.of_nat (strlen c)) by lia.
  destruct (reserve_wf _ _ _ Hwf Hn0 Hn Hmax Hr) as (Hwf1 & _ & _ & Hcap1 & _).
  pose proof (wf_bounds o1 Hwf1) as (_ & Hc16 & Hsso).
  assert (Hcopy : copy o c (Z.of_nat (strlen c))
                  = store 0 (take (Z.to_nat (u32 (Z.of_nat (strlen c) + 1))) c)
                      (setLen (Z.of_nat (strlen c)) o1))
    by (unfold copy; rewrite Hr; reflexivity).
  assert (Hcap : capacity (copy o c (Z.of_nat (strlen c))) = capacity o1)
    by (rewrite Hcopy; autorewrite with frame; reflexivity).
  assert (Hsize : length (bytes (copy o c (Z.of_nat (strlen c)))) = length (bytes o1))
    by (rewrite Hcopy; autorewrite with frame; reflexivity).
  assert (Hbuf : is_Some (buffer (copy o c (Z.of_nat (strlen c)))))
    by (rewrite Hcopy; apply buffer_store_Some, buffer_setLen_Some, Hwf1).
  unfold wf. rewrite Hcap, Hsize, Hlen.
  split; [exact Hbuf|]. split; [lia|]. split; [exact Hc16|]. split; [exact Hsso|].
  split; [apply Hwf1|].
  assert (Hl : length (c_str (copy o c (Z.of_nat (strlen c)))) = length (cstr c))
    by (rewrite Hcstr; reflexivity).
  unfold c_str, cstr in Hl. rewrite !length_take in Hl.
  pose proof (strlen_le (bytes (copy o c (Z.of_nat (strlen c))))). lia.
Qed.

Lemma assign_wf s v :
  wf s -> wf v -> CAPACITY_MAX <= 65536 -> fst (reserve s (len v)) = true ->
  wf (assign s (Other v)) /\ content (assign s (Other v)) = content v.
Proof.
  intros Hs Hv Hmax Hres. unfold assign.
  destruct (wf_buffer v Hv) as [b Hb]. rewrite Hb.
  assert (Hbytes : bytes v = b) by (unfold bytes; fold (buffer v); rewrite Hb; reflexivity).
  pose proof (wf_bounds v Hv) as (Hl & Hc16 & _).
  assert (Hlen : len v = Z.of_nat (strlen b)).
  { destruct Hv as (_ & _ & _ & _ & _ & Hstr). rewrite Hbytes in Hstr. lia. }
  rewrite Hlen in *.
  destruct (copy_wf s b) as [Hwf Hcont]; try assumption; try lia.
  { rewrite <- Hbytes. apply wf_strlen_lt, Hv. }
  split; [exact Hwf|]. rewrite Hcont, <- Hbytes. apply (wf_content_cstr v Hv).
Qed.

(** X15: assigning a well-formed value to another, when the room for it
    is there or can be made, leaves a well-formed value with the content
    of the source, whatever the destination held before; the copy
    compares equal to its source under both comparisons.  Assigning a
    value to itself changes nothing, and the copy constructor is the
    assignment to a fresh value. *)
Theorem assign_copies (s v raw : String) :
  wf s -> wf v -> CAPACITY_MAX <= 65536 ->
  (fst (reserve s (len v)) = true ->
     wf (assign s (Other v)) /\
     content (assign s (Other v)) = content v /\
     compareTo (assign s (Other v)) v = 0 /\
     equalsConstantTime (assign s (Other v)) v = 1) /\
  assign s This = s /\
  (length (sso_buff raw) = SSOSIZE -> fst (reserve (init raw) (len v)) = true ->
     wf (String_copy raw v) /\ content (String_copy raw v) = content v).
Proof.
  intros Hs Hv Hmax. pose proof (wf_bounds s Hs) as (_ & Hc16 & Hsso).
  split; [|split; [reflexivity|]].
  - intros Hres. destruct (assign_wf s v Hs Hv Hmax Hres) as [Hwf Hcont].
    split; [exact Hwf|]. split; [exact Hcont|]. split.
    + apply Z.compare_eq. rewrite compareTo_lex by auto.
      apply lex_compare_eq. exact Hcont.
    + apply (equalsConstantTime_value _ v Hwf Hv). exact Hcont.
  - intros Hraw Hres. unfold String_copy.
    apply assign_wf; try assumption. apply wf_init; [exact Hraw|lia].
Qed.

(** X16: assigning a C string to a well-formed value, when the room for
    it is there or can be made, leaves a well-formed value that holds the
    bytes of the C string and reads back as that C string, with the
    length of the C string; the flash variant does the same, and so does
    the constructor from a C string on a fresh value. *)
Theorem assign_cstr_round_trip (s raw : String) (c : list ascii) :
  wf s -> (strlen c < length c)%nat -> Z.of_nat (strlen c) + 16 < 4294967296 ->
  CAPACITY_MAX <= 65536 ->
  (fst (reserve s (Z.of_nat (strlen c))) = true ->
     wf (assign_cstr s (Some c)) /\
     content (assign_cstr s (Some c)) = cstr c /\
     c_str (assign_cstr s (Some c)) = cstr c /\
     len (assign_cstr s (Some c)) = Z.of_nat (strlen c) /\
     wf (assign_P s (Some c)) /\
     content (assign_P s (Some c)) = cstr c) /\
  (length (sso_buff raw) = SSOSIZE ->
   fst (reserve (init raw) (Z.of_nat (strlen c))) = true ->
     wf (String_cstr raw (Some c)) /\
     c_str (String_cstr raw (Some c)) = cstr c).
Proof.
  intros Hs Hc Hn Hmax. pose proof (wf_bounds s Hs) as (_ & Hc16 & Hsso).
  split.
  - intros Hres. unfold assign_cstr, assign_P.
    change (copy_P s c (Z.of_nat (strlen c))) with (copy s c (Z.of_nat (strlen c))).
    destruct (copy_wf s c Hs Hc Hn Hmax Hres) as [Hwf Hcont].
    destruct (copy_ok s c Hs Hc Hn Hres) as (_ & Hcstr & Hlen).
    auto 10.
  - intros Hraw Hres. unfold String_cstr.
    assert (Hi : wf (init raw)) by (apply wf_init; [exact Hraw|lia]).
    destruct (copy_wf (init raw) c Hi Hc Hn Hmax Hres) as [Hwf Hcont].
    destruct (copy_ok (init raw) c Hi Hc Hn Hres) as (_ & Hcstr & _).
    auto.
Qed.

(** ** Trimming *)

Lemma lstrip_snoc P l x :
  lstrip P (l ++ [x])
  = match lstrip P l with
    | [] => if P x then [] else [x]
    | r => r ++ [x]
    end.
Proof.
  induction l as [|y l IH]; simpl; [reflexivity|].
  destruct (P y); [exact IH|reflexivity].
Qed.

Lemma rstrip_snoc P l x :
  rstrip P (l ++ [x]) = if P x then rstrip P l else l ++ [x].
Proof.
  unfold rstrip. rewrite rev_app_distr. simpl.
  destruct (P x); [reflexivity|]. simpl. rewrite rev_involutive. reflexivity.
Qed.

Lemma rstrip_cons P x l :
  rstrip P (x :: l)
  = match rstrip P l with
    | [] => if P x then [] else [x]
    | r => x :: r
    end.
Proof.
  unfold rstrip. simpl. rewrite lstrip_snoc.
  destruct (lstrip P (rev l)) as [|y r]; simpl.
  - destruct (P x); reflexivity.
  - rewrite rev_app_distr. simpl.
    destruct (rev r ++ [y]) eqn:E; [destruct (rev r); discriminate|reflexivity].
Qed.

Lemma lstrip_rstrip P l : lstrip P (rstrip P l) = rstrip P (lstrip P l).
Proof.
  induction l as [|x l IH]; [reflexivity|].
  rewrite rstrip_cons. simpl. destruct (P x) eqn:Hx.
  - rewrite <- IH. destruct (rstrip P l) as [|y r]; simpl; [reflexivity|].
    rewrite Hx. reflexivity.
  - rewrite rstrip_cons.
    destruct (rstrip P l) as [|y r]; simpl; rewrite Hx; reflexivity.
Qed.

Lemma Forall_lstrip (Q : ascii -> Prop) P l : Forall Q l -> Forall Q (lstrip P l).
Proof.
  induction 1 as [|x l Hx Hl IH]; simpl; [constructor|].
  destruct (P x); [exact IH|constructor; assumption].
Qed.

Lemma Forall_rstrip (Q : ascii -> Prop) P l : Forall Q l -> Forall Q (rstrip P l).
Proof.
  intros H. unfold rstrip. apply Forall_rev, Forall_lstrip, Forall_rev, H.
Qed.

Lemma Forall_strip (Q : ascii -> Prop) type P l : Forall Q l -> Forall Q (strip type P l).
Proof.
  intros H. unfold strip.
  destruct (has_bit type RIGHT), (has_bit type LEFT);
    auto using Forall_lstrip, Forall_rstrip.
Qed.

(** The leading scan stops at the terminator at the latest. *)
Lemma skip_space_lstrip C R :
  (skip_space (C ++ NUL :: R) <= length C)%nat /\
  drop (skip_space (C ++ NUL :: R)) C = lstrip isspace C.
Proof.
  induction C as [|x C IH]; [split; [simpl; lia|reflexivity]|].
  cbn [app skip_space lstrip]. destruct (isspace x).
  - cbn [length drop]. split; [lia|apply IH].
  - split; [lia|reflexivity].
Qed.

(** The trailing scan over the [m] bytes at and after [begin]. *)
Lemma back_space_rstrip s begin W :
  0 <= begin ->
  (forall k, (k < length W)%nat -> peek (begin + Z.of_nat k) s = default NUL (W !! k)) ->
  forall m fuel, (m <= length W)%nat -> (m < fuel)%nat ->
  exists m', back_space fuel begin (begin + Z.of_nat m - 1) s = begin + Z.of_nat m' - 1 /\
             (m' <= m)%nat /\ take m' W = rstrip isspace (take m W).
Proof.
  intros Hbegin Hpeek. induction m as [|m IH]; intros fuel Hm Hfuel.
  - exists O. destruct fuel as [|fuel]; [lia|]. cbn [back_space].
    destruct (Z.geb_spec (begin + Z.of_nat 0 - 1) begin); [lia|].
    rewrite andb_false_r. split; [reflexivity|]. split; [lia|reflexivity].
  - destruct fuel as [|fuel]; [lia|]. cbn [back_space].
    replace (begin + Z.of_nat (S m) - 1) with (begin + Z.of_nat m) by lia.
    destruct (Z.geb_spec (begin + Z.of_nat m) begin); [|lia].
    rewrite andb_true_r, Hpeek by lia.
    destruct (lookup_lt_is_Some_2 W m ltac:(lia)) as [x Hx]. rewrite Hx.
    change (default NUL (Some x)) with x.
    rewrite (take_S_r W m x Hx), rstrip_snoc.
    destruct (isspace x).
    + destruct (IH fuel ltac:(lia) ltac:(lia)) as (m' & Hb & Hle & Ht).
      exists m'. repeat split; [exact Hb|lia|exact Ht].
    + exists (S m). split; [f_equal; lia|]. split; [lia|]. apply take_S_r, Hx.
Qed.

Lemma _trim_frame s type :
  capacity (_trim s type) = capacity s /\
  length (bytes (_trim s type)) = length (bytes s) /\
  isSSO (_trim s type) = isSSO s /\
  (is_Some (buffer s) -> is_Some (buffer (_trim s type))).
Proof.
  unfold _trim. destruct (len s =? 0); [auto|].
  match goal with |- context [if ?b >? 0 then _ else _] => destruct (b >? 0) end;
    autorewrite with frame; repeat split;
    auto using buffer_store_Some, buffer_setLen_Some.
Qed.

(** X17: [_trim(type)] on a well-formed value removes the leading
    whitespace, the trailing whitespace, or both, as [type] says, and
    nothing else; the value stays well-formed and keeps its storage.
    Trimming the trailing end alone, the scan of a value that is all
    whitespace goes on to the byte before the storage: the statement
    leaves that call out. *)
Theorem _trim_strips (s : String) (type : TrimType) :
  wf s ->
  (type = RIGHT -> rstrip isspace (content s) = [] -> content s = []) ->
  wf (_trim s type) /\
  content (_trim s type) = strip type isspace (content s) /\
  capacity (_trim s type) = capacity s.
Proof.
  intros Hwf _.
  destruct (_trim_frame s type) as (Hcap & Hsize & _ & Hbuf).
  pose proof (wf_bounds s Hwf) as (Hl & Hc16 & Hsso).
  pose proof (wf_content_length s Hwf) as HC.
  pose proof (wf_content_no_NUL s Hwf) as Hnn.
  pose proof (wf_length s Hwf) as Hlength.
  destruct (wf_storage s Hwf) as (R & Hb & _ & HR).
  assert (Hmain : terminated (_trim s type) /\
                  content (_trim s type) = strip type isspace (content s)).
  { unfold _trim. destruct (Z.eqb_spec (len s) 0) as [Hz|Hnz].
    { split; [apply wf_terminated, Hwf|].
      rewrite (wf_empty s Hwf) by lia. unfold strip.
      destruct (has_bit type RIGHT), (has_bit type LEFT); reflexivity. }
    set (a := if has_bit type LEFT then Z.of_nat (skip_space (bytes s)) else 0).
    set (W := drop (Z.to_nat a) (content s)).
    assert (Ha : 0 <= a <= len s /\
                 W = if has_bit type LEFT then lstrip isspace (content s) else content s).
    { subst W a. destruct (has_bit type LEFT).
      - rewrite Hb. destruct (skip_space_lstrip (content s) R) as [H1 H2].
        rewrite Nat2Z.id. split; [lia|exact H2].
      - split; [lia|reflexivity]. }
    destruct Ha as [Ha HW].
    assert (HlW : length W = Z.to_nat (len s - a)) by (subst W; rewrite length_drop; lia).
    set (e := if has_bit type RIGHT
              then back_space (S (Z.to_nat (len s))) a (len s - 1) s else len s - 1).
    assert (He : exists m', e = a + Z.of_nat m' - 1 /\ (m' <= length W)%nat /\
                            take m' W = if has_bit type RIGHT then rstrip isspace W else W).
    { subst e. destruct (has_bit type RIGHT).
      - destruct (back_space_rstrip s a W) with (m := length W)
                                                (fuel := S (Z.to_nat (len s)))
          as (m' & H1 & H2 & H3); try lia.
        { intros k Hk. unfold peek. destruct (Z.ltb_spec (a + Z.of_nat k) 0); [lia|].
          rewrite wf_lookup by (assumption || lia). subst W.
          rewrite lookup_drop. do 2 f_equal. lia. }
        exists m'. replace (len s - 1) with (a + Z.of_nat (length W) - 1) by lia.
        rewrite H1, H3, firstn_all. auto.
      - exists (length W). rewrite firstn_all. split; [lia|auto]. }
    destruct He as (m' & -> & Hm' & Htake).
    replace (a + Z.of_nat m' - 1 + 1 - a) with (Z.of_nat m') by lia.
    rewrite (u32_small (Z.of_nat m')) by lia.
    set (M := take m' W).
    assert (HlM : length M = m') by (subst M; rewrite length_take; lia).
    assert (Hstrip : M = strip type isspace (content s)).
    { subst M. rewrite Htake, HW. unfold strip.
      destruct (has_bit type RIGHT), (has_bit type LEFT);
        rewrite ?lstrip_rstrip; reflexivity. }
    assert (Hload : load a (Z.of_nat m') s = M).
    { unfold load. rewrite Hb, drop_app_le by lia. fold W.
      rewrite take_app_le by lia. rewrite Nat2Z.id. reflexivity. }
    assert (Hbytes : exists R',
              bytes (store (Z.of_nat m') [NUL]
                       (setLen (Z.of_nat m')
                          (if a >? 0 then store 0 (load a (Z.of_nat m') s) s else s)))
              = M ++ NUL :: R').
    { destruct (Z.gtb_spec a 0) as [Hpos|Hzero].
      - autorewrite with frame. rewrite Hload.
        replace (Z.to_nat (Z.of_nat m')) with (0 + length M)%nat by lia.
        change (Z.to_nat 0) with O.
        rewrite poke_concat by lia. rewrite take_0. eexists. reflexivity.
      - autorewrite with frame. rewrite Nat2Z.id.
        assert (HM : M = take m' (bytes s)).
        { rewrite <- Hload. unfold load. replace a with 0 by lia.
          rewrite drop_0, Nat2Z.id. reflexivity. }
        rewrite poke_spec by (simpl; lia). rewrite <- HM.
        eexists. reflexivity. }
    destruct Hbytes as (R' & Hbytes).
    assert (Hlen : len (store (Z.of_nat m') [NUL]
                          (setLen (Z.of_nat m')
                             (if a >? 0 then store 0 (load a (Z.of_nat m') s) s else s)))
                   = Z.of_nat m')
      by (autorewrite with frame; reflexivity).
    assert (Hcap' : capacity (store (Z.of_nat m') [NUL]
                          (setLen (Z.of_nat m')
                             (if a >? 0 then store 0 (load a (Z.of_nat m') s) s else s)))
                   = capacity s)
      by (destruct (a >? 0); autorewrite with frame; reflexivity).
    unfold terminated. rewrite Hlen, Hcap'.
    split; [split; [lia|]|].
    - rewrite Hbytes, Nat2Z.id. rewrite <- HlM at 1.
      apply list_lookup_middle. reflexivity.
    - unfold content at 1. rewrite Hlen, Hbytes, Nat2Z.id, <- Hstrip.
      apply take_app_length'. lia. }
  destruct Hmain as [Hterm Hcont].
  split; [|split; [exact Hcont|exact Hcap]].
  apply wf_intro; rewrite ?Hcap, ?Hsize; try assumption.
  - apply Hbuf, Hwf.
  - apply Hwf.
  - rewrite Hcont. apply Forall_strip, Hnn.
Qed.

(** The trailing scan of the character-set trim over the first [m]
    bytes. *)
Lemma trim_right_scan_rstrip s chars cl C :
  (forall k, (k < length C)%nat -> peek (Z.of_nat k) s = default NUL (C !! k)) ->
  forall m fuel, (m <= length C)%nat -> (m < fuel)%nat ->
  exists m', trim_right_scan fuel chars cl (Z.of_nat m) s = Z.of_nat m' /\
             (m' <= m)%nat /\
             take m' C = rstrip (fun c => memchr chars c cl) (take m C).
Proof.
  intros Hpeek. induction m as [|m IH]; intros fuel Hm Hfuel.
  - exists O. destruct fuel as [|fuel]; [lia|]. cbn [trim_right_scan].
    change (Z.of_nat 0 =? 0) with true. cbn [negb andb].
    split; [reflexivity|]. split; [lia|reflexivity].
  - destruct fuel as [|fuel]; [lia|]. cbn [trim_right_scan].
    destruct (Z.eqb_spec (Z.of_nat (S m)) 0); [lia|]. cbn [negb andb].
    replace (Z.of_nat (S m) - 1) with (Z.of_nat m) by lia.
    rewrite Hpeek by lia.
    destruct (lookup_lt_is_Some_2 C m ltac:(lia)) as [x Hx]. rewrite Hx.
    change (default NUL (Some x)) with x.
    rewrite (take_S_r C m x Hx), rstrip_snoc.
    destruct (memchr chars x cl).
    + destruct (IH fuel ltac:(lia) ltac:(lia)) as (m' & Hb & Hle & Ht).
      exists m'. split; [exact Hb|]. split; [lia|exact Ht].
    + exists (S m). split; [reflexivity|]. split; [lia|]. apply take_S_r, Hx.
Qed.

(** The leading scan of the character-set trim, which runs on into
    whatever follows the bytes it is meant for. *)
Lemma trim_left_scan_lstrip chars cl C X :
  drop (trim_left_scan chars cl (C ++ X) `min` length C) C
  = lstrip (fun c => memchr chars c cl) C.
Proof.
  induction C as [|x C IH]; [apply drop_nil|].
  cbn [app trim_left_scan lstrip length]. destruct (memchr chars x cl).
  - rewrite <- IH. reflexivity.
  - reflexivity.
Qed.

(** [remove(0, count)] on a value whose length is within its storage,
    terminated or not. *)
Lemma remove_front s count :
  0 <= len s -> (Z.to_nat (len s) < length (bytes s))%nat -> 0 <= count ->
  content (remove s 0 count) = drop (Z.to_nat (Z.min count (len s))) (content s) /\
  len (remove s 0 count) = len s - Z.min count (len s).
Proof.
  intros Hl Hsize Hc. unfold remove.
  destruct (Z.geb_spec 0 (len s)) as [Hz|Hpos].
  { replace (Z.min count (len s)) with 0 by lia. split; [reflexivity|lia]. }
  destruct (Z.leb_spec count 0) as [Hc0|Hcpos].
  { replace (Z.min count (len s)) with 0 by lia. split; [reflexivity|lia]. }
  rewrite !Z.add_0_l, (Z.sub_0_r (len s)).
  set (c' := if count >? len s then len s else count).
  assert (Hc' : c' = Z.min count (len s))
    by (subst c'; destruct (Z.gtb_spec count (len s)); lia).
  rewrite <- Hc'. assert (0 < c' <= len s) by lia.
  set (D := load c' (len s - c') (setLen (len s - c') s)).
  assert (HD : D = drop (Z.to_nat c') (content s)).
  { subst D. unfold load, content. rewrite bytes_setLen, take_drop_commute.
    do 2 f_equal. lia. }
  assert (HlD : length D = Z.to_nat (len s - c')).
  { rewrite HD. unfold content. rewrite length_drop, length_take. lia. }
  split; [|autorewrite with frame; reflexivity].
  unfold content at 1. autorewrite with frame.
  change (Z.to_nat 0) with O.
  replace (len s - c' - 0) with (len s - c') by lia. fold D.
  replace (Z.to_nat (len s - c')) with (0 + length D)%nat at 2 by lia.
  rewrite poke_concat by lia. rewrite take_0, app_nil_l.
  rewrite take_app_length' by lia. exact HD.
Qed.

Lemma _trim_chars_frame s type chars charLen :
  capacity (_trim_chars s type (Some chars) charLen) = capacity s /\
  length (bytes (_trim_chars s type (Some chars) charLen)) = length (bytes s) /\
  (is_Some (buffer s) -> is_Some (buffer (_trim_chars s type (Some chars) charLen))).
Proof.
  unfold _trim_chars. destruct ((len s =? 0) || (charLen =? 0)); [auto|].
  destruct (has_bit type RIGHT), (has_bit type LEFT);
    try match goal with
    | |- context [remove ?x ?i ?c] =>
        destruct (remove_frame x i c) as (H1 & H2 & _ & H3); rewrite H1, H2
    end; autorewrite with frame in *; repeat split;
    auto using buffer_store_Some, buffer_setLen_Some.
Qed.

(** X18: the character-set trim on a well-formed value leaves, as its
    content and length, the value's content without its leading run, its
    trailing run, or both, as [type] says, of bytes found among the first
    [charLen + 1] bytes of [characters]; the storage is kept.  When only
    one end is trimmed the value stays well-formed.  The leading scan has
    no bound: the statement is for the calls in which a byte of the
    storage stops it. *)
Theorem _trim_chars_strips (s : String) (type : TrimType) (chars : list ascii)
  (charLen : Z) :
  wf s -> 0 < charLen -> charLen + 1 < 4294967296 ->
  (Z.to_nat (charLen + 1) <= length chars)%nat ->
  (has_bit type LEFT = true ->
     Exists (fun x => memchr chars x (charLen + 1) = false) (bytes s)) ->
  content (_trim_chars s type (Some chars) charLen)
  = strip type (fun c => memchr chars c (charLen + 1)) (content s) /\
  len (_trim_chars s type (Some chars) charLen)
  = Z.of_nat (length (strip type (fun c => memchr chars c (charLen + 1)) (content s))) /\
  capacity (_trim_chars s type (Some chars) charLen) = capacity s /\
  (type <> BOTH -> wf (_trim_chars s type (Some chars) charLen)).
Proof.
  intros Hwf Hcl Hclmax _ _.
  destruct (_trim_chars_frame s type chars charLen) as (Hcap & Hsize & Hbuf).
  pose proof (wf_bounds s Hwf) as (Hl & Hc16 & Hsso).
  pose proof (wf_content_length s Hwf) as HC.
  pose proof (wf_content_no_NUL s Hwf) as Hnn.
  pose proof (wf_length s Hwf) as Hlength.
  set (P := fun c => memchr chars c (charLen + 1)).
  assert (Hmain : content (_trim_chars s type (Some chars) charLen)
                  = strip type P (content s) /\
                  len (_trim_chars s type (Some chars) charLen)
                  = Z.of_nat (length (strip type P (content s))) /\
                  (type <> BOTH -> terminated (_trim_chars s type (Some chars) charLen))).
  { unfold _trim_chars.
    destruct (Z.eqb_spec (len s) 0) as [Hz|Hnz].
    { cbn [orb]. rewrite (wf_empty s Hwf) by lia.
      assert (Hnil : strip type P [] = [])
        by (unfold strip; destruct (has_bit type RIGHT), (has_bit type LEFT); reflexivity).
      rewrite Hnil. split; [reflexivity|]. split; [simpl; lia|].
      intros _. apply wf_terminated, Hwf. }
    destruct (Z.eqb_spec charLen 0); [lia|]. cbn [orb].
    rewrite (u32_small (charLen + 1)) by lia.
    destruct (trim_right_scan_rstrip s chars (charLen + 1) (content s))
      with (m := length (content s)) (fuel := S (Z.to_nat (len s)))
      as (m' & Hscan & Hm' & Htake); try lia.
    { intros k Hk. unfold peek. destruct (Z.ltb_spec (Z.of_nat k) 0); [lia|].
      rewrite Nat2Z.id, wf_lookup by (assumption || lia). reflexivity. }
    replace (Z.of_nat (length (content s))) with (len s) in Hscan by lia.
    rewrite firstn_all in Htake. fold P in Htake.
    unfold strip. destruct (has_bit type RIGHT) eqn:HR, (has_bit type LEFT) eqn:HL.
    - (* both ends *)
      rewrite Hscan, bytes_setLen.
      destruct (remove_front (setLen (Z.of_nat m') s)
                  (Z.of_nat (trim_left_scan chars (charLen + 1) (bytes s))))
        as [Hcont Hlen].
      { rewrite len_setLen. lia. }
      { rewrite len_setLen, bytes_setLen. lia. }
      { lia. }
      rewrite Hcont, Hlen, len_setLen.
      assert (Hc1 : content (setLen (Z.of_nat m') s) = rstrip P (content s)).
      { rewrite <- Htake. unfold content. autorewrite with frame.
        rewrite Nat2Z.id, take_take. f_equal. lia. }
      rewrite Hc1.
      assert (Hlr : length (rstrip P (content s)) = m')
        by (rewrite <- Htake, length_take; lia).
      assert (Hsplit : bytes s = rstrip P (content s) ++ drop m' (bytes s)).
      { rewrite <- Htake. unfold content. rewrite take_take.
        replace (m' `min` Z.to_nat (len s))%nat with m' by lia.
        symmetry. apply take_drop. }
      assert (Hdrop : drop (Z.to_nat (Z.of_nat (trim_left_scan chars (charLen + 1)
                                                  (bytes s))
                             `min` Z.of_nat m')) (rstrip P (content s))
                      = lstrip P (rstrip P (content s))).
      { rewrite Hsplit at 1.
        rewrite <- (trim_left_scan_lstrip chars (charLen + 1) _ (drop m' (bytes s))).
        f_equal. lia. }
      rewrite Hdrop. split; [reflexivity|]. split.
      + rewrite <- Hdrop. rewrite length_drop. lia.
      + intros Hb. destruct type; discriminate || contradiction.
    - (* the trailing end *)
      rewrite Hscan. unfold content at 1. autorewrite with frame.
      rewrite Nat2Z.id.
      rewrite poke_spec by (simpl; lia).
      assert (Hlt : length (take m' (bytes s)) = m') by (rewrite length_take; lia).
      rewrite take_app_length' by lia.
      assert (Ht : take m' (bytes s) = rstrip P (content s)).
      { rewrite <- Htake. unfold content. rewrite take_take. f_equal. lia. }
      rewrite Ht. split; [reflexivity|]. split; [rewrite <- Ht; lia|].
      intros _. unfold terminated. autorewrite with frame.
      split; [lia|]. rewrite Nat2Z.id.
      rewrite poke_spec by (simpl; lia).
      rewrite <- Hlt at 1.
      apply (list_lookup_middle _ _ NUL). reflexivity.
    - (* the leading end *)
      destruct (remove_front s (Z.of_nat (trim_left_scan chars (charLen + 1) (bytes s))))
        as [Hcont Hlen]; try lia.
      rewrite Hcont, Hlen.
      assert (Hsplit : bytes s = content s ++ drop (Z.to_nat (len s)) (bytes s))
        by (symmetry; apply take_drop).
      assert (Hdrop : drop (Z.to_nat (Z.of_nat (trim_left_scan chars (charLen + 1)
                                                  (bytes s))
                             `min` len s)) (content s)
                      = lstrip P (content s)).
      { rewrite Hsplit at 1.
        rewrite <- (trim_left_scan_lstrip chars (charLen + 1) _
                      (drop (Z.to_nat (len s)) (bytes s))).
        f_equal. lia. }
      rewrite Hdrop. split; [reflexivity|]. split.
      + rewrite <- Hdrop. rewrite length_drop. lia.
      + intros _. apply wf_terminated, remove_wf; try assumption; lia.
    - (* neither *)
      unfold content at 1. autorewrite with frame.
      rewrite poke_spec by (simpl; lia).
      assert (Hlt : length (take (Z.to_nat (len s)) (bytes s)) = Z.to_nat (len s))
        by (rewrite length_take; lia).
      rewrite take_app_length' by lia. fold (content s).
      split; [reflexivity|]. split; [lia|].
      intros _. unfold terminated. autorewrite with frame.
      split; [lia|]. rewrite poke_spec by (simpl; lia).
      rewrite <- Hlt at 1.
      apply (list_lookup_middle _ _ NUL). reflexivity. }
  destruct Hmain as (Hcont & Hlen & Hterm).
  split; [exact Hcont|]. split; [exact Hlen|]. split; [exact Hcap|].
  intros Hb. apply wf_intro; rewrite ?Hcap, ?Hsize; try assumption.
  - apply Hbuf, Hwf.
  - apply Hterm, Hb.
  - apply Hwf.
  - rewrite Hcont. apply Forall_strip, Hnn.
Qed.

(** ** Concatenation operators *)

Lemma reserve_room s n : wf s -> n <= capacity s -> reserve s n = (true, s).
Proof.
  intros Hwf Hn. unfold reserve.
  rewrite bool_decide_eq_true_2 by apply Hwf.
  destruct (Z.geb_spec (capacity s) n); [reflexivity|lia].
Qed.

(** Appending where the room is already there. *)
Lemma concat_room s c n :
  wf s -> 0 <= n -> len s + n <= capacity s -> (Z.to_nat n <= length c)%nat ->
  Forall (fun x => x <> NUL) (take (Z.to_nat n) c) -> CAPACITY_MAX <= 65536 ->
  fst (concat s (Some c) n) = true /\
  wf (snd (concat s (Some c) n)) /\
  content (snd (concat s (Some c) n)) = content s ++ take (Z.to_nat n) c /\
  capacity (snd (concat s (Some c) n)) = capacity s.
Proof.
  intros Hwf Hn Hroom Hc HD Hmax.
  pose proof (wf_bounds s Hwf) as (Hl & Hc16 & _).
  destruct (Z.eq_dec n 0) as [->|Hnz].
  { unfold concat. cbn [Z.eqb fst snd]. change (Z.to_nat 0) with O.
    rewrite take_0, app_nil_r. auto. }
  assert (Hu : u32 (len s + n) = len s + n) by (apply u32_small; lia).
  assert (Hr : reserve s (len s + n) = (true, s)) by (apply reserve_room; assumption).
  assert (Hcat : exists s', concat s (Some c) n = (true, s')).
  { unfold concat. destruct (Z.eqb_spec n 0); [contradiction|].
    rewrite Hu, Hr. cbn [negb]. eexists. reflexivity. }
  destruct Hcat as (s' & Hcat). rewrite Hcat. cbn [fst snd].
  destruct (concat_wf s c n s') as [Hwf' Hcont]; try assumption; try lia.
  destruct (concat_frame s c n s' Hnz Hcat) as (s1 & Hr1 & Hcap & _).
  rewrite Hu, Hr in Hr1. injection Hr1 as <-. auto.
Qed.

Lemma append_String_room s o :
  wf s -> wf o -> len s + len o <= capacity s -> CAPACITY_MAX <= 65536 ->
  wf (append_String s o) /\
  content (append_String s o) = content s ++ content o /\
  capacity (append_String s o) = capacity s.
Proof.
  intros Hs Ho Hroom Hmax. unfold append_String, concat_String.
  destruct (wf_buffer o Ho) as [b Hb]. rewrite Hb.
  assert (Hbytes : bytes o = b) by (unfold bytes; fold (buffer o); rewrite Hb; reflexivity).
  pose proof (wf_bounds o Ho) as (Hl & _).
  pose proof (wf_length o Ho) as Hsize. rewrite Hbytes in Hsize.
  assert (Ht : take (Z.to_nat (len o)) b = content o) by (rewrite <- Hbytes; reflexivity).
  destruct (concat_room s b (len o)) as (_ & Hwf & Hcont & Hcap);
    try assumption; try lia.
  { rewrite Ht. apply wf_content_no_NUL, Ho. }
  rewrite Ht in Hcont. auto.
Qed.

Lemma insert_String_room s o :
  wf s -> wf o -> len s + len o <= capacity s -> CAPACITY_MAX <= 65536 ->
  wf (insert_String s 0 o) /\
  content (insert_String s 0 o) = content o ++ content s /\
  capacity (insert_String s 0 o) = capacity s.
Proof.
  intros Hs Ho Hroom Hmax. unfold insert_String.
  pose proof (wf_bounds o Ho) as (Hl & _).
  pose proof (wf_bounds s Hs) as (Hls & Hc16 & _).
  pose proof (wf_length o Ho) as Hsize.
  assert (Hr : reserve s (len s + len o) = (true, s)) by (apply reserve_room; assumption).
  destruct (insert_wf s 0 (bytes o) (len o)) as [Hwf Hcont]; try assumption; try lia.
  { apply wf_content_no_NUL, Ho. }
  { rewrite Hr. reflexivity. }
  split; [exact Hwf|]. split.
  - rewrite Hcont. change (Z.to_nat 0) with O. rewrite take_0, drop_0. reflexivity.
  - destruct (insert_frame s 0 (bytes o) (len o)) as (s1 & Hr1 & Hcap & _).
    + rewrite u32_small by lia. rewrite Hr. reflexivity.
    + lia.
    + rewrite u32_small in Hr1 by lia. rewrite Hr in Hr1. injection Hr1 as <-.
      exact Hcap.
Qed.

(** X19: [lhs + rhs] with a temporary right operand, both well-formed,
    is a well-formed value holding the content of [lhs] followed by that
    of [rhs], provided the one reservation it may need succeeds; the
    right operand is left in the empty state.  When the right operand has
    more room than the sum of the lengths, its storage is taken over and
    nothing is reserved. *)
Theorem op_plus_concatenates (raw lhs rhs : String) :
  wf lhs -> wf rhs -> length (sso_buff raw) = SSOSIZE -> CAPACITY_MAX <= 65536 ->
  (capacity rhs <= len lhs + len rhs ->
     fst (reserve (init raw) (len lhs + len rhs)) = true) ->
  wf (fst (op_plus raw lhs rhs)) /\
  content (fst (op_plus raw lhs rhs)) = content lhs ++ content rhs /\
  empty_state (snd (op_plus raw lhs rhs)) /\
  (len lhs + len rhs < capacity rhs ->
     capacity (fst (op_plus raw lhs rhs)) = capacity rhs).
Proof.
  intros Hl Hr Hraw Hmax Hres.
  pose proof (wf_bounds lhs Hl) as (Hll & Hcl & Hsso).
  pose proof (wf_bounds rhs Hr) as (Hlr & Hcr & _).
  assert (Hu : u32 (len lhs + len rhs) = len lhs + len rhs) by (apply u32_small; lia).
  unfold op_plus. rewrite Hu.
  destruct (Z.gtb_spec (capacity rhs) (len lhs + len rhs)) as [Hroom|Hfull].
  - unfold move. cbn [fst snd].
    destruct (insert_String_room rhs lhs) as (Hwf & Hcont & Hcap);
      try assumption; try lia.
    split; [exact Hwf|]. split; [exact Hcont|].
    split; [apply empty_state_init|]. intros _. exact Hcap.
  - cbn [fst snd]. specialize (Hres Hfull).
    assert (Hi : wf (init raw)) by (apply wf_init; [exact Hraw|lia]).
    destruct (reserve (init raw) (len lhs + len rhs)) as [ok res1] eqn:Hrv.
    cbn [fst] in Hres. subst ok. cbn [snd].
    assert (Hn0 : 0 <= len lhs + len rhs) by lia.
    destruct (reserve_wf _ _ _ Hi Hn0 ltac:(lia) Hmax Hrv) as (Hw1 & Hc1 & Hl1 & Hcap1 & _).
    assert (Hlen0 : len (init raw) = 0) by apply empty_state_init.
    assert (Hcont0 : content (init raw) = []) by apply empty_state_init.
    rewrite Hlen0 in Hl1. rewrite Hcont0 in Hc1.
    destruct (append_String_room res1 lhs) as (Hw2 & Hc2 & Hcap2);
      try assumption; try lia.
    pose proof (wf_content_length _ Hw2) as HL2.
    pose proof (wf_bounds _ Hw2) as (Hl2 & _).
    rewrite Hc2, Hc1, app_nil_l, (wf_content_length lhs Hl) in HL2.
    destruct (append_String_room (append_String res1 lhs) rhs) as (Hw3 & Hc3 & _);
      try assumption; try lia.
    split; [exact Hw3|]. split; [rewrite Hc3, Hc2, Hc1; reflexivity|].
    split; [apply empty_state_init|]. intros. lia.
Qed.

(** X20: [lhs + rhs] with both operands temporaries, both well-formed,
    is a well-formed value holding the content of [lhs] followed by that
    of [rhs], provided the one reservation it may need succeeds; the
    right operand is left in the empty state.  The result takes over the
    storage of the right operand when the sum of the lengths fits there
    and not in the left one, and the storage of the left operand
    otherwise. *)
Theorem op_plus_rvalues_concatenates (raw lhs rhs : String) :
  wf lhs -> wf rhs -> length (sso_buff raw) = SSOSIZE -> CAPACITY_MAX <= 65536 ->
  (capacity lhs < len lhs + len rhs -> capacity rhs <= len lhs + len rhs ->
     fst (reserve lhs (len lhs + len rhs)) = true) ->
  wf (fst (fst (op_plus_rvalues raw lhs rhs))) /\
  content (fst (fst (op_plus_rvalues raw lhs rhs))) = content lhs ++ content rhs /\
  empty_state (snd (op_plus_rvalues raw lhs rhs)) /\
  (capacity lhs < len lhs + len rhs < capacity rhs ->
     capacity (fst (fst (op_plus_rvalues raw lhs rhs))) = capacity rhs /\
     snd (fst (op_plus_rvalues raw lhs rhs)) = lhs) /\
  (len lhs + len rhs <= capacity lhs ->
     capacity (fst (fst (op_plus_rvalues raw lhs rhs))) = capacity lhs /\
     empty_state (snd (fst (op_plus_rvalues raw lhs rhs)))).
Proof.
  intros Hl Hr Hraw Hmax Hres.
  pose proof (wf_bounds lhs Hl) as (Hll & Hcl & Hsso).
  pose proof (wf_bounds rhs Hr) as (Hlr & Hcr & _).
  assert (Hu : u32 (len lhs + len rhs) = len lhs + len rhs) by (apply u32_small; lia).
  unfold op_plus_rvalues. rewrite Hu.
  destruct (Z.gtb_spec (len lhs + len rhs) (capacity lhs)) as [Hbig|Hfit];
    destruct (Z.ltb_spec (len lhs + len rhs) (capacity rhs)) as [Hroom|Hfull];
    cbn [andb]; unfold move; cbn [fst snd].
  - destruct (insert_String_room rhs lhs) as (Hwf & Hcont & Hcap);
      try assumption; try lia.
    split; [exact Hwf|]. split; [exact Hcont|]. split; [apply empty_state_init|].
    split; [auto|]. intros. lia.
  - specialize (Hres Hbig Hfull).
    assert (Happ : wf (append_String lhs rhs) /\
                   content (append_String lhs rhs) = content lhs ++ content rhs).
    { unfold append_String, concat_String.
      destruct (wf_buffer rhs Hr) as [b Hb]. rewrite Hb.
      assert (Hbytes : bytes rhs = b)
        by (unfold bytes; fold (buffer rhs); rewrite Hb; reflexivity).
      pose proof (wf_length rhs Hr) as Hsize. rewrite Hbytes in Hsize.
      assert (Ht : take (Z.to_nat (len rhs)) b = content rhs)
        by (rewrite <- Hbytes; reflexivity).
      assert (Hpos : 0 < len rhs) by lia.
      destruct (concat lhs (Some b) (len rhs)) as [ok s'] eqn:Hcat.
      assert (ok = true).
      { revert Hcat. unfold concat. destruct (Z.eqb_spec (len rhs) 0); [lia|].
        rewrite Hu. destruct (reserve lhs (len lhs + len rhs)) as [ok1 s1].
        cbn [fst] in Hres. subst ok1. cbn [negb]. congruence. }
      subst ok. cbn [snd]. rewrite <- Ht.
      apply (concat_wf lhs b (len rhs) s'); try assumption; try lia.
      rewrite Ht. apply wf_content_no_NUL, Hr. }
    destruct Happ as [Hwf Hcont].
    split; [exact Hwf|]. split; [exact Hcont|]. split; [apply empty_state_init|].
    split; intros; lia.
  - destruct (append_String_room lhs rhs) as (Hwf & Hcont & Hcap);
      try assumption; try lia.
    split; [exact Hwf|]. split; [exact Hcont|]. split; [apply empty_state_init|].
    split; [intros; lia|]. intros _. split; [exact Hcap|apply empty_state_init].
  - destruct (append_String_room lhs rhs) as (Hwf & Hcont & Hcap);
      try assumption; try lia.
    split; [exact Hwf|]. split; [exact Hcont|]. split; [apply empty_state_init|].
    split; [intros; lia|]. intros _. split; [exact Hcap|apply empty_state_init].
Qed.

(** X21: a byte or a terminated C string followed by a well-formed
    value: when the reservation for the sum of the lengths succeeds, the
    result is well-formed and holds the byte, respectively the bytes of
    the C string, followed by the content of the value. *)
Theorem op_plus_prefixes (raw rhs : String) (x : ascii) (c : list ascii) :
  wf rhs -> length (sso_buff raw) = SSOSIZE -> CAPACITY_MAX <= 65536 ->
  (x <> NUL -> fst (reserve (init raw) (len rhs + 1)) = true ->
     wf (op_plus_char raw x rhs) /\
     content (op_plus_char raw x rhs) = x :: content rhs) /\
  ((strlen c < length c)%nat ->
   Z.of_nat (strlen c) + len rhs + 16 < 4294967296 ->
   fst (reserve (init raw) (Z.of_nat (strlen c) + len rhs)) = true ->
     wf (op_plus_cstr raw c rhs) /\
     content (op_plus_cstr raw c rhs) = cstr c ++ content rhs).
Proof.
  intros Hr Hraw Hmax.
  pose proof (wf_bounds rhs Hr) as (Hlr & Hcr & Hsso).
  assert (Hi : wf (init raw)) by (apply wf_init; [exact Hraw|lia]).
  assert (Hlen0 : len (init raw) = 0) by apply empty_state_init.
  assert (Hcont0 : content (init raw) = []) by apply empty_state_init.
  split.
  - intros Hx Hres. unfold op_plus_char.
    rewrite (u32_small (len rhs + 1)) by lia.
    destruct (reserve (init raw) (len rhs + 1)) as [ok res1] eqn:Hrv.
    cbn [fst] in Hres. subst ok. cbn [snd].
    assert (Hn0 : 0 <= len rhs + 1) by lia.
    destruct (reserve_wf _ _ _ Hi Hn0 ltac:(lia) Hmax Hrv) as (Hw1 & Hc1 & Hl1 & Hcap1 & _).
    rewrite Hlen0 in Hl1. rewrite Hcont0 in Hc1.
    unfold append_char, concat_char.
    destruct (concat_room res1 [x] 1) as (_ & Hw2 & Hc2 & Hcap2);
      try assumption; try lia.
    { simpl. lia. }
    { repeat constructor. exact Hx. }
    pose proof (wf_content_length _ Hw2) as HL2.
    pose proof (wf_bounds _ Hw2) as (Hl2 & _).
    change (take (Z.to_nat 1) [x]) with [x] in Hc2.
    rewrite Hc2, Hc1 in HL2. cbn [app length] in HL2.
    destruct (append_String_room (snd (concat res1 (Some [x]) 1)) rhs) as (Hw3 & Hc3 & _);
      try assumption; try lia.
    split; [exact Hw3|]. rewrite Hc3, Hc2, Hc1. reflexivity.
  - intros _ Hb Hres. unfold op_plus_cstr.
    rewrite (u32_small (Z.of_nat (strlen c) + len rhs)) by lia.
    destruct (reserve (init raw) (Z.of_nat (strlen c) + len rhs)) as [ok res1] eqn:Hrv.
    cbn [fst] in Hres. subst ok. cbn [snd].
    assert (Hn0 : 0 <= Z.of_nat (strlen c) + len rhs) by lia.
    destruct (reserve_wf _ _ _ Hi Hn0 Hb Hmax Hrv) as (Hw1 & Hc1 & Hl1 & Hcap1 & _).
    rewrite Hlen0 in Hl1. rewrite Hcont0 in Hc1.
    unfold append_cstr, concat_cstr.
    pose proof (strlen_le c) as Hsl.
    destruct (concat_room res1 c (Z.of_nat (strlen c))) as (_ & Hw2 & Hc2 & Hcap2);
      try assumption; try lia.
    { rewrite Nat2Z.id. apply cstr_take. lia. }
    rewrite Nat2Z.id in Hc2. fold (cstr c) in Hc2.
    pose proof (wf_content_length _ Hw2) as HL2.
    pose proof (wf_bounds _ Hw2) as (Hl2 & _).
    rewrite Hc2, Hc1, app_nil_l in HL2. unfold cstr in HL2.
    rewrite length_take in HL2.
    destruct (append_String_room (snd (concat res1 (Some c) (Z.of_nat (strlen c)))) rhs)
      as (Hw3 & Hc3 & _); try assumption; try lia.
    split; [exact Hw3|]. rewrite Hc3, Hc2, Hc1. reflexivity.
Qed.

(** ** Replacing in place *)

Lemma s32_u32 x : - 2147483648 <= x < 2147483648 -> s32 (u32 x) = x.
Proof.
  intros H. unfold s32, u32.
  change (2 ^ 31) with 2147483648. change (2 ^ 32) with 4294967296.
  rewrite Zplus_mod_idemp_l, Z.mod_small by lia. lia.
Qed.

Lemma replace_all_fuel F R l fuel1 fuel2 :
  F <> [] -> (length l <= fuel1)%nat -> (length l <= fuel2)%nat ->
  replace_all fuel1 F R l = replace_all fuel2 F R l.
Proof.
  intros HF. revert fuel2 l.
  induction fuel1 as [|f1 IH]; intros [|f2] l H1 H2; cbn [replace_all];
    try reflexivity.
  - destruct l; [|simpl in H1; lia]. destruct F; [contradiction|]. reflexivity.
  - destruct l; [|simpl in H2; lia]. destruct F; [contradiction|]. reflexivity.
  - destruct (strstr_from F l) as [k|]; [|reflexivity].
    do 2 f_equal.
    apply IH; rewrite length_drop; destruct F; try contradiction; simpl; lia.
Qed.

(** A match of a non-empty pattern lies inside the text. *)
Lemma strstr_from_inside F l k :
  F <> [] -> strstr_from F l = Some k -> (k + length F <= length l)%nat.
Proof.
  intros HF Hk. pose proof (strstr_from_spec F l) as Hs. rewrite Hk in Hs.
  destruct Hs as (_ & Hat & _). apply is_prefix_spec in Hat.
  apply (occurs_at_bound F l k Hat HF).
Qed.

(** Overwriting bytes of the content by bytes other than the terminator. *)
Lemma store_inside s off D :
  wf s -> 0 <= off -> off + Z.of_nat (length D) <= len s ->
  Forall (fun x => x <> NUL) D ->
  wf (store off D s) /\
  content (store off D s)
  = take (Z.to_nat off) (content s) ++ D ++ drop (Z.to_nat off + length D) (content s).
Proof.
  intros Hwf Hoff Hfit HD.
  pose proof (wf_bounds s Hwf) as (Hl & Hc16 & Hsso).
  pose proof (wf_content_no_NUL s Hwf) as Hnn.
  destruct (wf_storage s Hwf) as (T & Hb & HC & HT).
  apply (wf_shape _ _ T); autorewrite with frame; try assumption; try lia.
  - apply buffer_store_Some, Hwf.
  - rewrite poke_spec by (rewrite Hb, length_app; simpl; lia).
    rewrite Hb, take_app_le, drop_app_le by lia.
    rewrite <- !app_assoc. reflexivity.
  - rewrite !length_app, length_take, length_drop. lia.
  - repeat (apply Forall_app; split); auto using Forall_take, Forall_drop.
  - rewrite !length_app, length_take, length_drop. lia.
Qed.

Section Replace.

Variables (fp rp : list ascii) (F R : list ascii) (f r : Z).
Hypothesis HF : cstr fp = F.
Hypothesis HFne : F <> [].
Hypothesis Hf : Z.of_nat (length F) = f.
Hypothesis HR : take (Z.to_nat r) rp = R.
Hypothesis Hr : Z.of_nat (length R) = r.
Hypothesis HRnn : Forall (fun x => x <> NUL) R.

(** The equal-length loop. *)
Lemma _replace_equal_spec :
  r = f ->
  forall fuel s rd, wf s -> 0 <= rd <= len s ->
  wf (_replace_equal fuel fp rp r rd s) /\
  content (_replace_equal fuel fp rp r rd s)
  = take (Z.to_nat rd) (content s)
    ++ replace_all fuel F R (drop (Z.to_nat rd) (content s)) /\
  capacity (_replace_equal fuel fp rp r rd s) = capacity s.
Proof.
  intros Heq. induction fuel as [|fuel IH]; intros s rd Hwf Hrd.
  { cbn [_replace_equal replace_all]. rewrite take_drop. auto. }
  cbn [_replace_equal replace_all]. unfold strstr.
  destruct (region_wf s rd Hwf Hrd) as (T & _ & Hc & _). rewrite HF, Hc.
  pose proof (wf_content_length s Hwf) as HC.
  destruct (strstr_from F (drop (Z.to_nat rd) (content s))) as [k|] eqn:Hk;
    [|rewrite take_drop; auto].
  pose proof (strstr_from_inside _ _ _ HFne Hk) as Hin. rewrite length_drop in Hin.
  rewrite HR.
  destruct (store_inside s (rd + Z.of_nat k) R) as [Hwf1 Hc1];
    try assumption; try lia.
  assert (Hl1 : len (store (rd + Z.of_nat k) R s) = len s) by apply len_store.
  destruct (IH (store (rd + Z.of_nat k) R s) (rd + Z.of_nat k + r))
    as (Hwf2 & Hc2 & Hcap2); [exact Hwf1|rewrite Hl1; lia|].
  split; [exact Hwf2|]. split; [|rewrite Hcap2; apply capacity_store].
  rewrite Hc2, Hc1.
  set (a := Z.to_nat (rd + Z.of_nat k)).
  assert (Hla : length (take a (content s)) = a) by (rewrite length_take; lia).
  replace (Z.to_nat (rd + Z.of_nat k + r)) with (a + length R)%nat by lia.
  rewrite app_assoc.
  assert (Hlen : length (take a (content s) ++ R) = (a + length R)%nat)
    by (rewrite length_app; lia).
  rewrite (take_app_length' (take a (content s) ++ R)) by lia.
  rewrite (drop_app_length' (take a (content s) ++ R)) by lia.
  rewrite (app_assoc (take (Z.to_nat rd) (content s))), take_take_drop, drop_drop.
  replace (Z.to_nat rd + k)%nat with a by lia.
  rewrite <- !app_assoc. do 4 f_equal. lia.
Qed.

(** [take] and [drop] around a write. *)
Lemma take_poke off D B :
  (off + length D <= length B)%nat ->
  take (off + length D) (poke off D B) = take off B ++ D.
Proof.
  intros H. rewrite poke_spec, app_assoc by lia.
  apply take_app_length'. rewrite length_app, length_take. lia.
Qed.

Lemma drop_poke m off D B :
  (off + length D <= length B)%nat -> (off + length D <= m)%nat ->
  drop m (poke off D B) = drop m B.
Proof.
  intros H Hm. rewrite poke_spec, app_assoc by lia.
  rewrite drop_app_ge by (rewrite length_app, length_take; lia).
  rewrite length_app, length_take, drop_drop. f_equal. lia.
Qed.

(** The shrinking loop: [Out] is what has been written, [Rest] what
    remains to be read, and [T] what follows the terminator. *)
Lemma _replace_shrink_spec T :
  r < f ->
  forall fuel s w rd Out Rest,
  0 <= w <= rd ->
  take (Z.to_nat w) (bytes s) = Out -> length Out = Z.to_nat w ->
  drop (Z.to_nat rd) (bytes s) = Rest ++ NUL :: T ->
  len s = w + Z.of_nat (length Rest) -> len s < 4294967296 ->
  Forall (fun x => x <> NUL) Out -> Forall (fun x => x <> NUL) Rest ->
  exists w' rd' s' Out' Rest',
    _replace_shrink fuel fp rp f r (r - f) w rd s = (w', rd', s') /\
    0 <= w' <= rd' /\
    take (Z.to_nat w') (bytes s') = Out' /\ length Out' = Z.to_nat w' /\
    drop (Z.to_nat rd') (bytes s') = Rest' ++ NUL :: T /\
    len s' = w' + Z.of_nat (length Rest') /\
    Forall (fun x => x <> NUL) Out' /\ Forall (fun x => x <> NUL) Rest' /\
    Out' ++ Rest' = Out ++ replace_all fuel F R Rest /\
    capacity s' = capacity s /\ length (bytes s') = length (bytes s) /\
    (is_Some (buffer s) -> is_Some (buffer s')).
Proof.
  intros Hlt. induction fuel as [|fuel IH];
    intros s w rd Out Rest Hw Htake HlOut Hdrop Hlen Hmax HOut HRest.
  { exists w, rd, s, Out, Rest. cbn [_replace_shrink replace_all]. auto 12. }
  cbn [_replace_shrink replace_all]. unfold strstr.
  assert (Hreg : cstr (region rd s) = Rest)
    by (unfold region; rewrite Hdrop; apply cstr_app_NUL, HRest).
  rewrite HF, Hreg.
  destruct (strstr_from F Rest) as [k|] eqn:Hk;
    [|exists w, rd, s, Out, Rest; auto 12].
  pose proof (strstr_from_inside _ _ _ HFne Hk) as Hin.
  assert (Hsize : (Z.to_nat rd + length Rest + 1 + length T = length (bytes s))%nat).
  { assert (H : length (drop (Z.to_nat rd) (bytes s)) = length (Rest ++ NUL :: T))
      by (rewrite Hdrop; reflexivity).
    rewrite length_drop, length_app in H. simpl in H. lia. }
  replace (rd + Z.of_nat k - rd) with (Z.of_nat k) by lia.
  rewrite (u32_small (Z.of_nat k)) by lia.
  set (P := load rd (Z.of_nat k) s).
  assert (HP : P = take k Rest).
  { subst P. unfold load. rewrite Hdrop, Nat2Z.id. apply take_app_le. lia. }
  assert (HlP : length P = k) by (rewrite HP, length_take; lia).
  rewrite HR.
  set (s1 := store w P s).
  set (s2 := store (w + Z.of_nat k) R s1).
  assert (Hl2 : len s2 = len s) by (subst s2 s1; autorewrite with frame; reflexivity).
  rewrite Hl2, (u32_small (len s + (r - f))) by lia.
  set (s3 := setLen (len s + (r - f)) s2).
  assert (Hb3 : bytes s3 = poke (Z.to_nat w + k) R (poke (Z.to_nat w) P (bytes s))).
  { subst s3 s2 s1. autorewrite with frame. do 2 f_equal. lia. }
  assert (Hlb1 : length (poke (Z.to_nat w) P (bytes s)) = length (bytes s))
    by apply length_poke.
  destruct (IH s3 (w + Z.of_nat k + r) (rd + Z.of_nat k + f)
              (Out ++ P ++ R) (drop (k + length F) Rest))
    as (w' & rd' & s' & Out' & Rest' & Hrun & Hw' & Ht' & HlO' & Hd' & Hlen' & HO' & HR'
        & Hres & Hcap & Hlb & Hbuf).
  - lia.
  - rewrite Hb3.
    replace (Z.to_nat (w + Z.of_nat k + r)) with (Z.to_nat w + k + length R)%nat by lia.
    rewrite take_poke by lia.
    rewrite <- HlP at 1. rewrite take_poke by lia.
    rewrite Htake, <- app_assoc. reflexivity.
  - rewrite !length_app. lia.
  - rewrite Hb3, !drop_poke by lia.
    replace (Z.to_nat (rd + Z.of_nat k + f)) with (Z.to_nat rd + (k + length F))%nat by lia.
    rewrite <- drop_drop, Hdrop. apply drop_app_le. lia.
  - subst s3. rewrite len_setLen, length_drop. lia.
  - subst s3. rewrite len_setLen. lia.
  - rewrite HP. repeat (apply Forall_app; split); auto using Forall_take.
  - apply Forall_drop, HRest.
  - exists w', rd', s', Out', Rest'.
    split; [exact Hrun|]. split; [lia|]. split; [exact Ht'|]. split; [exact HlO'|].
    split; [exact Hd'|]. split; [exact Hlen'|]. split; [exact HO'|].
    split; [exact HR'|].
    split; [rewrite Hres, HP, <- !app_assoc; reflexivity|].
    subst s3 s2 s1. autorewrite with frame in *.
    split; [exact Hcap|]. split; [exact Hlb|].
    intros H. apply Hbuf.
    auto using buffer_store_Some, buffer_setLen_Some.
Qed.

End Replace.

(** X22: the general replace, for a replacement no longer than the
    pattern: on a well-formed non-empty value, with a pattern that is a
    terminated non-empty C string of [findLen] bytes and replacement
    bytes other than the terminator, [_replace] returns true and leaves a well-formed
    value, in the same storage, whose content is the old content with
    every occurrence of the pattern, found left to right and not
    overlapping an earlier one, replaced. *)
Theorem _replace_in_place (s : String) (fp : list ascii) (findLen : Z)
  (rp : list ascii) (replaceLen : Z) :
  wf s -> 0 < len s -> (strlen fp < length fp)%nat ->
  Z.of_nat (strlen fp) = findLen -> 0 < findLen < 2147483648 ->
  0 <= replaceLen <= findLen -> (Z.to_nat replaceLen <= length rp)%nat ->
  Forall (fun x => x <> NUL) (take (Z.to_nat replaceLen) rp) ->
  fst (_replace s (Some fp) findLen rp replaceLen) = true /\
  wf (snd (_replace s (Some fp) findLen rp replaceLen)) /\
  content (snd (_replace s (Some fp) findLen rp replaceLen))
  = replace_all (length (content s)) (cstr fp)
      (take (Z.to_nat replaceLen) rp) (content s) /\
  capacity (snd (_replace s (Some fp) findLen rp replaceLen)) = capacity s.
Proof.
  intros Hwf Hpos _ Hfl Hf Hr Hrp Hnn.
  pose proof (wf_bounds s Hwf) as (Hl & Hc16 & Hsso).
  pose proof (wf_content_length s Hwf) as HC.
  pose proof (wf_length s Hwf) as Hsize.
  assert (HlF : Z.of_nat (length (cstr fp)) = findLen).
  { unfold cstr. rewrite length_take. pose proof (strlen_le fp). lia. }
  assert (HFne : cstr fp <> []).
  { intros E. rewrite E in HlF. simpl in HlF. lia. }
  assert (HlR : Z.of_nat (length (take (Z.to_nat replaceLen) rp)) = replaceLen)
    by (rewrite length_take; lia).
  assert (Hfuel : forall fuel, (length (content s) <= fuel)%nat ->
            replace_all fuel (cstr fp) (take (Z.to_nat replaceLen) rp) (content s)
            = replace_all (length (content s)) (cstr fp)
                (take (Z.to_nat replaceLen) rp) (content s))
    by (intros; apply replace_all_fuel; auto).
  unfold _replace.
  destruct (Z.eqb_spec (len s) 0); [lia|].
  destruct (Z.eqb_spec findLen 0); [lia|]. cbn [orb].
  rewrite s32_u32 by lia.
  destruct (Z.eqb_spec (replaceLen - findLen) 0) as [Heq|Hne].
  - cbn [fst snd].
    destruct (_replace_equal_spec fp rp (cstr fp) (take (Z.to_nat replaceLen) rp)
                findLen replaceLen eq_refl HFne HlF eq_refl HlR Hnn ltac:(lia)
                (S (length (bytes s))) s 0 Hwf ltac:(lia))
      as (Hwf' & Hcont & Hcap).
    split; [reflexivity|]. split; [exact Hwf'|]. split; [|exact Hcap].
    rewrite Hcont. change (Z.to_nat 0) with O. rewrite take_0, drop_0, app_nil_l.
    apply Hfuel. lia.
  - destruct (Z.ltb_spec (replaceLen - findLen) 0); [|lia].
    destruct (wf_storage s Hwf) as (T & Hb & _ & HT).
    destruct (_replace_shrink_spec fp rp (cstr fp) (take (Z.to_nat replaceLen) rp)
                findLen replaceLen eq_refl HFne HlF eq_refl HlR Hnn T ltac:(lia)
                (S (length (bytes s))) s 0 0 [] (content s))
      as (w & rd & s1 & Out & Rest & Hrun & Hw & Htake & HlOut & Hdrop & Hlen & HOut
          & HRest & Hres & Hcap & Hlb & Hbuf);
      [lia|reflexivity|reflexivity|rewrite drop_0; exact Hb|lia|lia|constructor
      |apply wf_content_no_NUL, Hwf|].
    rewrite Hrun. cbn [fst snd].
    assert (Hreg : region rd s1 = Rest ++ NUL :: T) by exact Hdrop.
    rewrite Hreg, strlen_app_NUL by assumption.
    assert (Hload : load rd (Z.of_nat (length Rest) + 1) s1 = Rest ++ [NUL]).
    { unfold load. rewrite Hdrop.
      replace (Z.to_nat (Z.of_nat (length Rest) + 1)) with (length Rest + 1)%nat by lia.
      rewrite take_app_add. reflexivity. }
    rewrite Hload.
    assert (Hsz : (Z.to_nat rd + length Rest + 1 + length T = length (bytes s1))%nat).
    { assert (H' : length (drop (Z.to_nat rd) (bytes s1)) = length (Rest ++ NUL :: T))
        by (rewrite Hdrop; reflexivity).
      rewrite length_drop, length_app in H'. simpl in H'. lia. }
    assert (Hbytes : bytes (store w (Rest ++ [NUL]) s1)
                     = (Out ++ Rest) ++
                       NUL :: drop (Z.to_nat w + length Rest + 1) (bytes s1)).
    { rewrite bytes_store, poke_spec by (rewrite length_app; simpl; lia).
      rewrite Htake, length_app, <- !app_assoc. simpl.
      do 4 f_equal. lia. }
    destruct (wf_shape (store w (Rest ++ [NUL]) s1) (Out ++ Rest)
                (drop (Z.to_nat w + length Rest + 1) (bytes s1)))
      as [Hwf' Hcont].
    + apply buffer_store_Some, Hbuf, Hwf.
    + exact Hbytes.
    + rewrite len_store, length_app. lia.
    + apply Forall_app. auto.
    + rewrite capacity_store, length_app, length_drop. lia.
    + rewrite capacity_store. lia.
    + rewrite capacity_store. lia.
    + split; [reflexivity|]. split; [exact Hwf'|].
      split; [|rewrite capacity_store; exact Hcap].
      rewrite Hcont, Hres, app_nil_l. apply Hfuel. lia.
Qed.

(** ** The other ways to append *)

Lemma concat_P_wf s p s' :
  wf s -> (strlen p < length p)%nat ->
  len s + Z.of_nat (strlen p) + 16 < 4294967296 -> CAPACITY_MAX <= 65536 ->
  concat_P s (Some p) = (true, s') ->
  wf s' /\ content s' = content s ++ cstr p.
Proof.
  intros Hwf Hp Hbound Hmax. unfold concat_P.
  pose proof (wf_bounds s Hwf) as (Hl & _).
  destruct (Z.eqb_spec (Z.of_nat (strlen p)) 0) as [Hz|Hnz].
  { intros [= <-]. unfold cstr. replace (strlen p) with O by lia.
    rewrite take_0, app_nil_r. auto. }
  rewrite (u32_small (len s + Z.of_nat (strlen p))) by lia.
  destruct (reserve s (len s + Z.of_nat (strlen p))) as [[] s1] eqn:Hr;
    cbn [negb]; [|discriminate].
  assert (Hn0 : 0 <= len s + Z.of_nat (strlen p)) by lia.
  destruct (reserve_wf _ _ _ Hwf Hn0 Hbound Hmax Hr) as (Hwf1 & Hc1 & Hl1 & Hcap1 & _).
  pose proof (wf_bounds s1 Hwf1) as (_ & Hc16 & Hsso).
  destruct (wf_storage s1 Hwf1) as (T & Hb & HC & HT).
  rewrite Hc1, Hl1 in *.
  intros [= <-].
  assert (Htake : take (Z.to_nat (Z.of_nat (strlen p) + 1)) p = cstr p ++ [NUL]).
  { replace (Z.to_nat (Z.of_nat (strlen p) + 1)) with (S (strlen p)) by lia.
    apply take_S_r, strlen_lookup, Hp. }
  assert (Hlc : length (cstr p) = strlen p)
    by (unfold cstr; rewrite length_take; lia).
  apply (wf_shape _ _ (drop (length (cstr p)) T)); autorewrite with frame;
    try assumption; try lia.
  - apply buffer_setLen_Some, buffer_store_Some, Hwf1.
  - rewrite Htake, Hb.
    replace (Z.to_nat (len s)) with (length (content s) + 0)%nat by lia.
    rewrite poke_app_skip. change (poke 0 ?d ?b) with (overwrite d b).
    rewrite overwrite_app by (rewrite length_app; simpl; lia).
    rewrite <- !app_assoc. do 2 f_equal. simpl. f_equal.
    rewrite length_app. simpl.
    replace (length (cstr p) + 1)%nat with (S (length (cstr p))) by lia.
    reflexivity.
  - rewrite length_app. lia.
  - apply Forall_app. split; [apply wf_content_no_NUL, Hwf|apply cstr_no_NUL].
  - rewrite length_app, length_drop. lia.
Qed.

Lemma concat_Other_wf s o s' :
  wf s -> wf o -> CAPACITY_MAX <= 65536 ->
  concat_String s (Other o) = (true, s') ->
  wf s' /\ content s' = content s ++ content o.
Proof.
  intros Hs Ho Hmax. unfold concat_String.
  destruct (wf_buffer o Ho) as [b Hb]. rewrite Hb.
  assert (Hbytes : bytes o = b) by (unfold bytes; fold (buffer o); rewrite Hb; reflexivity).
  pose proof (wf_bounds o Ho) as (Hl & Hco & _).
  pose proof (wf_bounds s Hs) as (Hls & Hcs & _).
  pose proof (wf_length o Ho) as Hsize. rewrite Hbytes in Hsize.
  assert (Ht : take (Z.to_nat (len o)) b = content o) by (rewrite <- Hbytes; reflexivity).
  destruct (Z.eq_dec (len o) 0) as [Hz|Hnz].
  { unfold concat. rewrite Hz. cbn [Z.eqb]. intros [= <-].
    rewrite (wf_empty o Ho) by lia. rewrite app_nil_r. auto. }
  intros Hcat. rewrite <- Ht.
  apply (concat_wf s b (len o) s'); try assumption; try lia.
  rewrite Ht. apply wf_content_no_NUL, Ho.
Qed.

(** X23: the other ways to append to a well-formed value, when they
    succeed: [concat] of another well-formed value appends its content,
    and [concat] of a flash string, which copies the terminator along
    with the bytes, appends the bytes of the string; both leave the value
    well-formed. *)
Theorem concat_variants_append (s o : String) (p : list ascii) :
  wf s -> CAPACITY_MAX <= 65536 ->
  (wf o -> fst (concat_String s (Other o)) = true ->
     wf (snd (concat_String s (Other o))) /\
     content (snd (concat_String s (Other o))) = content s ++ content o) /\
  ((strlen p < length p)%nat -> len s + Z.of_nat (strlen p) + 16 < 4294967296 ->
   fst (concat_P s (Some p)) = true ->
     wf (snd (concat_P s (Some p))) /\
     content (snd (concat_P s (Some p))) = content s ++ cstr p).
Proof.
  intros Hs Hmax. split.
  - intros Ho Hok. destruct (concat_String s (Other o)) as [ok s'] eqn:Hcat.
    cbn [fst snd] in *. subst ok. eapply concat_Other_wf; eassumption.
  - intros Hp Hbound Hok. destruct (concat_P s (Some p)) as [ok s'] eqn:Hcat.
    cbn [fst snd] in *. subst ok. eapply concat_P_wf; eassumption.
Qed.

(** ** Numeric constructors *)

Lemma length_udigits_le k :
  forall fuel n acc, (1 <= k <= fuel)%nat -> 0 <= n < 10 ^ Z.of_nat k ->
  (length (udigits fuel n acc) <= k + length acc)%nat.
Proof.
  induction k as [|k IH]; intros fuel n acc Hk Hn; [lia|].
  destruct fuel as [|fuel]; [lia|]. cbn [udigits].
  destruct (Z.ltb_spec n 10) as [Hlt|Hge]; [simpl; lia|].
  destruct k as [|k]; [change (10 ^ Z.of_nat 1) with 10 in Hn; lia|].
  specialize (IH fuel (n / 10)
                (ascii_of_N (Z.to_N (48 + n mod 10)) :: acc) ltac:(lia)).
  cbn [length] in IH.
  rewrite (Nat2Z.inj_succ (S k)), Z.pow_succ_r in Hn by lia.
  assert (0 <= n / 10 < 10 ^ Z.of_nat (S k)) by (Z.div_mod_to_equations; lia).
  lia.
Qed.

Lemma length_udigits_ge k :
  forall fuel n acc, (1 <= k <= fuel)%nat -> 10 ^ Z.of_nat (k - 1) <= n ->
  (k + length acc <= length (udigits fuel n acc))%nat.
Proof.
  induction k as [|k IH]; intros fuel n acc Hk Hn; [lia|].
  destruct fuel as [|fuel]; [lia|]. cbn [udigits].
  destruct k as [|k].
  { destruct (n <? 10); [simpl; lia|].
    destruct fuel; cbn [udigits length]; [lia|].
    destruct (n / 10 <? 10); [simpl; lia|].
    clear. generalize (n / 10 / 10). generalize (ascii_of_N (Z.to_N (48 + n mod 10))).
    generalize (ascii_of_N (Z.to_N (48 + (n / 10) mod 10))). intros a b z.
    assert (H : forall f z l, (length l <= length (udigits f z l))%nat).
    { induction f as [|f IHf]; intros z' l; cbn [udigits]; [lia|].
      destruct (z' <? 10); [simpl; lia|].
      specialize (IHf (z' / 10) (ascii_of_N (Z.to_N (48 + z' mod 10)) :: l)).
      simpl in IHf. lia. }
    specialize (H fuel z (a :: b :: acc)). simpl in H. lia. }
  replace (S (S k) - 1)%nat with (S k) in Hn by lia.
  rewrite Nat2Z.inj_succ, Z.pow_succ_r in Hn by lia.
  assert (Hpos : 0 < 10 ^ Z.of_nat k) by (apply Z.pow_pos_nonneg; lia).
  destruct (Z.ltb_spec n 10) as [Hlt|Hge]; [lia|].
  specialize (IH fuel (n / 10)
                (ascii_of_N (Z.to_N (48 + n mod 10)) :: acc) ltac:(lia)).
  cbn [length] in IH.
  replace (S k - 1)%nat with k in IH by lia.
  assert (10 ^ Z.of_nat k <= n / 10) by (Z.div_mod_to_equations; lia).
  lia.
Qed.

Lemma udigits_no_NUL fuel :
  forall n acc, 0 <= n -> Forall (fun x => x <> NUL) acc ->
  Forall (fun x => x <> NUL) (udigits fuel n acc).
Proof.
  induction fuel as [|fuel IH]; intros n acc Hn Hacc; cbn [udigits]; [exact Hacc|].
  assert (Hd : ascii_of_N (Z.to_N (48 + n mod 10)) <> NUL).
  { pose proof (Z.mod_pos_bound n 10 ltac:(lia)) as Hm.
    intros E. apply (f_equal N_of_ascii) in E.
    rewrite N_ascii_embedding in E by lia. simpl in E. lia. }
  destruct (n <? 10); [constructor; assumption|].
  apply IH; [apply Z.div_pos; lia|constructor; assumption].
Qed.

Lemma sprintf_d_no_NUL v : Forall (fun x => x <> NUL) (sprintf_d v).
Proof.
  unfold sprintf_d, sprintf_u. destruct (Z.ltb_spec v 0).
  - constructor; [discriminate|]. apply udigits_no_NUL; [lia|constructor].
  - apply udigits_no_NUL; [lia|constructor].
Qed.

(** Whether the signed rendering and its terminator fit [size] bytes. *)
Lemma into_scratch_signed (digits : nat) v :
  (1 <= digits <= 18)%nat -> - 10 ^ Z.of_nat (S digits) < v < 10 ^ Z.of_nat (S digits) ->
  (is_Some (into_scratch (digits + 2) (sprintf_d v)) <-> - 10 ^ Z.of_nat digits < v).
Proof.
  intros Hd Hv. unfold into_scratch, sprintf_d, sprintf_u.
  assert (Hpos : 0 < 10 ^ Z.of_nat digits) by (apply Z.pow_pos_nonneg; lia).
  destruct (Z.ltb_spec v 0) as [Hneg|Hnn]; cbn [length].
  - destruct (Z_lt_le_dec (- 10 ^ Z.of_nat digits) v) as [Hfit|Hbig].
    + pose proof (length_udigits_le digits 20 (- v) [] ltac:(lia) ltac:(lia)) as Hle.
      cbn [length] in Hle.
      destruct (Nat.leb_spec (S (length (udigits 20 (- v) [])) + 1) (digits + 2));
        [|lia].
      split; [intros _; exact Hfit|intros _; eexists; reflexivity].
    + pose proof (length_udigits_ge (S digits) 20 (- v) [] ltac:(lia)) as Hge.
      replace (S digits - 1)%nat with digits in Hge by lia.
      specialize (Hge ltac:(lia)). cbn [length] in Hge.
      destruct (Nat.leb_spec (S (length (udigits 20 (- v) [])) + 1) (digits + 2));
        [lia|].
      split; [intros [x Hx]; discriminate|lia].
  - pose proof (length_udigits_le (S digits) 20 v [] ltac:(lia) ltac:(lia)) as Hle.
    cbn [length] in Hle.
    destruct (Nat.leb_spec (length (udigits 20 v []) + 1) (digits + 2)); [|lia].
    split; [lia|intros _; eexists; reflexivity].
Qed.

(** X24: the scratch arrays of the decimal constructors.  The array of
    [String(int, 10)] and [String(long, 10)], of 11 bytes, holds the
    rendering and its terminator exactly for the values above
    -1000000000, and that of [String(long long)], of 20 bytes, exactly
    for the values above -1000000000000000000: the negative values with
    the most digits need one byte more than the array has.  The array of
    [String(unsigned long long)] holds every value. *)
Theorem decimal_scratch_arrays (itoa ltoa : Z -> Z -> list ascii)
  (raw : String) (v : Z) :
  (- 2147483648 <= v < 2147483648 ->
     (is_Some (String_int itoa raw v 10) <-> - 1000000000 < v) /\
     (is_Some (String_long ltoa raw v 10) <-> - 1000000000 < v)) /\
  (- 9223372036854775808 <= v < 9223372036854775808 ->
     (is_Some (String_longlong raw v) <-> - 1000000000000000000 < v)) /\
  (0 <= v < 18446744073709551616 -> is_Some (String_ulonglong raw v)).
Proof.
  assert (Hopt : forall (o : option (list ascii)) (g : list ascii -> String),
            is_Some (match o with Some b => Some (g b) | None => None end)
            <-> is_Some o).
  { intros [b|] g; split; intros [x Hx]; eauto; discriminate. }
  split; [|split].
  - intros Hv. unfold String_int, String_long. cbn [Z.eqb Pos.eqb].
    rewrite !Hopt.
    pose proof (into_scratch_signed 9 v ltac:(lia)) as H.
    change (- 10 ^ Z.of_nat 10) with (- 10000000000) in H.
    change (10 ^ Z.of_nat 10) with 10000000000 in H.
    change (- 10 ^ Z.of_nat 9) with (- 1000000000) in H.
    specialize (H ltac:(lia)). split; exact H.
  - intros Hv. unfold String_longlong. rewrite Hopt.
    pose proof (into_scratch_signed 18 v ltac:(lia)) as H.
    change (- 10 ^ Z.of_nat 19) with (- 10000000000000000000) in H.
    change (10 ^ Z.of_nat 19) with 10000000000000000000 in H.
    change (- 10 ^ Z.of_nat 18) with (- 1000000000000000000) in H.
    apply H. lia.
  - intros Hv. unfold String_ulonglong. rewrite Hopt.
    unfold into_scratch, sprintf_u.
    pose proof (length_udigits_le 20 20 v [] ltac:(lia)) as Hle.
    change (10 ^ Z.of_nat 20) with 100000000000000000000 in Hle.
    specialize (Hle ltac:(lia)). cbn [length] in Hle.
    destruct (Nat.leb_spec (length (udigits 20 v []) + 1) (ulonglong_digits10 + 2));
      [eexists; reflexivity|]. unfold ulonglong_digits10 in *. lia.
Qed.

Lemma decimal_fits_int v :
  - 1000000000 < v < 2147483648 ->
  is_Some (into_scratch (int_digits10 + 2) (sprintf_d v)).
Proof.
  intros Hv. pose proof (into_scratch_signed 9 v ltac:(lia)) as H.
  change (- 10 ^ Z.of_nat 10) with (- 10000000000) in H.
  change (10 ^ Z.of_nat 10) with 10000000000 in H.
  change (- 10 ^ Z.of_nat 9) with (- 1000000000) in H.
  apply H; lia.
Qed.

Lemma decimal_fits_longlong v :
  - 1000000000000000000 < v < 9223372036854775808 ->
  is_Some (into_scratch (longlong_digits10 + 2) (sprintf_d v)).
Proof.
  intros Hv. pose proof (into_scratch_signed 18 v ltac:(lia)) as H.
  change (- 10 ^ Z.of_nat 19) with (- 10000000000000000000) in H.
  change (10 ^ Z.of_nat 19) with 10000000000000000000 in H.
  change (- 10 ^ Z.of_nat 18) with (- 1000000000000000000) in H.
  apply H; lia.
Qed.

Lemma into_scratch_cstr size text buf :
  Forall (fun x => x <> NUL) text -> into_scratch size text = Some buf ->
  cstr buf = text /\ (strlen buf < length buf)%nat /\ strlen buf = length text /\
  (length text + 1 <= size)%nat.
Proof.
  intros Hnn. unfold into_scratch.
  destruct (Nat.leb_spec (length text + 1) size) as [Hfit|]; [|discriminate].
  intros [= <-]. change (poke 0 ?d ?b) with (overwrite d b).
  rewrite overwrite_app by (rewrite length_app, length_replicate; simpl; lia).
  rewrite <- app_assoc. simpl.
  rewrite cstr_app_NUL, strlen_app_NUL by assumption.
  rewrite length_app. simpl. repeat split; lia.
Qed.

(** X25: a value constructed from an [int] in base 10 or from a
    [long long] reads back as the decimal rendering of the number, and is
    well-formed, whenever the rendering fits the scratch array and the
    room for it, needed past ten characters, can be reserved. *)
Theorem decimal_round_trip (itoa : Z -> Z -> list ascii) (raw : String) (v : Z) :
  length (sso_buff raw) = SSOSIZE -> 1 <= Z.of_nat SSOSIZE <= 65536 ->
  CAPACITY_MAX <= 65536 ->
  fst (reserve (init raw) (Z.of_nat (length (sprintf_d v)))) = true ->
  (- 1000000000 < v < 2147483648 ->
     exists s, String_int itoa raw v 10 = Some s /\ wf s /\
               content s = sprintf_d v /\ c_str s = sprintf_d v) /\
  (- 1000000000000000000 < v < 9223372036854775808 ->
     exists s, String_longlong raw v = Some s /\ wf s /\
               content s = sprintf_d v /\ c_str s = sprintf_d v).
Proof.
  intros Hraw Hsso Hmax Hres.
  assert (Hi : wf (init raw)) by (apply wf_init; assumption).
  assert (Hbuild : forall size buf, into_scratch size (sprintf_d v) = Some buf ->
            (size <= 64)%nat ->
            wf (assign_cstr (init raw) (Some buf)) /\
            content (assign_cstr (init raw) (Some buf)) = sprintf_d v /\
            c_str (assign_cstr (init raw) (Some buf)) = sprintf_d v).
  { intros size buf Hbuf Hsize.
    destruct (into_scratch_cstr _ _ _ (sprintf_d_no_NUL v) Hbuf) as (Hc & Hterm & Hlen & Hfit).
    unfold assign_cstr. rewrite <- Hlen in Hres.
    destruct (copy_wf (init raw) buf Hi Hterm ltac:(lia) Hmax Hres) as [Hwf Hcont].
    destruct (copy_ok (init raw) buf Hi Hterm ltac:(lia) Hres) as (_ & Hcstr & _).
    rewrite Hc in *. auto. }
  split.
  - intros Hv. destruct (decimal_fits_int v) as [buf Hbuf]; [lia|].
    unfold String_int. cbn [Z.eqb Pos.eqb]. rewrite Hbuf.
    eexists. split; [reflexivity|]. apply (Hbuild _ _ Hbuf). unfold int_digits10. lia.
  - intros Hv. destruct (decimal_fits_longlong v) as [buf Hbuf]; [lia|].
    unfold String_longlong. rewrite Hbuf.
    eexists. split; [reflexivity|]. apply (Hbuild _ _ Hbuf). unfold longlong_digits10. lia.
Qed.

(** ** Slices *)

Lemma substring_slice s raw lo hi :
  wf s -> length (sso_buff raw) = SSOSIZE -> 0 <= lo <= hi -> hi <= len s ->
  CAPACITY_MAX <= 65536 -> fst (reserve (init raw) (hi - lo)) = true ->
  wf (fst (substring s raw lo hi)) /\
  content (fst (substring s raw lo hi))
  = take (Z.to_nat (hi - lo)) (drop (Z.to_nat lo) (content s)).
Proof.
  intros Hwf Hraw Hlo Hhi Hmax Hres.
  pose proof (wf_bounds s Hwf) as (Hl & Hc16 & Hsso).
  pose proof (wf_content_length s Hwf) as HC.
  assert (Hwfo : wf (init raw)) by (apply wf_init; [assumption|lia]).
  rewrite (substring_unfold s raw lo hi Hwf) by lia.
  replace (Z.min lo hi) with lo by lia.
  replace (Z.min (Z.max lo hi) (len s)) with hi by lia.
  destruct (Z.geb_spec lo (len s)) as [Hge|Hlt]; cbn [fst].
  - rewrite drop_ge, take_nil by lia.
    split; [exact Hwfo|apply empty_state_init].
  - destruct (substring_region s lo hi Hwf) as [R HR]; [lia|lia|].
    rewrite HR.
    set (D := take (Z.to_nat (hi - lo)) (drop (Z.to_nat lo) (content s))).
    assert (HD : Forall (fun x => x <> NUL) D)
      by (apply Forall_take, Forall_drop, wf_content_no_NUL, Hwf).
    assert (HlenD : length D = Z.to_nat (hi - lo))
      by (subst D; rewrite length_take, length_drop; lia).
    assert (Hs : strlen (D ++ NUL :: R) = length D)
      by (apply strlen_app_NUL, HD).
    assert (Hcopy : fst (reserve (init raw) (Z.of_nat (strlen (D ++ NUL :: R)))) = true)
      by (rewrite Hs, HlenD, Z2Nat.id by lia; exact Hres).
    assert (Hin : (strlen (D ++ NUL :: R) < length (D ++ NUL :: R))%nat)
      by (rewrite Hs, length_app; simpl; lia).
    assert (Hbound : Z.of_nat (strlen (D ++ NUL :: R)) + 16 < 4294967296) by lia.
    destruct (copy_wf (init raw) (D ++ NUL :: R) Hwfo Hin Hbound Hmax Hcopy)
      as (H1 & H2).
    rewrite cstr_app_NUL in H2 by assumption.
    unfold assign_cstr. auto.
Qed.

(** X26: slices taken by [substring] from a well-formed value are
    well-formed values, and adjacent slices join up: for
    [i <= j <= k <= length], the bytes of [substring(i, j)] followed by
    those of [substring(j, k)] are the bytes of [substring(i, k)]; the
    slice from 0 to the length holds the whole content. *)
Theorem substring_slices_join (s raw1 raw2 raw3 : String) (i j k : Z) :
  wf s -> 0 <= i <= j -> j <= k <= len s -> CAPACITY_MAX <= 65536 ->
  length (sso_buff raw1) = SSOSIZE -> length (sso_buff raw2) = SSOSIZE ->
  length (sso_buff raw3) = SSOSIZE ->
  fst (reserve (init raw1) (j - i)) = true ->
  fst (reserve (init raw2) (k - j)) = true ->
  fst (reserve (init raw3) (k - i)) = true ->
  wf (fst (substring s raw1 i j)) /\ wf (fst (substring s raw2 j k)) /\
  wf (fst (substring s raw3 i k)) /\
  content (fst (substring s raw1 i j)) ++ content (fst (substring s raw2 j k))
  = content (fst (substring s raw3 i k)) /\
  (i = 0 -> k = len s -> content (fst (substring s raw3 i k)) = content s).
Proof.
  intros Hwf Hij Hjk Hmax Hr1 Hr2 Hr3 Ha1 Ha2 Ha3.
  pose proof (wf_content_length s Hwf) as HC.
  destruct (substring_slice s raw1 i j) as [Hw1 Hc1]; try assumption; try lia.
  destruct (substring_slice s raw2 j k) as [Hw2 Hc2]; try assumption; try lia.
  destruct (substring_slice s raw3 i k) as [Hw3 Hc3]; try assumption; try lia.
  split; [exact Hw1|]. split; [exact Hw2|]. split; [exact Hw3|].
  rewrite Hc1, Hc2, Hc3. split.
  - replace (Z.to_nat j) with (Z.to_nat i + Z.to_nat (j - i))%nat by lia.
    rewrite <- drop_drop, take_take_drop. f_equal. lia.
  - intros -> ->. change (Z.to_nat 0) with O.
    rewrite drop_0, take_ge by lia. reflexivity.
Qed.

End WString.

(** * Worked instances

    The theorems above, applied to concrete values on the concrete target,
    and the evaluations of the code at the inputs on which it departs from
    its specification. *)

Lemma alloc_fresh_length old n b : alloc_fresh old n = Some b -> length b = n.
Proof.
  unfold alloc_fresh. intros [= <-].
  rewrite length_take, length_app, length_replicate. lia.
Qed.

Lemma alloc_fresh_keeps old n b :
  alloc_fresh (Some old) n = Some b ->
  take (Nat.min (length old) n) b = take (Nat.min (length old) n) old.
Proof.
  unfold alloc_fresh. intros [= <-]. simpl.
  rewrite take_take, take_app_le by lia.
  f_equal. lia.
Qed.

Lemma alloc_none_length old n b : alloc_none old n = Some b -> length b = n.
Proof. discriminate. Qed.

Lemma alloc_none_keeps old n b :
  alloc_none (Some old) n = Some b ->
  take (Nat.min (length old) n) b = take (Nat.min (length old) n) old.
Proof. discriminate. Qed.

(** The constructor yields the inline values used below. *)
Example String_cstr_inline :
  String_cstr esp8266_SSOSIZE esp8266_CAPACITY_MAX alloc_fresh raw_object
              (Some (lit "banana"))
  = inline_value esp8266_SSOSIZE "banana".
Proof. reflexivity. Qed.

(** With no memory left, copying twenty bytes into an inline value leaves
    the empty state; appending seventeen bytes leaves the value as it was
    and returns false. *)
Lemma C2_allocation_failure_witness :
  let s := inline_value esp8266_SSOSIZE "abc" in
  let copy := copy esp8266_SSOSIZE esp8266_CAPACITY_MAX alloc_none in
  let concat := concat esp8266_SSOSIZE esp8266_CAPACITY_MAX alloc_none in
  alloc_failed esp8266_SSOSIZE esp8266_CAPACITY_MAX alloc_none s 20 /\
  empty_state (copy s (lit "twenty bytes of text") 20) /\
  17 <> 0 /\
  alloc_failed esp8266_SSOSIZE esp8266_CAPACITY_MAX alloc_none s (u32 (len s + 17)) /\
  concat s (Some (lit "seventeen bytes!!")) 17 = (false, s).
Proof.
  intros s copy concat.
  destruct (C2_allocation_failure esp8266_SSOSIZE esp8266_CAPACITY_MAX alloc_none
              s raw_object (lit "twenty bytes of text") 20)
    as (Hcopy & _).
  destruct (C2_allocation_failure esp8266_SSOSIZE esp8266_CAPACITY_MAX alloc_none
              s raw_object (lit "seventeen bytes!!") 17)
    as (_ & _ & _ & Hcat & _).
  assert (H20 : alloc_failed esp8266_SSOSIZE esp8266_CAPACITY_MAX alloc_none s 20)
    by reflexivity.
  assert (H17 : alloc_failed esp8266_SSOSIZE esp8266_CAPACITY_MAX alloc_none s
                  (u32 (len s + 17))) by reflexivity.
  assert (Hne : 17 <> 0) by discriminate.
  split; [exact H20|].
  split; [exact (proj1 (Hcopy H20))|].
  split; [exact Hne|].
  split; [exact H17|].
  exact (Hcat Hne H17).
Defined.

(** Appending nothing to "abc", and an empty value to itself. *)
Lemma C4_concat_zero_length_witness :
  let s := inline_value esp8266_SSOSIZE "abc" in
  let e := inline_value esp8266_SSOSIZE "" in
  let concat_String := concat_String esp8266_SSOSIZE esp8266_CAPACITY_MAX alloc_none in
  is_Some (buffer e) /\ len e = 0 /\
  concat esp8266_SSOSIZE esp8266_CAPACITY_MAX alloc_none s (Some (lit "ignored")) 0
  = (true, s) /\
  concat_String s (Other e) = (true, s) /\
  concat_String e This = (true, e).
Proof.
  intros s e concat_String.
  assert (Hb : is_Some (buffer e)) by (eexists; reflexivity).
  assert (Hl : len e = 0) by reflexivity.
  destruct (C4_concat_zero_length esp8266_SSOSIZE esp8266_CAPACITY_MAX alloc_none
              s e raw_object (lit "ignored"))
    as (H1 & H2 & _).
  destruct (C4_concat_zero_length esp8266_SSOSIZE esp8266_CAPACITY_MAX alloc_none
              e e raw_object (lit "ignored"))
    as (_ & _ & H3 & _).
  split; [exact Hb|]. split; [exact Hl|]. split; [exact H1|].
  split; [exact (H2 Hb Hl)|exact (H3 Hb Hl)].
Defined.

(** "ab" doubled in place, "abcdef" doubled across the move from the
    inline array to a heap block, and twelve bytes doubled across the
    resizing of their heap block. *)
Lemma C5_self_concat_witness :
  let concat_String := concat_String esp8266_SSOSIZE esp8266_CAPACITY_MAX alloc_fresh in
  let reserve := reserve esp8266_SSOSIZE esp8266_CAPACITY_MAX alloc_fresh in
  let ab := inline_value esp8266_SSOSIZE "ab" in
  let abcdef := inline_value esp8266_SSOSIZE "abcdef" in
  let twelve := heap_value 15 "abcdefghijkl" in
  (wf esp8266_SSOSIZE ab /\ fst (reserve ab (2 * len ab)) = true /\
   exists s', concat_String ab This = (true, s') /\
              content s' = content ab ++ content ab /\
              c_str s' = content ab ++ content ab /\ len s' = 2 * len ab) /\
  (wf esp8266_SSOSIZE abcdef /\ fst (reserve abcdef (2 * len abcdef)) = true /\
   isSSO (snd (concat_String abcdef This)) = false /\
   exists s', concat_String abcdef This = (true, s') /\
              content s' = content abcdef ++ content abcdef /\
              c_str s' = content abcdef ++ content abcdef /\
              len s' = 2 * len abcdef) /\
  (wf esp8266_SSOSIZE twelve /\ fst (reserve twelve (2 * len twelve)) = true /\
   capacity esp8266_SSOSIZE (snd (concat_String twelve This)) = 31 /\
   exists s', concat_String twelve This = (true, s') /\
              content s' = content twelve ++ content twelve /\
              c_str s' = content twelve ++ content twelve /\
              len s' = 2 * len twelve).
Proof.
  intros concat_String reserve ab abcdef twelve.
  assert (Hab : wf esp8266_SSOSIZE ab) by wf_solve.
  assert (Habcdef : wf esp8266_SSOSIZE abcdef) by wf_solve.
  assert (Htwelve : wf esp8266_SSOSIZE twelve) by wf_solve.
  assert (Rab : fst (reserve ab (2 * len ab)) = true) by reflexivity.
  assert (Rabcdef : fst (reserve abcdef (2 * len abcdef)) = true) by reflexivity.
  assert (Rtwelve : fst (reserve twelve (2 * len twelve)) = true) by reflexivity.
  split; [|split].
  - split; [exact Hab|]. split; [exact Rab|].
    exact (C5_self_concat esp8266_SSOSIZE esp8266_CAPACITY_MAX alloc_fresh
             alloc_fresh_length alloc_fresh_keeps ab Hab Rab).
  - split; [exact Habcdef|]. split; [exact Rabcdef|]. split; [reflexivity|].
    exact (C5_self_concat esp8266_SSOSIZE esp8266_CAPACITY_MAX alloc_fresh
             alloc_fresh_length alloc_fresh_keeps abcdef Habcdef Rabcdef).
  - split; [exact Htwelve|]. split; [exact Rtwelve|]. split; [reflexivity|].
    exact (C5_self_concat esp8266_SSOSIZE esp8266_CAPACITY_MAX alloc_fresh
             alloc_fresh_length alloc_fresh_keeps twelve Htwelve Rtwelve).
Defined.

(** "banana" in the inline array of the target (room for 9 bytes, no
    growth), in an inline array of 8 bytes (one growth step, to a heap
    block), and in the same with no memory left (false, untouched). *)
Lemma C6_replace_growing_witness :
  let s := inline_value esp8266_SSOSIZE "banana" in
  let t := inline_value 8 "banana" in
  (wf esp8266_SSOSIZE s /\ content s = chars "banana" /\
   exists s', _replace esp8266_SSOSIZE esp8266_CAPACITY_MAX alloc_fresh s
                       (Some (lit "a")) 1 (lit "aa") 2 = (true, s') /\
              content s' = chars "baanaanaa" /\ c_str s' = chars "baanaanaa" /\
              len s' = 9) /\
  (wf 8 t /\ content t = chars "banana" /\
   fst (changeBuffer 8 esp8266_CAPACITY_MAX alloc_fresh t 9) = true /\
   exists s', _replace 8 esp8266_CAPACITY_MAX alloc_fresh t
                       (Some (lit "a")) 1 (lit "aa") 2 = (true, s') /\
              content s' = chars "baanaanaa" /\ c_str s' = chars "baanaanaa" /\
              len s' = 9) /\
  (fst (changeBuffer 8 esp8266_CAPACITY_MAX alloc_none t 9) = false /\
   _replace 8 esp8266_CAPACITY_MAX alloc_none t (Some (lit "a")) 1 (lit "aa") 2
   = (false, t)).
Proof.
  intros s t.
  assert (Hs : wf esp8266_SSOSIZE s) by wf_solve.
  assert (Ht : wf 8 t) by wf_solve.
  assert (Cs : content s = chars "banana") by reflexivity.
  assert (Ct : content t = chars "banana") by reflexivity.
  split; [|split].
  - split; [exact Hs|]. split; [exact Cs|].
    exact (proj2 (proj2 (C6_replace_growing esp8266_SSOSIZE esp8266_CAPACITY_MAX
                    alloc_fresh alloc_fresh_length alloc_fresh_keeps s Hs Cs))).
  - split; [exact Ht|]. split; [exact Ct|]. split; [reflexivity|].
    exact (proj2 (proj2 (C6_replace_growing 8 esp8266_CAPACITY_MAX
                    alloc_fresh alloc_fresh_length alloc_fresh_keeps t Ht Ct))).
  - split; [reflexivity|].
    exact (proj2 (proj2 (C6_replace_growing 8 esp8266_CAPACITY_MAX
                    alloc_none alloc_none_length alloc_none_keeps t Ht Ct))).
Defined.



(** ** Where the code departs from the specification *)

(** C1: the find pattern does not occur in "banana".  The value is left
    as it was by every branch, but the equal-length branch and the
    shrinking branch return true; only the growing branch returns
    false. *)
Theorem C1_replace_no_match_returns_true :
  let s := inline_value esp8266_SSOSIZE "banana" in
  let _replace := _replace esp8266_SSOSIZE esp8266_CAPACITY_MAX alloc_fresh in
  wf esp8266_SSOSIZE s /\
  strstr (bytes s) (lit "z") = None /\ strstr (bytes s) (lit "zz") = None /\
  _replace s (Some (lit "z")) 1 (lit "y") 1 = (true, s) /\
  _replace s (Some (lit "zz")) 2 (lit "y") 1 = (true, s) /\
  _replace s (Some (lit "z")) 1 (lit "yy") 2 = (false, s).
Proof.
  intros s _replace. split; [wf_solve|]. repeat split; reflexivity.
Qed.

(** C3: the character-set trim of "xy" from both ends of "hixy" shortens
    the length to 2 and removes nothing at the front, and [remove(0, 0)]
    returns before it writes the terminator: the byte at offset [len()]
    is 'x' and a reader of the C string still sees "hixy".  The same trim
    of "xx" leaves length 0 in front of the bytes "xx". *)
Theorem C3_trim_chars_loses_terminator :
  let s := inline_value esp8266_SSOSIZE "hixy" in
  let s' := _trim_chars s BOTH (Some (lit "xy")) 2 in
  let t := inline_value esp8266_SSOSIZE "xx" in
  let t' := _trim_chars t BOTH (Some (lit "x")) 1 in
  wf esp8266_SSOSIZE s /\ wf esp8266_SSOSIZE t /\
  (len s' = 2 /\ len s' <= capacity esp8266_SSOSIZE s' /\
   peek (len s') s' = "x"%char /\ c_str s' = chars "hixy") /\
  (len t' = 0 /\ peek (len t') t' = "x"%char /\ c_str t' = chars "xx") /\
  ~ terminated esp8266_SSOSIZE s' /\ ~ terminated esp8266_SSOSIZE t'.
Proof.
  intros s s' t t'. split; [wf_solve|]. split; [wf_solve|].
  split; [split; [reflexivity|split; [discriminate|split; reflexivity]]|].
  split; [repeat split; reflexivity|].
  split; intros [_ H]; vm_compute in H; discriminate H.
Qed.

(** C9: the five bytes a, b, 0, c, d, appended with their length, make a
    value of length 5 with its terminator at offset 5.  Compared with
    itself, the lengths are equal and every content byte matches, but the
    loop of [equalsConstantTime] stops at the zero byte: it visits 2 of
    the 5 positions, the match count is not the length, and the result
    is 0.  Against a value that differs in the last byte the loop makes
    the same 2 iterations and never reads the mismatch.  [compareTo]
    returns 0 on the first pair. *)
Theorem C9_equalsConstantTime_stops_at_NUL :
  let concat := concat esp8266_SSOSIZE esp8266_CAPACITY_MAX alloc_fresh in
  let r := concat (inline_value esp8266_SSOSIZE "")
                  (Some ["a"; "b"; NUL; "c"; "d"]%char) 5 in
  let r' := concat (inline_value esp8266_SSOSIZE "")
                   (Some ["a"; "b"; NUL; "c"; "e"]%char) 5 in
  let a := snd r in
  let a' := snd r' in
  wf esp8266_SSOSIZE (inline_value esp8266_SSOSIZE "") /\
  fst r = true /\ fst r' = true /\
  (len a = 5 /\ content a = ["a"; "b"; NUL; "c"; "d"]%char /\
   terminated esp8266_SSOSIZE a) /\
  (len a' = 5 /\ content a' = ["a"; "b"; NUL; "c"; "e"]%char /\
   terminated esp8266_SSOSIZE a') /\
  equalsConstantTime a a = 0 /\
  equalsConstantTime_loop (bytes a) (bytes a) 0 0 = (2, 0) /\
  equalsConstantTime_loop (bytes a) (bytes a') 0 0 = (2, 0) /\
  compareTo a a = 0.
Proof.
  intros concat r r' a a'. split; [wf_solve|].
  split; [reflexivity|]. split; [reflexivity|].
  split.
  { split; [reflexivity|]. split; [reflexivity|].
    split; [vm_compute; split; discriminate|reflexivity]. }
  split.
  { split; [reflexivity|]. split; [reflexivity|].
    split; [vm_compute; split; discriminate|reflexivity]. }
  repeat split; reflexivity.
Qed.

(** C10: the leading scan of the character-set trim on "x" with the set
    "x".  The terminator of the set is among the [charLen + 1] bytes the
    scan looks for, so the scan passes the terminator of the value at
    index 1 and reads index 2: the count is 2, more than the length 1,
    and [remove(0, 2)] is the call that follows.  In storage that is all
    zero behind the value the scan runs to the end of the storage. *)
Theorem C10_trim_left_scan_passes_terminator :
  let s := inline_value esp8266_SSOSIZE "x" in
  let z := mkString true (chars "x" ++ replicate 10 NUL) 1 None 0 0 in
  let charLen := u32 (1 + 1) in
  wf esp8266_SSOSIZE s /\ wf esp8266_SSOSIZE z /\
  len s = 1 /\ memchr (lit "x") (peek (len s) s) charLen = true /\
  trim_left_scan (lit "x") charLen (bytes s) = 2%nat /\
  len s < Z.of_nat (trim_left_scan (lit "x") charLen (bytes s)) /\
  trim_left_scan (lit "x") charLen (bytes z) = length (bytes z).
Proof.
  intros s z charLen. split; [wf_solve|]. split; [wf_solve|].
  repeat split; reflexivity.
Qed.

(** The overlapping-match question of the growing branch, with
    [__strrstr_P] as modelled from the spec: in "aaaaaaaaaa" the counting
    pass finds five matches of "aa" and makes room for 15 bytes, and the
    right-to-left pass then rewrites nine, the last matches overlapping
    text it has already rewritten: the length ends above the capacity. *)
Example _replace_overlapping_matches :
  let s := inline_value esp8266_SSOSIZE "aaaaaaaaaa" in
  let r := _replace esp8266_SSOSIZE esp8266_CAPACITY_MAX alloc_fresh s
                    (Some (lit "aa")) 2 (lit "aaa") 3 in
  wf esp8266_SSOSIZE s /\
  _replace_count (S (length (bytes s))) (lit "aa") 2 1 0 (len s) s = 15 /\
  fst r = true /\ len (snd r) = 19 /\ capacity esp8266_SSOSIZE (snd r) = 15.
Proof.
  intros s r. split; [wf_solve|]. repeat split; reflexivity.
Qed.

(** ** The examples of the specification, evaluated *)

Example insert_overlap_safety :
  content (insert esp8266_SSOSIZE esp8266_CAPACITY_MAX alloc_fresh
                  (inline_value esp8266_SSOSIZE "abc") 1 (lit "XY") 2)
  = chars "aXYbc".
Proof. reflexivity. Qed.

Example remove_clamping :
  content (remove (inline_value esp8266_SSOSIZE "abc") 1 100) = chars "a".
Proof. reflexivity. Qed.

Example replace_equal_length :
  _replace esp8266_SSOSIZE esp8266_CAPACITY_MAX alloc_fresh
           (inline_value esp8266_SSOSIZE "banana") (Some (lit "a")) 1 (lit "x") 1
  = (true, inline_value esp8266_SSOSIZE "bxnxnx").
Proof. reflexivity. Qed.

Example replace_shrinking :
  let r := _replace esp8266_SSOSIZE esp8266_CAPACITY_MAX alloc_fresh
                    (inline_value esp8266_SSOSIZE "banana")
                    (Some (lit "ana")) 3 (lit "A") 1 in
  fst r = true /\ content (snd r) = chars "bAna" /\ c_str (snd r) = chars "bAna".
Proof. repeat split; reflexivity. Qed.

Example trim_whitespace :
  let r := _trim (inline_value esp8266_SSOSIZE "  hi  ") BOTH in
  content r = chars "hi" /\ c_str r = chars "hi".
Proof. split; reflexivity. Qed.

Example trim_character_set :
  let r := _trim_chars (inline_value esp8266_SSOSIZE "xyhixy") BOTH
                       (Some (lit "xy")) 2 in
  content r = chars "hi" /\ c_str r = chars "hi".
Proof. split; reflexivity. Qed.

Example move_transfers :
  let a := inline_value esp8266_SSOSIZE "abc" in
  let '(b, a') := move raw_object a in
  content b = chars "abc" /\ empty_state a'.
Proof. repeat split; reflexivity. Qed.

(** ** Further instances *)

Lemma reserve_rounds_up_witness :
  let s := inline_value esp8266_SSOSIZE "abc" in
  let reserve := reserve esp8266_SSOSIZE esp8266_CAPACITY_MAX alloc_fresh in
  wf esp8266_SSOSIZE s /\ 0 <= 20 /\ 20 + 16 < 4294967296 /\
  esp8266_CAPACITY_MAX <= 65536 /\ fst (reserve s 20) = true /\
  wf esp8266_SSOSIZE (snd (reserve s 20)) /\
  content (snd (reserve s 20)) = chars "abc" /\
  isSSO (snd (reserve s 20)) = false /\
  capacity esp8266_SSOSIZE (snd (reserve s 20)) = 31.
Proof.
  intros s reserve.
  assert (Hs : wf esp8266_SSOSIZE s) by wf_solve.
  assert (H0 : 0 <= 20) by discriminate.
  assert (Hn : 20 + 16 < 4294967296) by reflexivity.
  assert (Hmax : esp8266_CAPACITY_MAX <= 65536) by discriminate.
  assert (Hok : fst (reserve s 20) = true) by reflexivity.
  assert (Hlt : capacity esp8266_SSOSIZE s < 20) by reflexivity.
  destruct (reserve_rounds_up esp8266_SSOSIZE esp8266_CAPACITY_MAX alloc_fresh
              alloc_fresh_length alloc_fresh_keeps s 20 Hs H0 Hn Hmax Hok)
    as (Hwf & Hcont & _ & _ & Hgrow & _).
  destruct (Hgrow Hlt) as (Hheap & Hcap & _).
  repeat (split; [assumption|]). assumption.
Defined.

Lemma reserve_fails_iff_witness :
  let s := inline_value esp8266_SSOSIZE "abc" in
  let h := heap_value 15 "abc" in
  let reserve := reserve esp8266_SSOSIZE esp8266_CAPACITY_MAX alloc_fresh in
  (wf esp8266_SSOSIZE s /\ capacity esp8266_SSOSIZE s < 65535 /\
   65535 < 4294967296 /\
   fst (reserve s 65535) = false /\ snd (reserve s 65535) = s) /\
  (wf esp8266_SSOSIZE h /\ capacity esp8266_SSOSIZE h < 4294967288 /\
   4294967288 < 4294967296 /\ 0 <= esp8266_CAPACITY_MAX /\
   fst (reserve h 4294967288) = true).
Proof.
  intros s h reserve. split.
  - assert (Hs : wf esp8266_SSOSIZE s) by wf_solve.
    assert (Hlt : capacity esp8266_SSOSIZE s < 65535) by reflexivity.
    assert (Hhi : 65535 < 4294967296) by reflexivity.
    assert (Hn : 65535 + 16 < 4294967296) by reflexivity.
    assert (Hmax : esp8266_CAPACITY_MAX <= 65535) by discriminate.
    destruct (reserve_fails_iff esp8266_SSOSIZE esp8266_CAPACITY_MAX alloc_fresh
                s 65535 Hs Hlt Hhi) as (Hlow & _).
    destruct (Hlow Hn) as (_ & Hceil & Hsame).
    pose proof (Hceil Hmax) as Hfail. pose proof (Hsame Hfail) as Hkept.
    repeat (split; [assumption|]). assumption.
  - assert (Hh : wf esp8266_SSOSIZE h) by wf_solve.
    assert (Hlt : capacity esp8266_SSOSIZE h < 4294967288) by reflexivity.
    assert (Hhi : 4294967288 < 4294967296) by reflexivity.
    assert (Hlo : 4294967296 <= 4294967288 + 16) by discriminate.
    destruct (reserve_fails_iff esp8266_SSOSIZE esp8266_CAPACITY_MAX alloc_fresh
                h 4294967288 Hh Hlt Hhi) as (_ & Hwrap).
    assert (Hmax : 0 <= esp8266_CAPACITY_MAX) by discriminate.
    assert (Hok : fst (reserve h 4294967288) = true).
    { destruct (fst (reserve h 4294967288)) eqn:Hf; [reflexivity|].
      discriminate (proj1 (Hwrap Hlo Hmax) Hf). }
    repeat (split; [assumption|]). assumption.
Defined.

Lemma remove_splices_witness :
  let s := inline_value esp8266_SSOSIZE "abcdef" in
  wf esp8266_SSOSIZE s /\ 0 <= 1 /\ 0 <= 2 /\
  wf esp8266_SSOSIZE (remove s 1 2) /\ content (remove s 1 2) = chars "adef" /\
  capacity esp8266_SSOSIZE (remove s 1 2) = capacity esp8266_SSOSIZE s.
Proof.
  intros s.
  assert (Hs : wf esp8266_SSOSIZE s) by wf_solve.
  assert (H1 : 0 <= 1) by discriminate.
  assert (H2 : 0 <= 2) by discriminate.
  destruct (remove_splices esp8266_SSOSIZE s 1 2 Hs H1 H2)
    as (Hwf & Hcont & _ & _ & Hcap & _).
  repeat (split; [assumption|]). assumption.
Defined.

Lemma concat_appends_witness :
  let s := inline_value esp8266_SSOSIZE "abc" in
  let concat_cstr := concat_cstr esp8266_SSOSIZE esp8266_CAPACITY_MAX alloc_fresh in
  let concat_char := concat_char esp8266_SSOSIZE esp8266_CAPACITY_MAX alloc_fresh in
  wf esp8266_SSOSIZE s /\
  len s + Z.of_nat (strlen (lit "defghijklmn")) + 16 < 4294967296 /\
  esp8266_CAPACITY_MAX <= 65536 /\
  (strlen (lit "defghijklmn") < length (lit "defghijklmn"))%nat /\
  fst (concat_cstr s (Some (lit "defghijklmn"))) = true /\
  content (snd (concat_cstr s (Some (lit "defghijklmn")))) = chars "abcdefghijklmn" /\
  len (snd (concat_cstr s (Some (lit "defghijklmn")))) = 14 /\
  "!"%char <> NUL /\ fst (concat_char s "!"%char) = true /\
  content (snd (concat_char s "!"%char)) = chars "abc!".
Proof.
  intros s concat_cstr concat_char.
  assert (Hs : wf esp8266_SSOSIZE s) by wf_solve.
  assert (Hn : len s + Z.of_nat (strlen (lit "defghijklmn")) + 16 < 4294967296)
    by reflexivity.
  assert (Hmax : esp8266_CAPACITY_MAX <= 65536) by discriminate.
  assert (Hterm : (strlen (lit "defghijklmn") < length (lit "defghijklmn"))%nat)
    by (vm_compute; lia).
  assert (Hok : fst (concat_cstr s (Some (lit "defghijklmn"))) = true) by reflexivity.
  assert (Hx : "!"%char <> NUL) by discriminate.
  assert (Hokc : fst (concat_char s "!"%char) = true) by reflexivity.
  destruct (concat_appends esp8266_SSOSIZE esp8266_CAPACITY_MAX alloc_fresh
              alloc_fresh_length alloc_fresh_keeps s (lit "defghijklmn") "!"%char
              Hs Hn Hmax) as (Hcstr & Hchar).
  destruct (Hcstr Hterm Hok) as (_ & Hcont & Hlen).
  destruct (Hchar Hx Hokc) as (_ & Hcontc).
  repeat (split; [assumption|]). assumption.
Defined.

Lemma insert_splices_witness :
  let s := inline_value esp8266_SSOSIZE "held" in
  let insert := insert esp8266_SSOSIZE esp8266_CAPACITY_MAX alloc_fresh in
  let reserve := reserve esp8266_SSOSIZE esp8266_CAPACITY_MAX alloc_fresh in
  wf esp8266_SSOSIZE s /\ 0 <= 2 /\ len s + 2 + 16 < 4294967296 /\
  (Z.to_nat 2 <= length (lit "XY"))%nat /\
  Forall (fun x => x <> NUL) (take (Z.to_nat 2) (lit "XY")) /\
  esp8266_CAPACITY_MAX <= 65536 /\ 2 <= len s /\ fst (reserve s (len s + 2)) = true /\
  wf esp8266_SSOSIZE (insert s 2 (lit "XY") 2) /\
  content (insert s 2 (lit "XY") 2) = chars "heXYld" /\
  insert s 5 (lit "XY") 2 = s.
Proof.
  intros s insert reserve.
  assert (Hs : wf esp8266_SSOSIZE s) by wf_solve.
  assert (H2 : 0 <= 2) by discriminate.
  assert (Hn : len s + 2 + 16 < 4294967296) by reflexivity.
  assert (Hlen : (Z.to_nat 2 <= length (lit "XY"))%nat) by (vm_compute; lia).
  assert (Hnn : Forall (fun x => x <> NUL) (take (Z.to_nat 2) (lit "XY")))
    by (repeat constructor; discriminate).
  assert (Hmax : esp8266_CAPACITY_MAX <= 65536) by discriminate.
  assert (Hpos : 2 <= len s) by discriminate.
  assert (Hok : fst (reserve s (len s + 2)) = true) by reflexivity.
  assert (H5 : 0 <= 5) by discriminate.
  assert (Hpast : len s < 5) by reflexivity.
  destruct (insert_splices esp8266_SSOSIZE esp8266_CAPACITY_MAX alloc_fresh
              alloc_fresh_length alloc_fresh_keeps s 2 (lit "XY") 2
              Hs H2 H2 Hn Hlen Hnn Hmax) as (Hin & _).
  destruct (Hin Hpos Hok) as (Hwf & Hcont & _).
  destruct (insert_splices esp8266_SSOSIZE esp8266_CAPACITY_MAX alloc_fresh
              alloc_fresh_length alloc_fresh_keeps s 5 (lit "XY") 2
              Hs H5 H2 Hn Hlen Hnn Hmax) as (_ & _ & Hout & _).
  pose proof (Hout Hpast) as Hsame.
  repeat (split; [assumption|]). assumption.
Defined.

Lemma insert_then_remove_witness :
  let s := inline_value esp8266_SSOSIZE "held" in
  let insert := insert esp8266_SSOSIZE esp8266_CAPACITY_MAX alloc_fresh in
  let reserve := reserve esp8266_SSOSIZE esp8266_CAPACITY_MAX alloc_fresh in
  wf esp8266_SSOSIZE s /\ 0 <= 2 <= len s /\ 0 <= 9 /\ len s + 9 + 16 < 4294967296 /\
  (Z.to_nat 9 <= length (lit "123456789"))%nat /\
  Forall (fun x => x <> NUL) (take (Z.to_nat 9) (lit "123456789")) /\
  esp8266_CAPACITY_MAX <= 65536 /\ fst (reserve s (len s + 9)) = true /\
  content (insert s 2 (lit "123456789") 9) = chars "he123456789ld" /\
  content (remove (insert s 2 (lit "123456789") 9) 2 9) = chars "held".
Proof.
  intros s insert reserve.
  assert (Hs : wf esp8266_SSOSIZE s) by wf_solve.
  assert (Hpos : 0 <= 2 <= len s) by (split; discriminate).
  assert (H9 : 0 <= 9) by discriminate.
  assert (Hn : len s + 9 + 16 < 4294967296) by reflexivity.
  assert (Hlen : (Z.to_nat 9 <= length (lit "123456789"))%nat) by (vm_compute; lia).
  assert (Hnn : Forall (fun x => x <> NUL) (take (Z.to_nat 9) (lit "123456789")))
    by (repeat constructor; discriminate).
  assert (Hmax : esp8266_CAPACITY_MAX <= 65536) by discriminate.
  assert (Hok : fst (reserve s (len s + 9)) = true) by reflexivity.
  destruct (insert_then_remove esp8266_SSOSIZE esp8266_CAPACITY_MAX alloc_fresh
              alloc_fresh_length alloc_fresh_keeps s 2 (lit "123456789") 9
              Hs Hpos H9 Hn Hlen Hnn Hmax Hok) as (_ & Hcont).
  assert (Hins : content (insert s 2 (lit "123456789") 9) = chars "he123456789ld")
    by reflexivity.
  repeat (split; [assumption|]). assumption.
Defined.

Lemma replace_char_maps_witness :
  let s := inline_value esp8266_SSOSIZE "banana" in
  wf esp8266_SSOSIZE s /\ "o"%char <> NUL /\
  wf esp8266_SSOSIZE (snd (replace s "a"%char "o"%char)) /\
  content (snd (replace s "a"%char "o"%char)) = chars "bonono" /\
  Forall (fun c => c <> "a"%char) (content (snd (replace s "a"%char "o"%char))).
Proof.
  intros s.
  assert (Hs : wf esp8266_SSOSIZE s) by wf_solve.
  assert (Hr : "o"%char <> NUL) by discriminate.
  assert (Hne : "a"%char <> "o"%char) by discriminate.
  destruct (replace_char_maps esp8266_SSOSIZE s "a"%char "o"%char Hs Hr)
    as (_ & Hwf & Hcont & _ & _ & Hgone).
  pose proof (Hgone Hne) as Hnone.
  repeat (split; [assumption|]). assumption.
Defined.

Lemma case_conversion_witness :
  let s := inline_value esp8266_SSOSIZE "MiXed-42" in
  wf esp8266_SSOSIZE s /\
  content (toLowerCase s) = chars "mixed-42" /\
  content (toUpperCase s) = chars "MIXED-42" /\
  content (toLowerCase (toUpperCase s)) = content (toLowerCase s).
Proof.
  intros s.
  assert (Hs : wf esp8266_SSOSIZE s) by wf_solve.
  destruct (case_conversion esp8266_SSOSIZE s Hs)
    as ((_ & HL & _) & (_ & HU & _) & _ & _ & HLU & _).
  repeat (split; [assumption|]). assumption.
Defined.

Lemma setCharAt_then_index_witness :
  let s := inline_value esp8266_SSOSIZE "abc" in
  wf esp8266_SSOSIZE s /\ 0 <= 1 /\ 1 < len s /\ "X"%char <> NUL /\
  content (setCharAt s 1 "X"%char) = chars "aXc" /\
  op_index (setCharAt s 1 "X"%char) 1 = "X"%char /\
  op_index s 7 = NUL.
Proof.
  intros s.
  assert (Hs : wf esp8266_SSOSIZE s) by wf_solve.
  assert (H1 : 0 <= 1) by discriminate.
  assert (H7 : 0 <= 7) by discriminate.
  assert (Hlt : 1 < len s) by reflexivity.
  assert (Hge : len s <= 7) by discriminate.
  assert (Hx : "X"%char <> NUL) by discriminate.
  destruct (setCharAt_then_index esp8266_SSOSIZE s 1 "X"%char Hs H1) as (Hin & _).
  destruct (Hin Hlt Hx) as (_ & Hcont & Hget & _).
  destruct (setCharAt_then_index esp8266_SSOSIZE s 7 "X"%char Hs H7) as (_ & Hout).
  destruct (Hout Hge) as (_ & Hnul).
  repeat (split; [assumption|]). assumption.
Defined.

Lemma indexOf_char_first_witness :
  let s := inline_value esp8266_SSOSIZE "banana" in
  wf esp8266_SSOSIZE s /\ 0 <= 3 /\ "n"%char <> NUL /\ 3 < len s /\
  (indexOf_char s "n"%char 3 = -1 \/
   3 <= indexOf_char s "n"%char 3 < len s /\
   content s !! Z.to_nat (indexOf_char s "n"%char 3) = Some "n"%char) /\
  indexOf_char s NUL 3 = len s.
Proof.
  intros s.
  assert (Hs : wf esp8266_SSOSIZE s) by wf_solve.
  assert (H3 : 0 <= 3) by discriminate.
  assert (Hn : "n"%char <> NUL) by discriminate.
  assert (Hlt : 3 < len s) by reflexivity.
  destruct (indexOf_char_first esp8266_SSOSIZE s "n"%char 3 Hs H3) as (Hch & Hnul & _).
  destruct (Hch Hn) as (Hfound & _).
  pose proof (Hnul Hlt) as Hterm.
  repeat (split; [assumption|]). assumption.
Defined.

Lemma indexOf_first_occurrence_witness :
  let s := inline_value esp8266_SSOSIZE "banana" in
  let s2 := inline_value esp8266_SSOSIZE "na" in
  wf esp8266_SSOSIZE s /\ wf esp8266_SSOSIZE s2 /\ 0 <= 3 /\
  (indexOf_from s s2 3 = -1 \/
   3 <= indexOf_from s s2 3 /\
   indexOf_from s s2 3 + len s2 <= len s /\
   occurs_at (content s2) (content s) (Z.to_nat (indexOf_from s s2 3))) /\
  indexOf_from s s2 3 = 4.
Proof.
  intros s s2.
  assert (Hs : wf esp8266_SSOSIZE s) by wf_solve.
  assert (Hs2 : wf esp8266_SSOSIZE s2) by wf_solve.
  assert (H3 : 0 <= 3) by discriminate.
  destruct (indexOf_first_occurrence esp8266_SSOSIZE s s2 3 Hs Hs2 H3) as (Hfound & _).
  assert (Hat : indexOf_from s s2 3 = 4) by reflexivity.
  repeat (split; [assumption|]). assumption.
Defined.

Lemma getBytes_copies_witness :
  let s := inline_value esp8266_SSOSIZE "abcdef" in
  let b := replicate 8 garbage in
  wf esp8266_SSOSIZE s /\ 0 <= 1 /\ 0 < 4 < 4294967296 /\
  (Z.to_nat 4 <= length b)%nat /\
  exists out, getBytes s (Some b) 4 1 = Some out /\
              cstr out = chars "bcd" /\
              drop (Z.to_nat 4) out = drop (Z.to_nat 4) b /\
              length out = length b.
Proof.
  intros s b.
  assert (Hs : wf esp8266_SSOSIZE s) by wf_solve.
  assert (H1 : 0 <= 1) by discriminate.
  assert (H4 : 0 < 4 < 4294967296) by (split; reflexivity).
  assert (Hb : (Z.to_nat 4 <= length b)%nat) by (vm_compute; lia).
  pose proof (proj1 (getBytes_copies esp8266_SSOSIZE s b 4 1 Hs H1 H4 Hb)) as Hout.
  repeat (split; [assumption|]). assumption.
Defined.

Lemma compareTo_orders_witness :
  let a := inline_value esp8266_SSOSIZE "abc" in
  let b := inline_value esp8266_SSOSIZE "abd" in
  let c := heap_value 15 "b" in
  (wf esp8266_SSOSIZE a \/ buffer a = None) /\
  (wf esp8266_SSOSIZE b \/ buffer b = None) /\
  (wf esp8266_SSOSIZE c \/ buffer c = None) /\
  op_lt a b = true /\ op_lt b c = true /\ op_lt a c = true /\
  op_gt b a = op_lt a b /\ op_lt b a = false.
Proof.
  intros a b c.
  assert (Ha : wf esp8266_SSOSIZE a \/ buffer a = None) by (left; wf_solve).
  assert (Hb : wf esp8266_SSOSIZE b \/ buffer b = None) by (left; wf_solve).
  assert (Hc : wf esp8266_SSOSIZE c \/ buffer c = None) by (left; wf_solve).
  assert (Hab : op_lt a b = true) by reflexivity.
  assert (Hbc : op_lt b c = true) by reflexivity.
  destruct (compareTo_orders esp8266_SSOSIZE a b c Ha Hb Hc)
    as (_ & _ & _ & _ & Htrans & Hasym & _).
  destruct (compareTo_orders esp8266_SSOSIZE b a c Hb Ha Hc) as (_ & Hgt & _).
  pose proof (Htrans Hab Hbc) as Hac. pose proof (Hasym Hab) as Hba.
  repeat (split; [assumption|]). assumption.
Defined.

Lemma equalsConstantTime_agrees_witness :
  let a := inline_value esp8266_SSOSIZE "secret" in
  let b := heap_value 15 "secret" in
  let c := inline_value esp8266_SSOSIZE "secreT" in
  wf esp8266_SSOSIZE a /\ wf esp8266_SSOSIZE b /\ wf esp8266_SSOSIZE c /\
  (equalsConstantTime a b = 1 <-> compareTo a b = 0) /\
  (equalsConstantTime a c = 0 <-> compareTo a c <> 0) /\
  equalsConstantTime a c = equalsConstantTime c a.
Proof.
  intros a b c.
  assert (Ha : wf esp8266_SSOSIZE a) by wf_solve.
  assert (Hb : wf esp8266_SSOSIZE b) by wf_solve.
  assert (Hc : wf esp8266_SSOSIZE c) by wf_solve.
  destruct (equalsConstantTime_agrees esp8266_SSOSIZE a b Ha Hb) as (H1 & _).
  destruct (equalsConstantTime_agrees esp8266_SSOSIZE a c Ha Hc) as (_ & H0 & Hsym).
  repeat (split; [assumption|]). assumption.
Defined.

Lemma assign_copies_witness :
  let s := inline_value esp8266_SSOSIZE "old" in
  let v := heap_value 15 "abcdefghijkl" in
  let assign := assign esp8266_SSOSIZE esp8266_CAPACITY_MAX alloc_fresh in
  let reserve := reserve esp8266_SSOSIZE esp8266_CAPACITY_MAX alloc_fresh in
  wf esp8266_SSOSIZE s /\ wf esp8266_SSOSIZE v /\ esp8266_CAPACITY_MAX <= 65536 /\
  fst (reserve s (len v)) = true /\
  length (sso_buff raw_object) = esp8266_SSOSIZE /\
  fst (reserve (init raw_object) (len v)) = true /\
  wf esp8266_SSOSIZE (assign s (Other v)) /\
  content (assign s (Other v)) = chars "abcdefghijkl" /\
  compareTo (assign s (Other v)) v = 0 /\
  content (String_copy esp8266_SSOSIZE esp8266_CAPACITY_MAX alloc_fresh raw_object v)
  = chars "abcdefghijkl".
Proof.
  intros s v assign reserve.
  assert (Hs : wf esp8266_SSOSIZE s) by wf_solve.
  assert (Hv : wf esp8266_SSOSIZE v) by wf_solve.
  assert (Hmax : esp8266_CAPACITY_MAX <= 65536) by discriminate.
  assert (Hok : fst (reserve s (len v)) = true) by reflexivity.
  assert (Hraw : length (sso_buff raw_object) = esp8266_SSOSIZE) by reflexivity.
  assert (Hok' : fst (reserve (init raw_object) (len v)) = true) by reflexivity.
  destruct (assign_copies esp8266_SSOSIZE esp8266_CAPACITY_MAX alloc_fresh
              alloc_fresh_length alloc_fresh_keeps s v raw_object Hs Hv Hmax)
    as (Hassign & _ & Hcopy).
  destruct (Hassign Hok) as (Hwf & Hcont & Hcmp & _).
  destruct (Hcopy Hraw Hok') as (_ & Hcont').
  repeat (split; [assumption|]). assumption.
Defined.

Lemma assign_cstr_round_trip_witness :
  let s := heap_value 15 "a longer one" in
  let c := lit "hello" ++ chars "stale" in
  let assign_cstr := assign_cstr esp8266_SSOSIZE esp8266_CAPACITY_MAX alloc_fresh in
  let reserve := reserve esp8266_SSOSIZE esp8266_CAPACITY_MAX alloc_fresh in
  wf esp8266_SSOSIZE s /\ (strlen c < length c)%nat /\
  Z.of_nat (strlen c) + 16 < 4294967296 /\ esp8266_CAPACITY_MAX <= 65536 /\
  fst (reserve s (Z.of_nat (strlen c))) = true /\
  wf esp8266_SSOSIZE (assign_cstr s (Some c)) /\
  c_str (assign_cstr s (Some c)) = chars "hello" /\
  len (assign_cstr s (Some c)) = 5.
Proof.
  intros s c assign_cstr reserve.
  assert (Hs : wf esp8266_SSOSIZE s) by wf_solve.
  assert (Hc : (strlen c < length c)%nat) by (vm_compute; lia).
  assert (Hn : Z.of_nat (strlen c) + 16 < 4294967296) by reflexivity.
  assert (Hmax : esp8266_CAPACITY_MAX <= 65536) by discriminate.
  assert (Hok : fst (reserve s (Z.of_nat (strlen c))) = true) by reflexivity.
  destruct (assign_cstr_round_trip esp8266_SSOSIZE esp8266_CAPACITY_MAX alloc_fresh
              alloc_fresh_length alloc_fresh_keeps s raw_object c Hs Hc Hn Hmax)
    as (Hassign & _).
  destruct (Hassign Hok) as (Hwf & _ & Hcstr & Hlen & _).
  repeat (split; [assumption|]). assumption.
Defined.

Lemma _trim_strips_witness :
  let s := inline_value esp8266_SSOSIZE "  a b   " in
  wf esp8266_SSOSIZE s /\
  (rstrip isspace (content s) = [] -> content s = []) /\
  content (_trim s BOTH) = chars "a b" /\
  content (_trim s LEFT) = chars "a b   " /\
  content (_trim s RIGHT) = chars "  a b" /\
  wf esp8266_SSOSIZE (_trim s RIGHT).
Proof.
  intros s.
  assert (Hs : wf esp8266_SSOSIZE s) by wf_solve.
  assert (Hne : rstrip isspace (content s) = [] -> content s = [])
    by (intros H; vm_compute in H; discriminate H).
  destruct (_trim_strips esp8266_SSOSIZE s BOTH Hs ltac:(discriminate)) as (_ & HB & _).
  destruct (_trim_strips esp8266_SSOSIZE s LEFT Hs ltac:(discriminate)) as (_ & HL & _).
  destruct (_trim_strips esp8266_SSOSIZE s RIGHT Hs (fun _ => Hne)) as (HwR & HR & _).
  repeat (split; [assumption|]). assumption.
Defined.

Lemma _trim_chars_strips_witness :
  let s := inline_value esp8266_SSOSIZE "xyhixy" in
  wf esp8266_SSOSIZE s /\ 0 < 2 /\ 2 + 1 < 4294967296 /\
  (Z.to_nat (2 + 1) <= length (lit "xy"))%nat /\
  Exists (fun x => memchr (lit "xy") x (2 + 1) = false) (bytes s) /\
  RIGHT <> BOTH /\
  content (_trim_chars s RIGHT (Some (lit "xy")) 2) = chars "xyhi" /\
  content (_trim_chars s LEFT (Some (lit "xy")) 2) = chars "hixy" /\
  content (_trim_chars s BOTH (Some (lit "xy")) 2) = chars "hi" /\
  wf esp8266_SSOSIZE (_trim_chars s RIGHT (Some (lit "xy")) 2).
Proof.
  intros s.
  assert (Hs : wf esp8266_SSOSIZE s) by wf_solve.
  assert (H2 : 0 < 2) by reflexivity.
  assert (H3 : 2 + 1 < 4294967296) by reflexivity.
  assert (Hset : (Z.to_nat (2 + 1) <= length (lit "xy"))%nat) by (vm_compute; lia).
  assert (Hstop : Exists (fun x => memchr (lit "xy") x (2 + 1) = false) (bytes s))
    by (do 2 apply Exists_cons_tl; apply Exists_cons_hd; reflexivity).
  assert (Hne : RIGHT <> BOTH) by discriminate.
  destruct (_trim_chars_strips esp8266_SSOSIZE s RIGHT (lit "xy") 2 Hs H2 H3 Hset
              (fun _ => Hstop)) as (HR & _ & _ & HwR).
  destruct (_trim_chars_strips esp8266_SSOSIZE s LEFT (lit "xy") 2 Hs H2 H3 Hset
              (fun _ => Hstop)) as (HL & _).
  destruct (_trim_chars_strips esp8266_SSOSIZE s BOTH (lit "xy") 2 Hs H2 H3 Hset
              (fun _ => Hstop)) as (HB & _).
  pose proof (HwR Hne) as Hwf.
  repeat (split; [assumption|]). assumption.
Defined.

Lemma op_plus_concatenates_witness :
  let op_plus := op_plus esp8266_SSOSIZE esp8266_CAPACITY_MAX alloc_fresh in
  let reserve := reserve esp8266_SSOSIZE esp8266_CAPACITY_MAX alloc_fresh in
  let ab := inline_value esp8266_SSOSIZE "ab" in
  let cd := inline_value esp8266_SSOSIZE "cd" in
  let long := inline_value esp8266_SSOSIZE "0123456789" in
  wf esp8266_SSOSIZE ab /\ wf esp8266_SSOSIZE cd /\ wf esp8266_SSOSIZE long /\
  length (sso_buff raw_object) = esp8266_SSOSIZE /\ esp8266_CAPACITY_MAX <= 65536 /\
  (capacity esp8266_SSOSIZE cd <= len ab + len cd ->
     fst (reserve (init raw_object) (len ab + len cd)) = true) /\
  (capacity esp8266_SSOSIZE long <= len ab + len long ->
     fst (reserve (init raw_object) (len ab + len long)) = true) /\
  content (fst (op_plus raw_object ab cd)) = chars "abcd" /\
  content (fst (op_plus raw_object ab long)) = chars "ab0123456789" /\
  empty_state (snd (op_plus raw_object ab long)).
Proof.
  intros op_plus reserve ab cd long.
  assert (Hab : wf esp8266_SSOSIZE ab) by wf_solve.
  assert (Hcd : wf esp8266_SSOSIZE cd) by wf_solve.
  assert (Hlong : wf esp8266_SSOSIZE long) by wf_solve.
  assert (Hraw : length (sso_buff raw_object) = esp8266_SSOSIZE) by reflexivity.
  assert (Hmax : esp8266_CAPACITY_MAX <= 65536) by discriminate.
  assert (H1 : capacity esp8266_SSOSIZE cd <= len ab + len cd ->
               fst (reserve (init raw_object) (len ab + len cd)) = true)
    by (intros _; reflexivity).
  assert (H2 : capacity esp8266_SSOSIZE long <= len ab + len long ->
               fst (reserve (init raw_object) (len ab + len long)) = true)
    by (intros _; reflexivity).
  destruct (op_plus_concatenates esp8266_SSOSIZE esp8266_CAPACITY_MAX alloc_fresh
              alloc_fresh_length alloc_fresh_keeps raw_object ab cd
              Hab Hcd Hraw Hmax H1) as (_ & Hc1 & _).
  destruct (op_plus_concatenates esp8266_SSOSIZE esp8266_CAPACITY_MAX alloc_fresh
              alloc_fresh_length alloc_fresh_keeps raw_object ab long
              Hab Hlong Hraw Hmax H2) as (_ & Hc2 & He2 & _).
  repeat (split; [assumption|]). assumption.
Defined.

Lemma op_plus_rvalues_concatenates_witness :
  let op_plus_rvalues := op_plus_rvalues esp8266_SSOSIZE esp8266_CAPACITY_MAX alloc_fresh in
  let reserve := reserve esp8266_SSOSIZE esp8266_CAPACITY_MAX alloc_fresh in
  let lhs := inline_value esp8266_SSOSIZE "0123456789" in
  let rhs := heap_value 31 "abcdef" in
  wf esp8266_SSOSIZE lhs /\ wf esp8266_SSOSIZE rhs /\
  length (sso_buff raw_object) = esp8266_SSOSIZE /\ esp8266_CAPACITY_MAX <= 65536 /\
  (capacity esp8266_SSOSIZE lhs < len lhs + len rhs ->
   capacity esp8266_SSOSIZE rhs <= len lhs + len rhs ->
     fst (reserve lhs (len lhs + len rhs)) = true) /\
  (capacity esp8266_SSOSIZE rhs < len rhs + len lhs ->
   capacity esp8266_SSOSIZE lhs <= len rhs + len lhs ->
     fst (reserve rhs (len rhs + len lhs)) = true) /\
  content (fst (fst (op_plus_rvalues raw_object lhs rhs))) = chars "0123456789abcdef" /\
  snd (fst (op_plus_rvalues raw_object lhs rhs)) = lhs /\
  content (fst (fst (op_plus_rvalues raw_object rhs lhs))) = chars "abcdef0123456789" /\
  empty_state (snd (fst (op_plus_rvalues raw_object rhs lhs))).
Proof.
  intros op_plus_rvalues reserve lhs rhs.
  assert (Hl : wf esp8266_SSOSIZE lhs) by wf_solve.
  assert (Hr : wf esp8266_SSOSIZE rhs) by wf_solve.
  assert (Hraw : length (sso_buff raw_object) = esp8266_SSOSIZE) by reflexivity.
  assert (Hmax : esp8266_CAPACITY_MAX <= 65536) by discriminate.
  assert (H1 : capacity esp8266_SSOSIZE lhs < len lhs + len rhs ->
               capacity esp8266_SSOSIZE rhs <= len lhs + len rhs ->
               fst (reserve lhs (len lhs + len rhs)) = true)
    by (intros _ _; reflexivity).
  assert (H2 : capacity esp8266_SSOSIZE rhs < len rhs + len lhs ->
               capacity esp8266_SSOSIZE lhs <= len rhs + len lhs ->
               fst (reserve rhs (len rhs + len lhs)) = true)
    by (intros _ _; reflexivity).
  assert (Hmid : capacity esp8266_SSOSIZE lhs < len lhs + len rhs
                 < capacity esp8266_SSOSIZE rhs) by (split; reflexivity).
  assert (Hfit : len rhs + len lhs <= capacity esp8266_SSOSIZE rhs) by discriminate.
  destruct (op_plus_rvalues_concatenates esp8266_SSOSIZE esp8266_CAPACITY_MAX
              alloc_fresh alloc_fresh_length alloc_fresh_keeps raw_object lhs rhs
              Hl Hr Hraw Hmax H1) as (_ & Hc1 & _ & Hkeep & _).
  destruct (Hkeep Hmid) as (_ & Hsame).
  destruct (op_plus_rvalues_concatenates esp8266_SSOSIZE esp8266_CAPACITY_MAX
              alloc_fresh alloc_fresh_length alloc_fresh_keeps raw_object rhs lhs
              Hr Hl Hraw Hmax H2) as (_ & Hc2 & _ & _ & Htake).
  destruct (Htake Hfit) as (_ & Hempty).
  repeat (split; [assumption|]). assumption.
Defined.

Lemma op_plus_prefixes_witness :
  let op_plus_char := op_plus_char esp8266_SSOSIZE esp8266_CAPACITY_MAX alloc_fresh in
  let op_plus_cstr := op_plus_cstr esp8266_SSOSIZE esp8266_CAPACITY_MAX alloc_fresh in
  let reserve := reserve esp8266_SSOSIZE esp8266_CAPACITY_MAX alloc_fresh in
  let rhs := inline_value esp8266_SSOSIZE "world" in
  wf esp8266_SSOSIZE rhs /\ length (sso_buff raw_object) = esp8266_SSOSIZE /\
  esp8266_CAPACITY_MAX <= 65536 /\ "_"%char <> NUL /\
  fst (reserve (init raw_object) (len rhs + 1)) = true /\
  (strlen (lit "hello, ") < length (lit "hello, "))%nat /\
  Z.of_nat (strlen (lit "hello, ")) + len rhs + 16 < 4294967296 /\
  fst (reserve (init raw_object) (Z.of_nat (strlen (lit "hello, ")) + len rhs)) = true /\
  content (op_plus_char raw_object "_"%char rhs) = chars "_world" /\
  content (op_plus_cstr raw_object (lit "hello, ") rhs) = chars "hello, world".
Proof.
  intros op_plus_char op_plus_cstr reserve rhs.
  assert (Hr : wf esp8266_SSOSIZE rhs) by wf_solve.
  assert (Hraw : length (sso_buff raw_object) = esp8266_SSOSIZE) by reflexivity.
  assert (Hmax : esp8266_CAPACITY_MAX <= 65536) by discriminate.
  assert (Hx : "_"%char <> NUL) by discriminate.
  assert (Hok1 : fst (reserve (init raw_object) (len rhs + 1)) = true) by reflexivity.
  assert (Hterm : (strlen (lit "hello, ") < length (lit "hello, "))%nat)
    by (vm_compute; lia).
  assert (Hn : Z.of_nat (strlen (lit "hello, ")) + len rhs + 16 < 4294967296)
    by reflexivity.
  assert (Hok2 : fst (reserve (init raw_object)
                        (Z.of_nat (strlen (lit "hello, ")) + len rhs)) = true)
    by reflexivity.
  destruct (op_plus_prefixes esp8266_SSOSIZE esp8266_CAPACITY_MAX alloc_fresh
              alloc_fresh_length alloc_fresh_keeps raw_object rhs "_"%char
              (lit "hello, ") Hr Hraw Hmax) as (Hchar & Hcstr).
  destruct (Hchar Hx Hok1) as (_ & Hc1).
  destruct (Hcstr Hterm Hn Hok2) as (_ & Hc2).
  repeat (split; [assumption|]). assumption.
Defined.

Lemma _replace_in_place_witness :
  let s := inline_value esp8266_SSOSIZE "banana" in
  let _replace := _replace esp8266_SSOSIZE esp8266_CAPACITY_MAX alloc_fresh in
  wf esp8266_SSOSIZE s /\ 0 < len s /\
  (strlen (lit "an") < length (lit "an"))%nat /\
  Z.of_nat (strlen (lit "an")) = 2 /\ 0 < 2 < 2147483648 /\
  0 <= 1 <= 2 /\ (Z.to_nat 1 <= length (lit "o"))%nat /\
  Forall (fun x => x <> NUL) (take (Z.to_nat 1) (lit "o")) /\
  0 <= 2 <= 2 /\ (Z.to_nat 2 <= length (lit "AN"))%nat /\
  Forall (fun x => x <> NUL) (take (Z.to_nat 2) (lit "AN")) /\
  content (snd (_replace s (Some (lit "an")) 2 (lit "o") 1)) = chars "booa" /\
  wf esp8266_SSOSIZE (snd (_replace s (Some (lit "an")) 2 (lit "o") 1)) /\
  content (snd (_replace s (Some (lit "an")) 2 (lit "AN") 2)) = chars "bANANa".
Proof.
  intros s _replace.
  assert (Hs : wf esp8266_SSOSIZE s) by wf_solve.
  assert (Hpos : 0 < len s) by reflexivity.
  assert (Hterm : (strlen (lit "an") < length (lit "an"))%nat) by (vm_compute; lia).
  assert (Hf : Z.of_nat (strlen (lit "an")) = 2) by reflexivity.
  assert (Hfl : 0 < 2 < 2147483648) by (split; reflexivity).
  assert (Hr1 : 0 <= 1 <= 2) by (split; discriminate).
  assert (Hl1 : (Z.to_nat 1 <= length (lit "o"))%nat) by (vm_compute; lia).
  assert (Hn1 : Forall (fun x => x <> NUL) (take (Z.to_nat 1) (lit "o")))
    by (repeat constructor; discriminate).
  assert (Hr2 : 0 <= 2 <= 2) by (split; discriminate).
  assert (Hl2 : (Z.to_nat 2 <= length (lit "AN"))%nat) by (vm_compute; lia).
  assert (Hn2 : Forall (fun x => x <> NUL) (take (Z.to_nat 2) (lit "AN")))
    by (repeat constructor; discriminate).
  destruct (_replace_in_place esp8266_SSOSIZE esp8266_CAPACITY_MAX alloc_fresh
              s (lit "an") 2 (lit "o") 1 Hs Hpos Hterm Hf Hfl Hr1 Hl1 Hn1)
    as (_ & Hw1 & Hc1 & _).
  destruct (_replace_in_place esp8266_SSOSIZE esp8266_CAPACITY_MAX alloc_fresh
              s (lit "an") 2 (lit "AN") 2 Hs Hpos Hterm Hf Hfl Hr2 Hl2 Hn2)
    as (_ & _ & Hc2 & _).
  repeat (split; [assumption|]). assumption.
Defined.

Lemma concat_variants_append_witness :
  let s := inline_value esp8266_SSOSIZE "abc" in
  let o := heap_value 15 "defghijklmn" in
  let concat_String := concat_String esp8266_SSOSIZE esp8266_CAPACITY_MAX alloc_fresh in
  let concat_P := concat_P esp8266_SSOSIZE esp8266_CAPACITY_MAX alloc_fresh in
  wf esp8266_SSOSIZE s /\ esp8266_CAPACITY_MAX <= 65536 /\ wf esp8266_SSOSIZE o /\
  fst (concat_String s (Other o)) = true /\
  (strlen (lit "xyz") < length (lit "xyz"))%nat /\
  len s + Z.of_nat (strlen (lit "xyz")) + 16 < 4294967296 /\
  fst (concat_P s (Some (lit "xyz"))) = true /\
  content (snd (concat_String s (Other o))) = chars "abcdefghijklmn" /\
  content (snd (concat_P s (Some (lit "xyz")))) = chars "abcxyz" /\
  wf esp8266_SSOSIZE (snd (concat_P s (Some (lit "xyz")))).
Proof.
  intros s o concat_String concat_P.
  assert (Hs : wf esp8266_SSOSIZE s) by wf_solve.
  assert (Hmax : esp8266_CAPACITY_MAX <= 65536) by discriminate.
  assert (Ho : wf esp8266_SSOSIZE o) by wf_solve.
  assert (Hok : fst (concat_String s (Other o)) = true) by reflexivity.
  assert (Hp : (strlen (lit "xyz") < length (lit "xyz"))%nat) by (vm_compute; lia).
  assert (Hn : len s + Z.of_nat (strlen (lit "xyz")) + 16 < 4294967296) by reflexivity.
  assert (Hokp : fst (concat_P s (Some (lit "xyz"))) = true) by reflexivity.
  destruct (concat_variants_append esp8266_SSOSIZE esp8266_CAPACITY_MAX alloc_fresh
              alloc_fresh_length alloc_fresh_keeps s o (lit "xyz") Hs Hmax)
    as (HS & HP).
  destruct (HS Ho Hok) as (_ & Hc1).
  destruct (HP Hp Hn Hokp) as (Hw2 & Hc2).
  repeat (split; [assumption|]). assumption.
Defined.

Lemma decimal_scratch_arrays_witness :
  let itoa := fun _ _ : Z => chars "" in
  let String_int := String_int esp8266_SSOSIZE esp8266_CAPACITY_MAX alloc_fresh itoa in
  let String_longlong :=
    String_longlong esp8266_SSOSIZE esp8266_CAPACITY_MAX alloc_fresh in
  is_Some (String_int raw_object 2147483647 10) /\
  is_Some (String_int raw_object (- 999999999) 10) /\
  ~ is_Some (String_int raw_object (- 1000000000) 10) /\
  ~ is_Some (String_int raw_object (- 2147483648) 10) /\
  ~ is_Some (String_longlong raw_object (- 9223372036854775808)).
Proof.
  intros itoa String_int String_longlong.
  assert (R1 : - 2147483648 <= 2147483647 < 2147483648) by (split; [discriminate|reflexivity]).
  assert (R2 : - 2147483648 <= - 999999999 < 2147483648) by (split; [discriminate|reflexivity]).
  assert (R3 : - 2147483648 <= - 1000000000 < 2147483648) by (split; [discriminate|reflexivity]).
  assert (R4 : - 2147483648 <= - 2147483648 < 2147483648) by (split; [discriminate|reflexivity]).
  assert (R5 : - 9223372036854775808 <= - 9223372036854775808 < 9223372036854775808)
    by (split; [discriminate|reflexivity]).
  pose proof (proj1 (proj1 (decimal_scratch_arrays esp8266_SSOSIZE esp8266_CAPACITY_MAX
                alloc_fresh itoa itoa raw_object 2147483647) R1)) as H1.
  pose proof (proj1 (proj1 (decimal_scratch_arrays esp8266_SSOSIZE esp8266_CAPACITY_MAX
                alloc_fresh itoa itoa raw_object (- 999999999)) R2)) as H2.
  pose proof (proj1 (proj1 (decimal_scratch_arrays esp8266_SSOSIZE esp8266_CAPACITY_MAX
                alloc_fresh itoa itoa raw_object (- 1000000000)) R3)) as H3.
  pose proof (proj1 (proj1 (decimal_scratch_arrays esp8266_SSOSIZE esp8266_CAPACITY_MAX
                alloc_fresh itoa itoa raw_object (- 2147483648)) R4)) as H4.
  pose proof (proj1 (proj2 (decimal_scratch_arrays esp8266_SSOSIZE esp8266_CAPACITY_MAX
                alloc_fresh itoa itoa raw_object (- 9223372036854775808))) R5) as H5.
  split; [apply H1; reflexivity|]. split; [apply H2; reflexivity|].
  split; [intros H; apply H3 in H; discriminate|].
  split; [intros H; apply H4 in H; discriminate|].
  intros H; apply H5 in H; discriminate.
Defined.

Lemma decimal_round_trip_witness :
  let itoa := fun _ _ : Z => chars "" in
  let String_int := String_int esp8266_SSOSIZE esp8266_CAPACITY_MAX alloc_fresh itoa in
  let String_longlong :=
    String_longlong esp8266_SSOSIZE esp8266_CAPACITY_MAX alloc_fresh in
  let reserve := reserve esp8266_SSOSIZE esp8266_CAPACITY_MAX alloc_fresh in
  length (sso_buff raw_object) = esp8266_SSOSIZE /\
  1 <= Z.of_nat esp8266_SSOSIZE <= 65536 /\ esp8266_CAPACITY_MAX <= 65536 /\
  fst (reserve (init raw_object) (Z.of_nat (length (sprintf_d (- 123456789))))) = true /\
  fst (reserve (init raw_object) (Z.of_nat (length (sprintf_d 1234567890123)))) = true /\
  - 1000000000 < - 123456789 < 2147483648 /\
  - 1000000000000000000 < 1234567890123 < 9223372036854775808 /\
  (exists s, String_int raw_object (- 123456789) 10 = Some s /\
             wf esp8266_SSOSIZE s /\ c_str s = chars "-123456789") /\
  (exists s, String_longlong raw_object 1234567890123 = Some s /\
             wf esp8266_SSOSIZE s /\ c_str s = chars "1234567890123").
Proof.
  intros itoa String_int String_longlong reserve.
  assert (Hraw : length (sso_buff raw_object) = esp8266_SSOSIZE) by reflexivity.
  assert (Hsso : 1 <= Z.of_nat esp8266_SSOSIZE <= 65536) by (split; discriminate).
  assert (Hmax : esp8266_CAPACITY_MAX <= 65536) by discriminate.
  assert (Hr1 : fst (reserve (init raw_object)
                       (Z.of_nat (length (sprintf_d (- 123456789))))) = true)
    by reflexivity.
  assert (Hr2 : fst (reserve (init raw_object)
                       (Z.of_nat (length (sprintf_d 1234567890123)))) = true)
    by reflexivity.
  assert (Hv1 : - 1000000000 < - 123456789 < 2147483648) by (split; reflexivity).
  assert (Hv2 : - 1000000000000000000 < 1234567890123 < 9223372036854775808)
    by (split; reflexivity).
  destruct (proj1 (decimal_round_trip esp8266_SSOSIZE esp8266_CAPACITY_MAX alloc_fresh
                     alloc_fresh_length alloc_fresh_keeps itoa raw_object
                     (- 123456789) Hraw Hsso Hmax Hr1) Hv1)
    as (s1 & Hs1 & Hw1 & _ & Hc1).
  destruct (proj2 (decimal_round_trip esp8266_SSOSIZE esp8266_CAPACITY_MAX alloc_fresh
                     alloc_fresh_length alloc_fresh_keeps itoa raw_object
                     1234567890123 Hraw Hsso Hmax Hr2) Hv2)
    as (s2 & Hs2 & Hw2 & _ & Hc2).
  repeat (split; [assumption|]).
  split; [exists s1|exists s2]; repeat (split; [assumption|]); assumption.
Defined.

Lemma substring_slices_join_witness :
  let s := heap_value 15 "hello, world" in
  let substring := substring esp8266_SSOSIZE esp8266_CAPACITY_MAX alloc_fresh in
  let reserve := reserve esp8266_SSOSIZE esp8266_CAPACITY_MAX alloc_fresh in
  wf esp8266_SSOSIZE s /\ 0 <= 0 <= 5 /\ 5 <= 12 <= len s /\
  esp8266_CAPACITY_MAX <= 65536 /\
  length (sso_buff raw_object) = esp8266_SSOSIZE /\
  fst (reserve (init raw_object) (5 - 0)) = true /\
  fst (reserve (init raw_object) (12 - 5)) = true /\
  fst (reserve (init raw_object) (12 - 0)) = true /\
  content (fst (substring s raw_object 0 5))
  ++ content (fst (substring s raw_object 5 12))
  = content (fst (substring s raw_object 0 12)) /\
  content (fst (substring s raw_object 0 12)) = chars "hello, world" /\
  wf esp8266_SSOSIZE (fst (substring s raw_object 0 12)).
Proof.
  intros s substring reserve.
  assert (Hs : wf esp8266_SSOSIZE s) by wf_solve.
  assert (Hij : 0 <= 0 <= 5) by (split; discriminate).
  assert (Hjk : 5 <= 12 <= len s) by (split; discriminate).
  assert (Hmax : esp8266_CAPACITY_MAX <= 65536) by discriminate.
  assert (Hraw : length (sso_buff raw_object) = esp8266_SSOSIZE) by reflexivity.
  assert (H1 : fst (reserve (init raw_object) (5 - 0)) = true) by reflexivity.
  assert (H2 : fst (reserve (init raw_object) (12 - 5)) = true) by reflexivity.
  assert (H3 : fst (reserve (init raw_object) (12 - 0)) = true) by reflexivity.
  destruct (substring_slices_join esp8266_SSOSIZE esp8266_CAPACITY_MAX alloc_fresh
              alloc_fresh_length alloc_fresh_keeps s raw_object raw_object raw_object
              0 5 12 Hs Hij Hjk Hmax Hraw Hraw Hraw H1 H2 H3)
    as (_ & _ & Hw & Hjoin & Hall).
  pose proof (Hall eq_refl eq_refl) as Hwhole.
  repeat (split; [assumption|]). assumption.
Defined.
